(** * Wiederlade-App: cost engine, unit converter, load log and analysis tab

  A shallow embedding of [src/types.ts] and [src/App.tsx].

  JavaScript numbers are IEEE 754 binary64 values; they are modelled by
  the Standard Library's [spec_float] with [prec = 53] and [emax = 1024],
  so every arithmetic operator of the source is the correctly rounded
  operation of the platform.  Strings are sequences of bytes (UTF-8).
  React state is a record that every handler takes and returns;
  [localStorage] is a finite map from keys to strings inside that record. *)

From Stdlib Require Import ZArith QArith Qabs Qpower Lia Lqa Bool List.
From Stdlib Require Import Ascii String.
From Stdlib Require Import Floats.SpecFloat.
From stdpp Require Import base option list gmap strings.

Local Open Scope Z_scope.

(** ** The Number type *)

Module JSNumber.

Definition number : Type := spec_float.

Definition prec : Z := 53.
Definition emax : Z := 1024.

Definition NaN : number := S754_nan.

(** The operators [+], [*] and [/] of the language. *)
Definition add (x y : number) : number := SFadd prec emax x y.
Definition mul (x y : number) : number := SFmul prec emax x y.
Definition div (x y : number) : number := SFdiv prec emax x y.

(** The global [isNaN] on a Number argument. *)
Definition isNaN (x : number) : bool :=
  match x with S754_nan => true | _ => false end.

(** The global [isFinite] on a Number argument. *)
Definition isFinite (x : number) : bool :=
  match x with S754_zero _ | S754_finite _ _ _ => true | _ => false end.

(** ToBoolean on a Number: [NaN], [+0] and [-0] are falsy. *)
Definition truthy (x : number) : bool :=
  match x with S754_nan | S754_zero _ => false | _ => true end.

(** [x || d] for Numbers. *)
Definition or_default (x d : number) : number :=
  if truthy x then x else d.

(** The mathematical value of a finite Number: [m * 2^e]. *)
Definition pow2 (e : Z) : Q := (2 ^ e)%Q.

Definition to_Q (x : number) : Q :=
  match x with
  | S754_finite s m e =>
      let v := (inject_Z (Zpos m) * pow2 e)%Q in
      if s then Qopp v else v
  | _ => 0%Q
  end.

(** A finite Number that is not negative: [+0] or a positive value. *)
Definition nonneg_finite (x : number) : Prop :=
  x = S754_zero false \/ exists m e, x = S754_finite false m e.

(** The Number nearest to the rational [n / d] (ties to even, overflow
    to an infinity), with sign [s].  The quotient is computed with enough
    bits for the rounding to be decided exactly, as in [SFdiv].  This is
    the rounding of a decimal literal: where the language leaves a choice
    for literals of more than 20 significant digits, the exact value is
    rounded, as the engines do. *)
Definition of_ratio (s : bool) (n d : positive) : number :=
  SFdiv prec emax (S754_finite s n 0) (S754_finite false d 0).

(** The Number for [digits * 10^e10] with sign [s]. *)
Definition of_decimal (s : bool) (digits : Z) (e10 : Z) : number :=
  match digits with
  | Zpos d =>
      match e10 with
      | Zneg k => of_ratio s d (10 ^ k)%positive
      | Z0 => of_ratio s d 1
      | Zpos k => of_ratio s (d * 10 ^ k)%positive 1
      end
  | _ => S754_zero s
  end.

End JSNumber.

Export JSNumber.

(** ** Strings and Numbers: [parseFloat], [Number.prototype.toFixed] and
  [Number::toString] *)

Module JSString.

Local Open Scope string_scope.
Local Open Scope Z_scope.

Definition code (c : ascii) : Z := Z.of_N (N_of_ascii c).

Definition is_digit (c : ascii) : bool := (48 <=? code c) && (code c <=? 57).
Definition digit_val (c : ascii) : Z := code c - 48.
Definition digit_char (d : Z) : ascii := ascii_of_N (Z.to_N (48 + d)).

(** *** Decimal rendering of a non-negative integer *)

Fixpoint digits_aux (fuel : nat) (n : Z) (acc : string) : string :=
  match fuel with
  | O => acc
  | S k =>
      let acc' := String (digit_char (n mod 10)) acc in
      if n <? 10 then acc' else digits_aux k (n / 10) acc'
  end.

Definition decimal_digits (n : Z) : string :=
  digits_aux (S (Z.to_nat (Z.log2 n))) n "".

Fixpoint zeros (k : nat) : string :=
  match k with O => "" | S k' => String "0" (zeros k') end.

Fixpoint take (k : nat) (s : string) : string :=
  match k, s with
  | S k', String c r => String c (take k' r)
  | _, _ => ""
  end.

Fixpoint drop (k : nat) (s : string) : string :=
  match k, s with
  | S k', String _ r => drop k' r
  | _, _ => s
  end.

(** *** White space stripped by [parseFloat] (TrimString, start)

    WhiteSpace and LineTerminator code points, in their UTF-8 encoding. *)

Definition is_ascii_space (c : ascii) : bool :=
  let n := code c in
  ((9 <=? n) && (n <=? 13)) || (n =? 32).

Definition utf8_space_len (s : string) : nat :=
  match s with
  | String a (String b r) =>
      if (code a =? 194) && (code b =? 160) then 2%nat               (* U+00A0 *)
      else
        match r with
        | String c _ =>
            let x := code a in let y := code b in let z := code c in
            if (x =? 239) && (y =? 187) && (z =? 191) then 3%nat       (* U+FEFF *)
            else if (x =? 225) && (y =? 154) && (z =? 128) then 3%nat  (* U+1680 *)
            else if (x =? 226) && (y =? 128) &&
                    (((128 <=? z) && (z <=? 138))                      (* U+2000..U+200A *)
                     || (z =? 168) || (z =? 169) || (z =? 175))        (* U+2028, U+2029, U+202F *)
                 then 3%nat
            else if (x =? 226) && (y =? 129) && (z =? 159) then 3%nat  (* U+205F *)
            else if (x =? 227) && (y =? 128) && (z =? 128) then 3%nat  (* U+3000 *)
            else 0%nat
        | _ => 0%nat
        end
  | _ => 0%nat
  end.

Fixpoint trim_start (s : string) : string :=
  match s with
  | String c r =>
      if is_ascii_space c then trim_start r
      else
        match utf8_space_len s, r with
        | 2%nat, String _ r2 => trim_start r2
        | 3%nat, String _ (String _ r3) => trim_start r3
        | _, _ => s
        end
  | EmptyString => s
  end.

(** *** StrDecimalLiteral: the longest prefix that is a decimal literal *)

(** A maximal run of DecimalDigits: the value accumulated onto [acc], the
    number of digits read onto [n], and the rest of the input. *)
Fixpoint scan_digits (s : string) (acc : Z) (n : Z) : Z * Z * string :=
  match s with
  | String c r =>
      if is_digit c then scan_digits r (10 * acc + digit_val c) (n + 1)
      else (acc, n, s)
  | EmptyString => (acc, n, s)
  end.

(** ExponentPart, when one is present with at least one digit; 0 otherwise
    (the prefix then ends before the exponent indicator). *)
Definition scan_exponent (s : string) : Z :=
  match s with
  | String c r =>
      if (code c =? 101) || (code c =? 69) then
        match r with
        | String "+" r' => let '(v, _, _) := scan_digits r' 0 0 in v
        | String "-" r' => let '(v, _, _) := scan_digits r' 0 0 in - v
        | _ => let '(v, _, _) := scan_digits r 0 0 in v
        end
      else 0
  | EmptyString => 0
  end.

(** StrUnsignedDecimalLiteral without [Infinity]: the digits of the
    integer and fraction parts read as one integer, and the power of ten
    that scales it. *)
Definition scan_unsigned (s : string) : option (Z * Z) :=
  let '(i, ni, r1) := scan_digits s 0 0 in
  match r1 with
  | String "." r2 =>
      let '(d, nf, r3) := scan_digits r2 i 0 in
      if (0 <? ni) || (0 <? nf) then Some (d, scan_exponent r3 - nf) else None
  | _ => if 0 <? ni then Some (i, scan_exponent r1) else None
  end.

Fixpoint starts_with (p s : string) : bool :=
  match p, s with
  | EmptyString, _ => true
  | String a p', String b s' => (code a =? code b) && starts_with p' s'
  | _, _ => false
  end.

(** A parsed StrDecimalLiteral: [Infinity] with its sign, or the sign, the
    digits and the power of ten of a decimal. *)
Inductive literal : Type :=
| LitInfinity (neg : bool)
| LitDecimal (neg : bool) (digits : Z) (e10 : Z).

(** The longest prefix of [s] that is a StrDecimalLiteral, if any. *)
Definition str_decimal_literal (s : string) : option literal :=
  let '(neg, body) :=
    match s with
    | String "-" r => (true, r)
    | String "+" r => (false, r)
    | _ => (false, s)
    end in
  if starts_with "Infinity" body then Some (LitInfinity neg)
  else
    match scan_unsigned body with
    | Some (d, e) => Some (LitDecimal neg d e)
    | None => None
    end.

Definition pow10 (e : Z) : Q := (10 ^ e)%Q.

(** The mathematical value (MV) of the decimal literal that a string
    starts with. *)
Definition MV (s : string) : option Q :=
  match str_decimal_literal s with
  | Some (LitDecimal neg d e) =>
      let v := (inject_Z d * pow10 e)%Q in
      Some (if neg then Qopp v else v)
  | _ => None
  end.

(** The global [parseFloat] on a String argument. *)
Definition parseFloat (input : string) : number :=
  match str_decimal_literal (trim_start input) with
  | Some (LitInfinity neg) => S754_infinity neg
  | Some (LitDecimal neg d e) => of_decimal neg d e
  | None => NaN
  end.

(** *** Number::toString (radix 10) *)

Definition same_number (a b : number) : bool :=
  match a, b with
  | S754_nan, S754_nan => true
  | S754_zero s, S754_zero t => Bool.eqb s t
  | S754_infinity s, S754_infinity t => Bool.eqb s t
  | S754_finite s m e, S754_finite t n f =>
      Bool.eqb s t && (Zpos m =? Zpos n) && (e =? f)
  | _, _ => false
  end.

(** [m * 2^e] as a fraction of two positive integers. *)
Definition ratio_of (m : positive) (e : Z) : Z * Z :=
  match e with
  | Zneg k => (Zpos m, 2 ^ Zpos k)
  | _ => (Zpos m * 2 ^ e, 1)
  end.

(** For [num / den < 1]: the least [j >= 1] with [num * 10^j >= den]. *)
Fixpoint lead_zeros (fuel : nat) (num den : Z) (j : Z) : Z :=
  match fuel with
  | O => j
  | S k =>
      if den <=? num * 10 then j else lead_zeros k (num * 10) den (j + 1)
  end.

(** The integer [n] with [10^(n-1) <= num / den < 10^n]. *)
Definition exp10 (num den : Z) : Z :=
  if den <=? num then Z.of_nat (String.length (decimal_digits (num / den)))
  else 1 - lead_zeros (S (Z.to_nat (Z.log2 den))) num den 1.

(** The [k]-digit decimal significand [s] and exponent [n'] with
    [F(s * 10^(n'-k)) = x], if there is one; of two, the one nearer to
    [x], and the even one on a tie. *)
Definition shortest_at (x : number) (num den n k : Z) : option (Z * Z) :=
  let '(tn, td) :=
    if n <=? k then (num * 10 ^ (k - n), den) else (num, den * 10 ^ (n - k)) in
  let lo := tn / td in
  let r := tn mod td in
  let '(hi, nhi) :=
    if lo + 1 =? 10 ^ k then (10 ^ (k - 1), n + 1) else (lo + 1, n) in
  let lo_ok := same_number (of_decimal false lo (n - k)) x in
  let hi_ok := same_number (of_decimal false hi (nhi - k)) x in
  match lo_ok, hi_ok with
  | true, true =>
      match 2 * r ?= td with
      | Lt => Some (lo, n)
      | Gt => Some (hi, nhi)
      | Eq => if Z.even lo then Some (lo, n) else Some (hi, nhi)
      end
  | true, false => Some (lo, n)
  | false, true => Some (hi, nhi)
  | false, false => None
  end.

Fixpoint shortest_from (fuel : nat) (x : number) (num den n k : Z) : Z * Z :=
  match fuel with
  | O => (num * 10 ^ (k - n) / den, n)
  | S f =>
      match shortest_at x num den n k with
      | Some r => r
      | None => shortest_from f x num den n (k + 1)
      end
  end.

(** Steps 6 to 10 of Number::toString: the digits [ds] of the significand
    and the exponent [n]. *)
Definition format_shortest (ds : string) (n : Z) : string :=
  let k := Z.of_nat (String.length ds) in
  if (k <=? n) && (n <=? 21) then ds ++ zeros (Z.to_nat (n - k))
  else if (0 <? n) && (n <=? 21) then
    take (Z.to_nat n) ds ++ "." ++ drop (Z.to_nat n) ds
  else if (-6 <? n) && (n <=? 0) then
    "0." ++ zeros (Z.to_nat (- n)) ++ ds
  else
    let e := n - 1 in
    let es := (if e <? 0 then "-" else "+") ++ decimal_digits (Z.abs e) in
    if k =? 1 then ds ++ "e" ++ es
    else take 1 ds ++ "." ++ drop 1 ds ++ "e" ++ es.

Definition NumberToString (x : number) : string :=
  match x with
  | S754_nan => "NaN"
  | S754_zero _ => "0"
  | S754_infinity s => if s then "-Infinity" else "Infinity"
  | S754_finite s m e =>
      let '(num, den) := ratio_of m e in
      let '(sg, n) :=
        shortest_from 17 (S754_finite false m e) num den (exp10 num den) 1 in
      (if s then "-" else "") ++ format_shortest (decimal_digits sg) n
  end.

(** *** Number.prototype.toFixed

    [f] is the fractionDigits argument; the source passes the literals 2
    and 4, inside the range 0..100 for which no RangeError is thrown. *)

(** The integer [n] for which [n / 10^f - m * 2^e] is as close to zero as
    possible; the larger one if there are two. *)
Definition nearest_scaled (m : positive) (e : Z) (f : nat) : Z :=
  let '(num, den) := ratio_of m e in
  (2 * num * 10 ^ Z.of_nat f + den) / (2 * den).

(** Step 11.b-c: the digits of [n] with a decimal point before the last
    [f] of them. *)
Definition fixed_digits (n : Z) (f : nat) : string :=
  let m := decimal_digits n in
  match f with
  | O => m
  | _ =>
      let k := String.length m in
      let m' := if (k <=? f)%nat then zeros (f + 1 - k) ++ m else m in
      let k' := String.length m' in
      take (k' - f) m' ++ "." ++ drop (k' - f) m'
  end.

Definition toFixed (x : number) (f : nat) : string :=
  match x with
  | S754_finite s m e =>
      let '(num, den) := ratio_of m e in
      (if s then "-" else "") ++
      (if 10 ^ 21 * den <=? num then NumberToString (S754_finite false m e)
       else fixed_digits (nearest_scaled m e f) f)
  | S754_zero _ => fixed_digits 0 f
  | _ => NumberToString x
  end.

End JSString.

Export JSString.

(** ** JSON: [JSON.parse] and [JSON.stringify] *)

Module JSON.

Local Open Scope string_scope.
Local Open Scope Z_scope.

(** Values produced by [JSON.parse].  An object is its list of
    properties in creation order, without duplicate keys (the order in
    which an engine enumerates integer-like keys is not modelled). *)
#[local] Unset Elimination Schemes.
Inductive value : Type :=
| Null
| Bool (b : bool)
| Number (n : number)
| Str (s : string)
| Array (items : list value)
| Object (props : list (string * value)).
#[local] Set Elimination Schemes.

(** [JSON.parse] either returns a value or throws a SyntaxError. *)
Inductive parsed : Type :=
| Parsed (v : value)
| SyntaxError.

(** CreateDataProperty on an object under construction: a repeated key
    keeps its place and takes the later value. *)
Fixpoint set_prop (k : string) (v : value) (ps : list (string * value))
  : list (string * value) :=
  match ps with
  | [] => [(k, v)]
  | (k', v') :: r =>
      if String.eqb k k' then (k', v) :: r else (k', v') :: set_prop k v r
  end.

Definition is_ws (c : ascii) : bool :=
  let n := code c in (n =? 32) || (n =? 9) || (n =? 10) || (n =? 13).

Fixpoint skip_ws (s : string) : string :=
  match s with
  | String c r => if is_ws c then skip_ws r else s
  | EmptyString => s
  end.

Definition hex_val (c : ascii) : option Z :=
  let n := code c in
  if (48 <=? n) && (n <=? 57) then Some (n - 48)
  else if (65 <=? n) && (n <=? 70) then Some (n - 55)
  else if (97 <=? n) && (n <=? 102) then Some (n - 87)
  else None.

Definition byte (n : Z) : ascii := ascii_of_N (Z.to_N n).

(** UTF-8 bytes of a code point below 0x110000. *)
Definition utf8 (cp : Z) : string :=
  if cp <? 128 then String (byte cp) ""
  else if cp <? 2048 then
    String (byte (192 + cp / 64)) (String (byte (128 + cp mod 64)) "")
  else if cp <? 65536 then
    String (byte (224 + cp / 4096))
      (String (byte (128 + (cp / 64) mod 64))
         (String (byte (128 + cp mod 64)) ""))
  else
    String (byte (240 + cp / 262144))
      (String (byte (128 + (cp / 4096) mod 64))
         (String (byte (128 + (cp / 64) mod 64))
            (String (byte (128 + cp mod 64)) ""))).

(** Four hexadecimal digits. *)
Definition hex4 (s : string) : option (Z * string) :=
  match s with
  | String a (String b (String c (String d r))) =>
      match hex_val a, hex_val b, hex_val c, hex_val d with
      | Some x, Some y, Some z, Some w =>
          Some (((x * 16 + y) * 16 + z) * 16 + w, r)
      | _, _, _, _ => None
      end
  | _ => None
  end.

(** One step inside a JSONString: the closing quote, or one character or
    escape sequence with the bytes it stands for, or a character that may
    not occur.  A [\u] escape of a high surrogate followed by one of a low
    surrogate is one code point. *)
Inductive char_step : Type :=
| Close (rest : string)
| Char (bytes : string) (rest : string)
| Bad.

Definition read_char (s : string) : char_step :=
  match s with
  | EmptyString => Bad
  | String c r =>
      let n := code c in
      if n =? 34 then Close r
      else if n <? 32 then Bad
      else if n =? 92 then
        match r with
        | String e r' =>
            let m := code e in
            let simple (b : Z) := Char (String (byte b) "") r' in
            if m =? 34 then simple 34
            else if m =? 92 then simple 92
            else if m =? 47 then simple 47
            else if m =? 98 then simple 8
            else if m =? 102 then simple 12
            else if m =? 110 then simple 10
            else if m =? 114 then simple 13
            else if m =? 116 then simple 9
            else if m =? 117 then
              match hex4 r' with
              | Some (u, r'') =>
                  if (55296 <=? u) && (u <? 56320) then
                    match r'' with
                    | String b1 (String b2 r3) =>
                        if (code b1 =? 92) && (code b2 =? 117) then
                          match hex4 r3 with
                          | Some (lo, r4) =>
                              if (56320 <=? lo) && (lo <? 57344) then
                                Char (utf8 (65536 + (u - 55296) * 1024 + (lo - 56320))) r4
                              else Char (utf8 u) r''
                          | None => Char (utf8 u) r''
                          end
                        else Char (utf8 u) r''
                    | _ => Char (utf8 u) r''
                    end
                  else Char (utf8 u) r''
              | None => Bad
              end
            else Bad
        | EmptyString => Bad
        end
      else Char (String c "") r
  end.

(** The characters of a JSONString after its opening quote, up to and
    including the closing one. *)
Fixpoint parse_chars (fuel : nat) (s : string) (acc : string)
  : option (string * string) :=
  match fuel with
  | O => None
  | S f =>
      match read_char s with
      | Close r => Some (acc, r)
      | Char bytes r => parse_chars f r (acc ++ bytes)
      | Bad => None
      end
  end.

(** A JSONString after its opening quote. *)
Definition parse_string (r : string) : option (string * string) :=
  parse_chars (S (String.length r)) r "".

(** JSONNumber: an optional minus sign, an integer part without a
    superfluous leading zero, an optional fraction with at least one
    digit, an optional exponent with at least one digit. *)
Definition parse_number (s : string) : option (number * string) :=
  let '(neg, body) :=
    match s with String "-" r => (true, r) | _ => (false, s) end in
  let '(i, ni, r1) := scan_digits body 0 0 in
  let leading_zero :=
    match body with String "0" _ => true | _ => false end in
  if (ni =? 0) || (leading_zero && (1 <? ni)) then None
  else
    let frac :=
      match r1 with
      | String "." r2 =>
          let '(d, nf, r3) := scan_digits r2 i 0 in
          if nf =? 0 then None else Some (d, nf, r3)
      | _ => Some (i, 0, r1)
      end in
    match frac with
    | None => None
    | Some (d, nf, r3) =>
        match r3 with
        | String c r4 =>
            if (code c =? 101) || (code c =? 69) then
              let '(eneg, r5) :=
                match r4 with
                | String "+" r => (false, r)
                | String "-" r => (true, r)
                | _ => (false, r4)
                end in
              let '(ev, ne, r6) := scan_digits r5 0 0 in
              if ne =? 0 then None
              else Some (of_decimal neg d ((if eneg then - ev else ev) - nf), r6)
            else Some (of_decimal neg d (- nf), r3)
        | EmptyString => Some (of_decimal neg d (- nf), r3)
        end
    end.

Definition literal (p : string) (v : value) (s : string) : option (value * string) :=
  if starts_with p s then Some (v, JSString.drop (String.length p) s) else None.

(** A value that is neither an object nor an array. *)
Definition parse_scalar (t : string) : option (value * string) :=
  match t with
  | EmptyString => None
  | String c r =>
      let n := code c in
      if n =? 34 then
        match parse_string r with
        | Some (str, r') => Some (Str str, r')
        | None => None
        end
      else if n =? 116 then literal "true" (Bool true) t
      else if n =? 102 then literal "false" (Bool false) t
      else if n =? 110 then literal "null" Null t
      else
        match parse_number t with
        | Some (x, r') => Some (Number x, r')
        | None => None
        end
  end.

Fixpoint parse_value (fuel : nat) (s : string) : option (value * string) :=
  match fuel with
  | O => None
  | S f =>
      match skip_ws s with
      | EmptyString => None
      | String c r as t =>
          if code c =? 123 then                       (* { *)
            match skip_ws r with
            | String c' r' =>
                if code c' =? 125 then Some (Object [], r')
                else parse_members f r []
            | EmptyString => None
            end
          else if code c =? 91 then                   (* [ *)
            match skip_ws r with
            | String c' r' =>
                if code c' =? 93 then Some (Array [], r')
                else parse_elements f r []
            | EmptyString => None
            end
          else parse_scalar t
      end
  end
with parse_elements (fuel : nat) (s : string) (acc : list value)
  : option (value * string) :=
  match fuel with
  | O => None
  | S f =>
      match parse_value f s with
      | Some (v, r) =>
          match skip_ws r with
          | String c r' =>
              if code c =? 44 then parse_elements f r' (acc ++ [v])
              else if code c =? 93 then Some (Array (acc ++ [v]), r')
              else None
          | EmptyString => None
          end
      | None => None
      end
  end
with parse_members (fuel : nat) (s : string) (acc : list (string * value))
  : option (value * string) :=
  match fuel with
  | O => None
  | S f =>
      match skip_ws s with
      | String q r =>
          if code q =? 34 then
            match parse_string r with
            | Some (k, r1) =>
                match skip_ws r1 with
                | String c r2 =>
                    if code c =? 58 then
                      match parse_value f r2 with
                      | Some (v, r3) =>
                          match skip_ws r3 with
                          | String c' r4 =>
                              if code c' =? 44 then parse_members f r4 (set_prop k v acc)
                              else if code c' =? 125 then Some (Object (set_prop k v acc), r4)
                              else None
                          | EmptyString => None
                          end
                      | None => None
                      end
                    else None
                | EmptyString => None
                end
            | None => None
            end
          else None
      | EmptyString => None
      end
  end.

(** What one successful call of a parsing function guarantees: a shorter
    rest, and the same answer with any fuel that covers the characters
    consumed. *)
Definition consumes {A : Type} (run : nat -> string -> option (A * string))
    (f' : nat) : Prop :=
  forall s v r,
    run f' s = Some (v, r) ->
    (String.length r < String.length s)%nat
    /\ forall f, (String.length s - String.length r <= f)%nat ->
                 run f s = Some (v, r).

(** [JSON.parse(text)]: one JSON value with optional white space around
    it, and nothing else.  Every call of the parser consumes a character,
    so the length of the text is fuel enough. *)
Definition parse (text : string) : parsed :=
  match parse_value (S (String.length text)) text with
  | Some (v, r) =>
      match skip_ws r with
      | EmptyString => Parsed v
      | _ => SyntaxError
      end
  | None => SyntaxError
  end.

(** QuoteJSONString on valid UTF-8 text: the quotation mark, the reverse
    solidus and the control characters are escaped. *)
Definition hex_digit (d : Z) : ascii :=
  if d <? 10 then byte (48 + d) else byte (87 + d).

Definition quote : string := String (byte 34) "".

Definition escape_char (c : ascii) : string :=
  let n := code c in
  let esc (b : Z) := String (byte 92) (String (byte b) "") in
  if n =? 8 then esc 98
  else if n =? 9 then esc 116
  else if n =? 10 then esc 110
  else if n =? 12 then esc 102
  else if n =? 13 then esc 114
  else if n =? 34 then esc 34
  else if n =? 92 then esc 92
  else if n <? 32 then
    esc 117 ++ "00" ++ String (hex_digit (n / 16)) (String (hex_digit (n mod 16)) "")
  else String c "".

Fixpoint escape (s : string) : string :=
  match s with
  | EmptyString => ""
  | String c r => escape_char c ++ escape r
  end.

Definition quote_string (s : string) : string := quote ++ escape s ++ quote.

Fixpoint join (sep : string) (l : list string) : string :=
  match l with
  | [] => ""
  | [x] => x
  | x :: r => x ++ sep ++ join sep r
  end.

(** [JSON.stringify(v)] without replacer or indentation. *)
Fixpoint stringify (v : value) : string :=
  match v with
  | Null => "null"
  | Bool b => if b then "true" else "false"
  | Number n => if isFinite n then NumberToString n else "null"
  | Str s => quote_string s
  | Array items => "[" ++ join "," (List.map stringify items) ++ "]"
  | Object props =>
      "{" ++ join ","
               (List.map (fun kv => quote_string (fst kv) ++ ":" ++ stringify (snd kv)) props)
          ++ "}"
  end.

End JSON.

(** ** [src/types.ts] *)

Module CostInputs.
Record t : Type := mk {
  powderPrice : number;
  powderWeight : number;   (* in kg *)
  powderCharge : number;   (* in grains *)
  primerPrice : number;
  primerCount : number;
  bulletPrice : number;
  bulletCount : number;
  brassPrice : number;
  brassCount : number;
  brassLife : number       (* how many times brass can be reused *)
}.
End CostInputs.

Module LoadRecord.
Record t : Type := mk {
  id : string;
  name : string;
  caliber : string;
  bulletWeight : number;   (* grains *)
  powderType : string;
  powderCharge : number;   (* grains *)
  primerType : string;
  date : string
}.

(** The object that [JSON.stringify] sees: the properties in the order in
    which [addLoad] creates them. *)
Definition to_json (r : t) : JSON.value :=
  JSON.Object
    [ ("id"%string, JSON.Str (id r));
      ("name"%string, JSON.Str (name r));
      ("caliber"%string, JSON.Str (caliber r));
      ("bulletWeight"%string, JSON.Number (bulletWeight r));
      ("powderType"%string, JSON.Str (powderType r));
      ("powderCharge"%string, JSON.Number (powderCharge r));
      ("primerType"%string, JSON.Str (primerType r));
      ("date"%string, JSON.Str (date r)) ].

(** A parsed value that inhabits [LoadRecord]. *)
Definition of_json (v : JSON.value) : option t :=
  match v with
  | JSON.Object
      [ ("id"%string, JSON.Str i);
        ("name"%string, JSON.Str n);
        ("caliber"%string, JSON.Str c);
        ("bulletWeight"%string, JSON.Number bw);
        ("powderType"%string, JSON.Str pt);
        ("powderCharge"%string, JSON.Number pc);
        ("primerType"%string, JSON.Str pr);
        ("date"%string, JSON.Str d) ] => Some (mk i n c bw pt pc pr d)
  | _ => None
  end.
End LoadRecord.

(** [Partial<LoadRecord>]: every property may be missing. *)
Module PartialLoadRecord.
Record t : Type := mk {
  id : option string;
  name : option string;
  caliber : option string;
  bulletWeight : option number;
  powderType : option string;
  powderCharge : option number;
  primerType : option string;
  date : option string
}.

(** The object literal [{}]. *)
Definition empty : t := mk None None None None None None None None.
End PartialLoadRecord.

Definition GRAINS_PER_KG : number :=
Eval vm_compute in of_decimal false 154323584 (-4).     (* 15432.3584 *)
Definition GRAINS_PER_GRAM : number :=
Eval vm_compute in of_decimal false 154323584 (-7).     (* 15.4323584 *)

(** ** [src/App.tsx] *)

Module App.

Local Open Scope string_scope.

(** The breakdown returned by [calculatedCosts]. *)
Record CostBreakdown : Type := {
  powder : number;
  primer : number;
  bullet : number;
  brass : number;
  total : number;
  per100 : number
}.

(** The state of the page: the hooks of [App], the hooks of
    [AnalysisTab], and the browser's [localStorage]. *)
Record State : Type := {
  costs : CostInputs.t;
  convGrains : string;
  convGrams : string;
  loads : list LoadRecord.t;
  newLoad : PartialLoadRecord.t;
  selectedImage : option string;
  isAnalyzing : bool;
  result : option JSON.value;
  error : option string;
  bulletDiameter : string;
  expectedShots : string;
  localStorage : gmap string string
}.

(** The state setters of the hooks, and [localStorage.setItem]. *)
Definition setCosts (c : CostInputs.t) (w : State) : State :=
  {| costs := c; convGrains := convGrains w; convGrams := convGrams w;
     loads := loads w; newLoad := newLoad w; selectedImage := selectedImage w;
     isAnalyzing := isAnalyzing w; result := result w; error := error w;
     bulletDiameter := bulletDiameter w; expectedShots := expectedShots w;
     localStorage := localStorage w |}.

Definition setConvGrains (s : string) (w : State) : State :=
  {| costs := costs w; convGrains := s; convGrams := convGrams w;
     loads := loads w; newLoad := newLoad w; selectedImage := selectedImage w;
     isAnalyzing := isAnalyzing w; result := result w; error := error w;
     bulletDiameter := bulletDiameter w; expectedShots := expectedShots w;
     localStorage := localStorage w |}.

Definition setConvGrams (s : string) (w : State) : State :=
  {| costs := costs w; convGrains := convGrains w; convGrams := s;
     loads := loads w; newLoad := newLoad w; selectedImage := selectedImage w;
     isAnalyzing := isAnalyzing w; result := result w; error := error w;
     bulletDiameter := bulletDiameter w; expectedShots := expectedShots w;
     localStorage := localStorage w |}.

Definition setLoads (l : list LoadRecord.t) (w : State) : State :=
  {| costs := costs w; convGrains := convGrains w; convGrams := convGrams w;
     loads := l; newLoad := newLoad w; selectedImage := selectedImage w;
     isAnalyzing := isAnalyzing w; result := result w; error := error w;
     bulletDiameter := bulletDiameter w; expectedShots := expectedShots w;
     localStorage := localStorage w |}.

Definition setNewLoad (n : PartialLoadRecord.t) (w : State) : State :=
  {| costs := costs w; convGrains := convGrains w; convGrams := convGrams w;
     loads := loads w; newLoad := n; selectedImage := selectedImage w;
     isAnalyzing := isAnalyzing w; result := result w; error := error w;
     bulletDiameter := bulletDiameter w; expectedShots := expectedShots w;
     localStorage := localStorage w |}.

Definition setIsAnalyzing (b : bool) (w : State) : State :=
  {| costs := costs w; convGrains := convGrains w; convGrams := convGrams w;
     loads := loads w; newLoad := newLoad w; selectedImage := selectedImage w;
     isAnalyzing := b; result := result w; error := error w;
     bulletDiameter := bulletDiameter w; expectedShots := expectedShots w;
     localStorage := localStorage w |}.

Definition setResult (r : option JSON.value) (w : State) : State :=
  {| costs := costs w; convGrains := convGrains w; convGrams := convGrams w;
     loads := loads w; newLoad := newLoad w; selectedImage := selectedImage w;
     isAnalyzing := isAnalyzing w; result := r; error := error w;
     bulletDiameter := bulletDiameter w; expectedShots := expectedShots w;
     localStorage := localStorage w |}.

Definition setError (e : option string) (w : State) : State :=
  {| costs := costs w; convGrains := convGrains w; convGrams := convGrams w;
     loads := loads w; newLoad := newLoad w; selectedImage := selectedImage w;
     isAnalyzing := isAnalyzing w; result := result w; error := e;
     bulletDiameter := bulletDiameter w; expectedShots := expectedShots w;
     localStorage := localStorage w |}.

Definition setItem (k v : string) (w : State) : State :=
  {| costs := costs w; convGrains := convGrains w; convGrams := convGrams w;
     loads := loads w; newLoad := newLoad w; selectedImage := selectedImage w;
     isAnalyzing := isAnalyzing w; result := result w; error := error w;
     bulletDiameter := bulletDiameter w; expectedShots := expectedShots w;
     localStorage := <[k := v]> (localStorage w) |}.

(** ToBoolean on a String, and on a property that may be undefined. *)
Definition nonempty (s : string) : bool :=
  match s with EmptyString => false | _ => true end.

Definition present (o : option string) : bool :=
  match o with Some s => nonempty s | None => false end.

(** [o || d] on an optional String and on an optional Number. *)
Definition str_or (o : option string) (d : string) : string :=
  match o with Some s => if nonempty s then s else d | None => d end.

Definition num_or (o : option number) (d : number) : number :=
  match o with Some x => or_default x d | None => d end.

Definition zero : number := S754_zero false.
Definition one : number := Eval vm_compute in of_decimal false 1 0.
Definition hundred : number := Eval vm_compute in of_decimal false 100 0.

(** The initial values of the hooks. *)
Definition initialCosts : CostInputs.t :=
  Eval vm_compute in
  CostInputs.mk
    (of_decimal false 85 0) (of_decimal false 1 0) (of_decimal false 42 0)
    (of_decimal false 65 0) (of_decimal false 1000 0)
    (of_decimal false 35 0) (of_decimal false 100 0)
    (of_decimal false 45 0) (of_decimal false 50 0) (of_decimal false 5 0).

Definition initial (storage : gmap string string) : State :=
  {| costs := initialCosts; convGrains := "15.43"; convGrams := "1.00";
     loads := []; newLoad := PartialLoadRecord.empty;
     selectedImage := None; isAnalyzing := false; result := None;
     error := None; bulletDiameter := "7.62"; expectedShots := "5";
     localStorage := storage |}.

Definition storageKey : string := "reloading_loads".

(** *** The effect that runs once after mounting *)

(** An effect completes, or an exception leaves it; or it stores a parsed
    value that is not a [LoadRecord[]] in [loads] (the source does not
    check what [JSON.parse] returns). *)
Inductive Completion : Type :=
| Normal (w : State)
| Throws
| Miscast (v : JSON.value).

Fixpoint loads_of_json (items : list JSON.value) : option (list LoadRecord.t) :=
  match items with
  | [] => Some []
  | v :: r =>
      match LoadRecord.of_json v, loads_of_json r with
      | Some x, Some l => Some (x :: l)
      | _, _ => None
      end
  end.

(** The [useEffect] of [App]: [localStorage.getItem], and [setLoads] of
    what [JSON.parse] returns when something is stored. *)
Definition loadEffect (w : State) : Completion :=
  let savedLoads := localStorage w !! storageKey in
  if present savedLoads then
    match JSON.parse (str_or savedLoads "") with
    | JSON.Parsed v =>
        match v with
        | JSON.Array items =>
            match loads_of_json items with
            | Some l => Normal (setLoads l w)
            | None => Miscast v
            end
        | _ => Miscast v
        end
    | JSON.SyntaxError => Throws
    end
  else Normal w.

(** [saveLoads]: [setLoads], then [localStorage.setItem] of the whole list. *)
Definition saveLoads (updatedLoads : list LoadRecord.t) (w : State) : State :=
  setItem storageKey
    (JSON.stringify (JSON.Array (List.map LoadRecord.to_json updatedLoads)))
    (setLoads updatedLoads w).

(** *** Cost calculator *)

(** The [useMemo] that computes [calculatedCosts] from [costs]. *)
Definition calculatedCosts (costs : CostInputs.t) : CostBreakdown :=
  let powderCostPerGrain :=
    div (div (CostInputs.powderPrice costs) (CostInputs.powderWeight costs))
        GRAINS_PER_KG in
  let powderCost := mul powderCostPerGrain (CostInputs.powderCharge costs) in
  let primerCost := div (CostInputs.primerPrice costs) (CostInputs.primerCount costs) in
  let bulletCost := div (CostInputs.bulletPrice costs) (CostInputs.bulletCount costs) in
  let brassCost :=
    div (div (CostInputs.brassPrice costs) (CostInputs.brassCount costs))
        (CostInputs.brassLife costs) in
  let total := add (add (add powderCost primerCost) bulletCost) brassCost in
  {| powder := powderCost;
     primer := primerCost;
     bullet := bulletCost;
     brass := brassCost;
     total := total;
     per100 := mul total hundred |}.

(** The ten number inputs of the calculator. *)
Inductive CostField : Type :=
| powderPrice | powderWeight | powderCharge
| primerPrice | primerCount
| bulletPrice | bulletCount
| brassPrice | brassCount | brassLife.

Definition get (f : CostField) (c : CostInputs.t) : number :=
  match f with
  | powderPrice => CostInputs.powderPrice c
  | powderWeight => CostInputs.powderWeight c
  | powderCharge => CostInputs.powderCharge c
  | primerPrice => CostInputs.primerPrice c
  | primerCount => CostInputs.primerCount c
  | bulletPrice => CostInputs.bulletPrice c
  | bulletCount => CostInputs.bulletCount c
  | brassPrice => CostInputs.brassPrice c
  | brassCount => CostInputs.brassCount c
  | brassLife => CostInputs.brassLife c
  end.

(** [{...costs, f: x}] *)
Definition spread (c : CostInputs.t) (f : CostField) (x : number) : CostInputs.t :=
  let 'CostInputs.mk pp pw pc rp rc bp bc sp sc sl := c in
  match f with
  | powderPrice => CostInputs.mk x pw pc rp rc bp bc sp sc sl
  | powderWeight => CostInputs.mk pp x pc rp rc bp bc sp sc sl
  | powderCharge => CostInputs.mk pp pw x rp rc bp bc sp sc sl
  | primerPrice => CostInputs.mk pp pw pc x rc bp bc sp sc sl
  | primerCount => CostInputs.mk pp pw pc rp x bp bc sp sc sl
  | bulletPrice => CostInputs.mk pp pw pc rp rc x bc sp sc sl
  | bulletCount => CostInputs.mk pp pw pc rp rc bp x sp sc sl
  | brassPrice => CostInputs.mk pp pw pc rp rc bp bc x sc sl
  | brassCount => CostInputs.mk pp pw pc rp rc bp bc sp x sl
  | brassLife => CostInputs.mk pp pw pc rp rc bp bc sp sc x
  end.

(** The right operand of [||] in the [onChange] handler of each input. *)
Definition fallback (f : CostField) : number :=
  match f with
  | brassLife => one
  | _ => zero
  end.

(** [onChange] of the input of field [f], with [value = e.target.value]. *)
Definition onChange (f : CostField) (value : string) (w : State) : State :=
  setCosts (spread (costs w) f (or_default (parseFloat value) (fallback f))) w.

(** *** Unit converter *)

(** [handleGrainsChange] and [handleGramsChange]: the edited field takes
    the raw text; the other one is recomputed when the text parses. *)
Definition handleGrainsChange (val : string) (w : State) : State :=
  let w := setConvGrains val w in
  let num := parseFloat val in
  if negb (isNaN num) then setConvGrams (toFixed (div num GRAINS_PER_GRAM) 4) w
  else w.

Definition handleGramsChange (val : string) (w : State) : State :=
  let w := setConvGrams val w in
  let num := parseFloat val in
  if negb (isNaN num) then setConvGrains (toFixed (mul num GRAINS_PER_GRAM) 2) w
  else w.

(** *** Load log *)

(** [addLoad]; [uuid] is what [crypto.randomUUID()] returns and [today]
    what [new Date().toLocaleDateString('de-DE')] returns at the call. *)
Definition addLoad (uuid today : string) (w : State) : State :=
  let nl := newLoad w in
  if present (PartialLoadRecord.name nl) && present (PartialLoadRecord.caliber nl) then
    let record :=
      {| LoadRecord.id := uuid;
         LoadRecord.name := str_or (PartialLoadRecord.name nl) "";
         LoadRecord.caliber := str_or (PartialLoadRecord.caliber nl) "";
         LoadRecord.bulletWeight := num_or (PartialLoadRecord.bulletWeight nl) zero;
         LoadRecord.powderType := str_or (PartialLoadRecord.powderType nl) "";
         LoadRecord.powderCharge := num_or (PartialLoadRecord.powderCharge nl) zero;
         LoadRecord.primerType := str_or (PartialLoadRecord.primerType nl) "";
         LoadRecord.date := today |} in
    setNewLoad PartialLoadRecord.empty (saveLoads (record :: loads w) w)
  else w.

(** [deleteLoad]: the list without the records that carry the id. *)
Definition deleteLoad (id : string) (w : State) : State :=
  saveLoads (List.filter (fun l => negb (String.eqb (LoadRecord.id l) id)) (loads w)) w.

(** The text that [saveLoads] stores for a list. *)
Definition stored (l : list LoadRecord.t) : string :=
  JSON.stringify (JSON.Array (List.map LoadRecord.to_json l)).

(** The invariant of the load log: a name and a caliber, both non-empty. *)
Definition named (r : LoadRecord.t) : Prop :=
  LoadRecord.name r <> "" /\ LoadRecord.caliber r <> "".

(** How many records of [l] carry the id [i]. *)
Definition occurrences (i : string) (l : list LoadRecord.t) : nat :=
  length (List.filter (fun r => String.eqb (LoadRecord.id r) i) l).

(** *** Sessions of the load log

    What the user can do on the load tab: edit the form (any of its
    [onChange] handlers ends in [setNewLoad]), press the save button, press
    the delete button of a record. *)
Inductive Action : Type :=
| EditForm (form : PartialLoadRecord.t)
| AddLoad (uuid today : string)
| DeleteLoad (id : string).

Definition step (w : State) (a : Action) : State :=
  match a with
  | EditForm form => setNewLoad form w
  | AddLoad uuid today => addLoad uuid today w
  | DeleteLoad id => deleteLoad id w
  end.

Definition run (actions : list Action) (w : State) : State :=
  List.fold_left step actions w.

(** *** Round trip of the unit converter

    Typing [val] into the grams field, then typing the grains text that
    appeared back into the grains field; the result is the grams text. *)
Definition gramsRoundTrip (val : string) (w : State) : string :=
  let w1 := handleGramsChange val w in
  convGrams (handleGrainsChange (convGrains w1) w1).

End App.

(** ** [AnalysisTab] of [src/App.tsx] *)

Module AnalysisTab.

Import App.
Local Open Scope string_scope.
Local Open Scope Z_scope.

(** What the external analysis request settles to: the promise is
    rejected (or building the request throws), or it is fulfilled with a
    response whose [text] may be undefined. *)
Inductive Settled : Type :=
| Rejected
| Fulfilled (text : option string).

(** The request handed to [ai.models.generateContent]. *)
Record Request : Type := {
  model : string;
  text : string;
  mimeType : string;
  data : option string;
  responseMimeType : string
}.

(** [s.split(',')[1]]: the text between the first and the second comma,
    undefined when [s] has no comma. *)
Fixpoint upto_comma (s : string) : string :=
  match s with
  | EmptyString => ""
  | String c r => if code c =? 44 then "" else String c (upto_comma r)
  end.

Fixpoint second_segment (s : string) : option string :=
  match s with
  | EmptyString => None
  | String c r => if code c =? 44 then Some (upto_comma r) else second_segment r
  end.

Definition errorMessage : string :=
  "Fehler bei der Analyse. Bitte versuche es erneut.".

(** The template literal of the prompt; [q] is the quotation mark. *)
Definition prompt (bulletDiameter expectedShots : string) : string :=
  let q := JSON.quote in
    "
        Analysiere dieses Trefferbild (Schussgruppe auf einer Zielscheibe).
        
        PARAMETER:
        - Geschossdurchmesser (Referenz): " ++ bulletDiameter ++ " mm
        - Erwartete Anzahl Schüsse: " ++ expectedShots ++ "
        
        AUFGABEN:
        1. Identifiziere alle Einschusslöcher (bis zu " ++ expectedShots ++ ").
        2. Nutze den Geschossdurchmesser (" ++ bulletDiameter ++ " mm) als primären Maßstab für die Berechnung.
        3. Berechne den Streukreis (Extreme Spread) in Millimetern (Mitte-zu-Mitte).
        4. Werte die Ringe der Zielscheibe aus. WICHTIG: Unterscheide zwischen der Innenzehn (" ++ q ++ "X" ++ q ++ ") und der normalen " ++ q ++ "10" ++ q ++ ".
        5. Bestimme für jeden Treffer, in welchem Ring er liegt. Treffer in der Innenzehn werden als " ++ q ++ "X" ++ q ++ " gewertet. Treffer in der Zehn, aber außerhalb der Innenzehn, werden als " ++ q ++ "10" ++ q ++ " gewertet.
        
        Gib das Ergebnis als JSON-Objekt zurück:
        {
          " ++ q ++ "groupSizeMm" ++ q ++ ": number,
          " ++ q ++ "numberOfHits" ++ q ++ ": number,
          " ++ q ++ "confidence" ++ q ++ ": number (0-1),
          " ++ q ++ "detectedHits" ++ q ++ ": [{ " ++ q ++ "x" ++ q ++ ": number, " ++ q ++ "y" ++ q ++ ": number, " ++ q ++ "ring" ++ q ++ ": " ++ q ++ "X" ++ q ++ "|number }],
          " ++ q ++ "referenceFound" ++ q ++ ": boolean,
          " ++ q ++ "rings" ++ q ++ ": { " ++ q ++ "X" ++ q ++ ": number, " ++ q ++ "10" ++ q ++ ": number, " ++ q ++ "9" ++ q ++ ": number, " ++ q ++ "8" ++ q ++ ": number, ... },
          " ++ q ++ "score" ++ q ++ ": number (Gesamtpunktzahl, wobei X = 10 Punkte zählt)
        }
      ".

(** The argument of [ai.models.generateContent]. *)
Definition request (image bulletDiameter expectedShots : string) : Request :=
  {| model := "gemini-3.1-pro-preview";
     text := prompt bulletDiameter expectedShots;
     mimeType := "image/jpeg";
     data := second_segment image;
     responseMimeType := "application/json" |}.

(** The external call fails: it throws, or the text of its response is not
    JSON. *)
Definition analysisFails (s : Settled) : bool :=
  match s with
  | Rejected => true
  | Fulfilled response =>
      match JSON.parse (str_or response "{}") with
      | JSON.SyntaxError => true
      | JSON.Parsed _ => false
      end
  end.

Section Analysis.

(** The external vision-analysis capability, a black box. *)
Variable generateContent : Request -> Settled.

(** [handleImageUpload] once the file reader has finished; [dataUrl] is
    [reader.result]. *)
Definition handleImageUpload (dataUrl : string) (w : State) : State :=
  setError None (setResult None
    {| costs := costs w; convGrains := convGrains w; convGrams := convGrams w;
       loads := loads w; newLoad := newLoad w; selectedImage := Some dataUrl;
       isAnalyzing := isAnalyzing w; result := result w; error := error w;
       bulletDiameter := bulletDiameter w; expectedShots := expectedShots w;
       localStorage := localStorage w |}).

(** [analyzeImage], from the click to the settlement of the request. *)
Definition analyzeImage (w : State) : State :=
  if present (selectedImage w) then
    let image := str_or (selectedImage w) "" in
    let w := setError None (setIsAnalyzing true w) in
    let w :=
      match generateContent (request image (bulletDiameter w) (expectedShots w)) with
      | Fulfilled response =>
          match JSON.parse (str_or response "{}") with
          | JSON.Parsed data => setResult (Some data) w
          | JSON.SyntaxError => setError (Some errorMessage) w
          end
      | Rejected => setError (Some errorMessage) w
      end in
    setIsAnalyzing false w
  else w.

End Analysis.

End AnalysisTab.

(** ** Decimal numerals

    The vocabulary in which the rendering and the scanning of digits are
    related. *)

Module Numerals.

Local Open Scope string_scope.
Local Open Scope Z_scope.

(** Every character is a decimal digit. *)
Fixpoint all_digits (s : string) : bool :=
  match s with
  | EmptyString => true
  | String c r => is_digit c && all_digits r
  end.

(** The number that the digits of [s] denote after the digits that
    already denote [acc]. *)
Fixpoint digits_val (s : string) (acc : Z) : Z :=
  match s with
  | EmptyString => acc
  | String c r => digits_val r (10 * acc + digit_val c)
  end.

(** [s] does not start with a digit. *)
Definition stops (s : string) : bool :=
  match s with
  | EmptyString => true
  | String c _ => negb (is_digit c)
  end.




End Numerals.

(** ** Sample data *)

Module Samples.

Import App.
Local Open Scope string_scope.

Definition sampleForm : PartialLoadRecord.t :=
  PartialLoadRecord.mk None (Some "Target Load") (Some ".308 Win")
    None None None None None.

Definition rec1 : LoadRecord.t :=
  LoadRecord.mk "a" "Target Load" ".308 Win" zero "N140" zero "CCI" "1.2.2026".
Definition rec2 : LoadRecord.t :=
  LoadRecord.mk "b" "Plinking" "9mm" zero "N320" zero "S&B" "2.2.2026".
Definition rec3 : LoadRecord.t :=
  LoadRecord.mk "c" "Hunting" "8x57" zero "N150" zero "RWS" "3.2.2026".

End Samples.

(** ** The rest of the page: buttons, form fields and what is displayed *)

Module Page.

Import App AnalysisTab.
Local Open Scope string_scope.

(** *** Cost tab *)

(** The button [Zurücksetzen]: [setCosts] of the literal default values. *)
Definition resetCosts (w : State) : State := setCosts initialCosts w.

(** The two totals of the result card, each [x.toFixed(2)]. *)
Definition shownTotal (w : State) : string :=
  toFixed (total (calculatedCosts (costs w))) 2.
Definition shownPer100 (w : State) : string :=
  toFixed (per100 (calculatedCosts (costs w))) 2.

(** The fields that [calculatedCosts] divides by and whose input falls
    back to 0. *)
Definition divisor (f : CostField) : bool :=
  match f with
  | powderWeight | primerCount | bulletCount | brassCount => true
  | _ => false
  end.

(** What the user can do on the cost tab: type into one of the ten
    inputs, or press [Zurücksetzen]. *)
Inductive CostAction : Type :=
| Edit (f : CostField) (value : string)
| Reset.

Definition costStep (w : State) (a : CostAction) : State :=
  match a with
  | Edit f value => onChange f value w
  | Reset => resetCosts w
  end.

Definition costRun (actions : list CostAction) (w : State) : State :=
  List.fold_left costStep actions w.

(** What the result card shows for an amount that is not finite. *)
Definition not_an_amount (s : string) : Prop :=
  s = "Infinity" \/ s = "-Infinity" \/ s = "NaN".

(** *** The cost in exact arithmetic *)

(** The formulas of [calculatedCosts] over the rationals, with 15432.3584
    grains to the kilogram. *)
Definition exactTotal (c : CostInputs.t) : Q :=
  (to_Q (CostInputs.powderPrice c) / to_Q (CostInputs.powderWeight c)
     / (154323584 # 10000) * to_Q (CostInputs.powderCharge c)
   + to_Q (CostInputs.primerPrice c) / to_Q (CostInputs.primerCount c)
   + to_Q (CostInputs.bulletPrice c) / to_Q (CostInputs.bulletCount c)
   + to_Q (CostInputs.brassPrice c) / to_Q (CostInputs.brassCount c)
       / to_Q (CostInputs.brassLife c))%Q.

(** A Number that is [+0] or positive and at most [hi], and one that is
    at least [lo]. *)
Definition at_most (x : number) (hi : Q) : Prop :=
  nonneg_finite x /\ (to_Q x <= hi)%Q.
Definition at_least (x : number) (lo : Q) : Prop :=
  nonneg_finite x /\ (lo <= to_Q x)%Q.

(** Inputs of a plausible size: prices up to 100000, a charge up to 1000
    grains, at least a gram of powder, at least one piece of each
    component and at least one use of the brass. *)
Definition plausible (c : CostInputs.t) : Prop :=
  at_most (CostInputs.powderPrice c) 100000
  /\ at_least (CostInputs.powderWeight c) (1 # 1000)
  /\ at_most (CostInputs.powderCharge c) 1000
  /\ at_most (CostInputs.primerPrice c) 100000
  /\ at_least (CostInputs.primerCount c) 1
  /\ at_most (CostInputs.bulletPrice c) 100000
  /\ at_least (CostInputs.bulletCount c) 1
  /\ at_most (CostInputs.brassPrice c) 100000
  /\ at_least (CostInputs.brassCount c) 1
  /\ at_least (CostInputs.brassLife c) 1.

(** *** Converter tab *)

(** Typing [val] into the grains field, then typing the grams text that
    appeared back into the grams field; the result is the grains text. *)
Definition grainsRoundTrip (val : string) (w : State) : string :=
  let w1 := handleGrainsChange val w in
  convGrains (handleGramsChange (convGrams w1) w1).

(** *** Load tab: the form *)

(** The text inputs and the number inputs of the form. *)
Inductive TextField : Type := name | caliber | powderType | primerType.
Inductive NumberField : Type := bulletWeight | powderCharge.

(** [{...newLoad, f: value}] for a text input. *)
Definition withText (n : PartialLoadRecord.t) (f : TextField) (value : string)
  : PartialLoadRecord.t :=
  let 'PartialLoadRecord.mk i nm c bw pt pc pr d := n in
  match f with
  | name => PartialLoadRecord.mk i (Some value) c bw pt pc pr d
  | caliber => PartialLoadRecord.mk i nm (Some value) bw pt pc pr d
  | powderType => PartialLoadRecord.mk i nm c bw (Some value) pc pr d
  | primerType => PartialLoadRecord.mk i nm c bw pt pc (Some value) d
  end.

(** [{...newLoad, f: x}] for a number input. *)
Definition withNumber (n : PartialLoadRecord.t) (f : NumberField) (x : number)
  : PartialLoadRecord.t :=
  let 'PartialLoadRecord.mk i nm c bw pt pc pr d := n in
  match f with
  | bulletWeight => PartialLoadRecord.mk i nm c (Some x) pt pc pr d
  | powderCharge => PartialLoadRecord.mk i nm c bw pt (Some x) pr d
  end.

(** [onChange] of a text input of the form. *)
Definition onTextChange (f : TextField) (value : string) (w : State) : State :=
  setNewLoad (withText (newLoad w) f value) w.

(** [onChange] of a number input of the form:
    [parseFloat(e.target.value) || 0]. *)
Definition onNumberChange (f : NumberField) (value : string) (w : State) : State :=
  setNewLoad (withNumber (newLoad w) f (or_default (parseFloat value) zero)) w.

(** [disabled={!newLoad.name || !newLoad.caliber}] of the button
    [Speichern]. *)
Definition saveDisabled (w : State) : bool :=
  negb (present (PartialLoadRecord.name (newLoad w)))
  || negb (present (PartialLoadRecord.caliber (newLoad w))).

(** The ids of a list, in order. *)
Definition ids (l : list LoadRecord.t) : list string := List.map LoadRecord.id l.

(** The uuids that a session hands to [addLoad], in order. *)
Fixpoint uuids (actions : list Action) : list string :=
  match actions with
  | [] => []
  | AddLoad uuid _ :: r => uuid :: uuids r
  | _ :: r => uuids r
  end.

(** A number as [addLoad] stores it: never NaN and never [-0], because of
    [|| 0]. *)
Definition stored_number (x : number) : Prop :=
  isNaN x = false /\ x <> S754_zero true.

(** *** Load tab: what is stored and read again *)

(** The Number is finite and [JSON.parse] reads it back from the text that
    [JSON.stringify] writes for it (here: before a comma, which is what
    follows a number in a stored record). *)
Definition reads_back (x : number) : bool :=
  isFinite x &&
  match JSON.parse_number (NumberToString x ++ ",") with
  | Some (y, r) => same_number y x && String.eqb r ","
  | None => false
  end.

Definition numbers_read_back (r : LoadRecord.t) : Prop :=
  reads_back (LoadRecord.bulletWeight r) = true
  /\ reads_back (LoadRecord.powderCharge r) = true.

(** A record with a quotation mark, a reverse solidus, a line feed and
    bytes above 127 in its texts. *)
Definition awkward : LoadRecord.t :=
  LoadRecord.mk "7f3c" ("6,5" ++ JSON.quote ++ " Jagd\Übung") ".308 Win"
    (of_decimal false 168 0)
    (String (JSON.byte 10) "N140 ") (of_decimal false 425 (-1))
    "CCI {BR2}" "1.2.2026".

(** *** Analysis tab *)

(** A data URL as a [FileReader] produces it. *)
Definition dataUrl (mime payload : string) : string :=
  "data:" ++ mime ++ ";base64," ++ payload.

(** No character of [s] is a comma. *)
Fixpoint comma_free (s : string) : bool :=
  match s with
  | EmptyString => true
  | String c r => negb (code c =? 44)%Z && comma_free r
  end.

(** What evaluating an expression of the result card gives: a text, or
    nothing because the card is not rendered, or a TypeError. *)
Inductive Rendered : Type :=
| Shown (text : string)
| NotRendered
| TypeError.

(** ToBoolean on a parsed value. *)
Definition value_truthy (v : JSON.value) : bool :=
  match v with
  | JSON.Null => false
  | JSON.Bool b => b
  | JSON.Number n => truthy n
  | JSON.Str s => nonempty s
  | JSON.Array _ | JSON.Object _ => true
  end.

Fixpoint own_property (k : string) (ps : list (string * JSON.value))
  : option JSON.value :=
  match ps with
  | [] => None
  | (k', v) :: r => if String.eqb k k' then Some v else own_property k r
  end.

(** [result && ... result.groupSizeMm.toFixed(1) ...]: the card is
    rendered when [result] is truthy; [groupSizeMm] is undefined unless
    [result] is an object with that property, and only a Number has
    [toFixed]. *)
Definition groupSizeText (result : option JSON.value) : Rendered :=
  match result with
  | None => NotRendered
  | Some v =>
      if value_truthy v then
        match v with
        | JSON.Object ps =>
            match own_property "groupSizeMm" ps with
            | Some (JSON.Number n) => Shown (toFixed n 1)
            | _ => TypeError
            end
        | _ => TypeError
        end
      else NotRendered
  end.

(** What the page keeps outside the analysis tab: the cost inputs, the
    converter fields, the load list with its form, and the storage. *)
Definition outside_analysis (w : State) :=
  (costs w, convGrains w, convGrams w, loads w, newLoad w, localStorage w).

End Page.

(** * Properties *)

(** ** Rendering and scanning decimal digits *)

Section Digits.

Import Numerals.
Local Open Scope string_scope.
Local Open Scope Z_scope.

Lemma append_cons (c : ascii) (a b : string) : String c a ++ b = String c (a ++ b).
Proof. reflexivity. Qed.

Lemma append_nil_l (b : string) : "" ++ b = b.
Proof. reflexivity. Qed.

Lemma append_assoc (a b c : string) : (a ++ b) ++ c = a ++ (b ++ c).
Proof.
  induction a as [|x a IH]; [reflexivity|].
  rewrite !append_cons. now rewrite IH.
Qed.

Lemma append_nil_r (a : string) : a ++ "" = a.
Proof.
  induction a as [|x a IH]; [reflexivity|]. rewrite append_cons. now rewrite IH.
Qed.

Lemma length_append (a b : string) :
  String.length (a ++ b) = (String.length a + String.length b)%nat.
Proof.
  induction a as [|x a IH]; [reflexivity|].
  rewrite append_cons. simpl. now rewrite IH.
Qed.

Lemma all_digits_app (a b : string) :
  all_digits (a ++ b) = all_digits a && all_digits b.
Proof.
  induction a as [|x a IH]; [reflexivity|].
  rewrite append_cons. simpl. rewrite IH. now rewrite andb_assoc.
Qed.

Lemma digits_val_app (a b : string) (acc : Z) :
  digits_val (a ++ b) acc = digits_val b (digits_val a acc).
Proof.
  revert acc. induction a as [|x a IH]; intros acc; [reflexivity|].
  rewrite append_cons. simpl. apply IH.
Qed.

Lemma scan_digits_app (a r : string) (acc n : Z) :
  all_digits a = true -> stops r = true ->
  scan_digits (a ++ r) acc n = (digits_val a acc, n + Z.of_nat (String.length a), r).
Proof.
  revert acc n. induction a as [|x a IH]; intros acc n Ha Hr.
  - rewrite append_nil_l. simpl. rewrite Z.add_0_r. destruct r as [|c r]; [reflexivity|].
    simpl in *. destruct (is_digit c); [discriminate | reflexivity].
  - simpl in Ha. apply andb_true_iff in Ha. destruct Ha as [Hx Ha].
    rewrite append_cons. cbn [scan_digits]. rewrite Hx. rewrite IH by assumption.
    cbn [digits_val String.length]. f_equal. f_equal. lia.
Qed.

Lemma digit_char_ok (d : Z) :
  0 <= d < 10 -> is_digit (digit_char d) = true /\ digit_val (digit_char d) = d.
Proof.
  intros H.
  assert (E : d = 0 \/ d = 1 \/ d = 2 \/ d = 3 \/ d = 4 \/ d = 5 \/ d = 6
              \/ d = 7 \/ d = 8 \/ d = 9) by lia.
  repeat (destruct E as [E|E]; [subst d; split; reflexivity|]).
  subst d; split; reflexivity.
Qed.

Lemma zeros_digits (k : nat) (acc : Z) :
  all_digits (zeros k) = true
  /\ String.length (zeros k) = k
  /\ digits_val (zeros k) acc = acc * 10 ^ Z.of_nat k.
Proof.
  revert acc. induction k as [|k IH]; intros acc.
  - simpl. repeat split. lia.
  - destruct (IH (10 * acc + 0)) as (H1 & H2 & H3).
    cbn [zeros all_digits String.length digits_val]. repeat split.
    + exact H1.
    + now rewrite H2.
    + change (digit_val "0") with 0. rewrite H3.
      rewrite Nat2Z.inj_succ, Z.pow_succ_r by lia. ring.
Qed.

(** The digits that [digits_aux] puts in front of [acc] denote [n]. *)
Lemma digits_aux_spec (fuel : nat) (n : Z) (acc : string) :
  (0 < fuel)%nat ->
  0 <= n < 2 ^ Z.of_nat fuel ->
  exists D,
    digits_aux fuel n acc = D ++ acc
    /\ all_digits D = true
    /\ (0 < String.length D)%nat
    /\ forall v, digits_val D v = v * 10 ^ Z.of_nat (String.length D) + n.
Proof.
  revert n acc. induction fuel as [|k IH]; intros n acc Hf Hn.
  - lia.
  - cbn [digits_aux].
    assert (Hm : 0 <= n mod 10 < 10) by (apply Z.mod_pos_bound; lia).
    destruct (digit_char_ok _ Hm) as [Hd Hv].
    destruct (n <? 10) eqn:E.
    + apply Z.ltb_lt in E. rewrite Z.mod_small in * by lia.
      exists (String (digit_char n) ""). rewrite append_cons, append_nil_l.
      cbn [all_digits digits_val String.length]. rewrite Hd, Hv.
      split; [reflexivity|]. split; [reflexivity|]. split; [lia|].
      intros v. change (Z.of_nat 1) with 1. lia.
    + apply Z.ltb_ge in E.
      assert (Hq : 0 <= n / 10 < 2 ^ Z.of_nat k).
      { split; [apply Z.div_pos; lia|].
        rewrite Nat2Z.inj_succ, Z.pow_succ_r in Hn by lia.
        apply Z.div_lt_upper_bound; lia. }
      assert (Hk : (0 < k)%nat).
      { destruct k; [|lia]. simpl in Hn. lia. }
      destruct (IH (n / 10) (String (digit_char (n mod 10)) acc) Hk Hq)
        as (D & HD & Hall & Hlen & Hval).
      exists (D ++ String (digit_char (n mod 10)) "").
      rewrite HD, append_assoc, append_cons, append_nil_l. split; [reflexivity|].
      rewrite all_digits_app, Hall. cbn [all_digits andb]. rewrite Hd.
      split; [reflexivity|].
      rewrite length_append. cbn [String.length]. split; [lia|].
      intros v. rewrite digits_val_app, Hval. cbn [digits_val]. rewrite Hv.
      replace (Z.of_nat (String.length D + 1)) with (Z.succ (Z.of_nat (String.length D))) by lia.
      rewrite Z.pow_succ_r by lia.
      pose proof (Z.div_mod n 10 ltac:(lia)). lia.
Qed.

Lemma decimal_digits_spec (n : Z) :
  0 <= n ->
  all_digits (decimal_digits n) = true
  /\ (0 < String.length (decimal_digits n))%nat
  /\ forall v, digits_val (decimal_digits n) v
               = v * 10 ^ Z.of_nat (String.length (decimal_digits n)) + n.
Proof.
  intros Hn. unfold decimal_digits.
  assert (Hb : 0 <= n < 2 ^ Z.of_nat (S (Z.to_nat (Z.log2 n)))).
  { split; [exact Hn|]. rewrite Nat2Z.inj_succ, Z2Nat.id by apply Z.log2_nonneg.
    destruct (Z.eq_dec n 0) as [->|Hz]; [reflexivity|].
    apply Z.log2_spec. lia. }
  destruct (digits_aux_spec _ n "" (Nat.lt_0_succ _) Hb) as (D & HD & Hall & Hlen & Hval).
  rewrite HD, append_nil_r. auto.
Qed.

Lemma take_drop (k : nat) (s : string) : JSString.take k s ++ JSString.drop k s = s.
Proof.
  revert s. induction k as [|k IH]; intros s; [reflexivity|].
  destruct s as [|c s]; [reflexivity|]. simpl. rewrite append_cons. now rewrite IH.
Qed.

Lemma length_take (k : nat) (s : string) :
  (k <= String.length s)%nat -> String.length (JSString.take k s) = k.
Proof.
  revert s. induction k as [|k IH]; intros s H; [reflexivity|].
  destruct s as [|c s]; simpl in *; [lia|]. rewrite IH; lia.
Qed.

Lemma is_digit_range (c : ascii) : is_digit c = true -> 48 <= code c <= 57.
Proof. unfold is_digit. intros H. apply andb_true_iff in H. lia. Qed.

(** A text that starts with a digit has no white space to trim, no sign,
    and is not [Infinity]. *)
Lemma digit_head_literal (c : ascii) (r : string) :
  is_digit c = true ->
  trim_start (String c r) = String c r
  /\ str_decimal_literal (String c r)
     = match scan_unsigned (String c r) with
       | Some (d, e) => Some (LitDecimal false d e)
       | None => None
       end.
Proof.
  intros Hc. pose proof (is_digit_range c Hc) as Hr.
  assert (Hcode : exists n, c = ascii_of_N n /\ (48 <= n <= 57)%N).
  { exists (N_of_ascii c). rewrite ascii_N_embedding. split; [reflexivity|].
    unfold code in Hr. lia. }
  destruct Hcode as (n & -> & Hn).
  assert (E : (n = 48 \/ n = 49 \/ n = 50 \/ n = 51 \/ n = 52 \/ n = 53 \/ n = 54
               \/ n = 55 \/ n = 56 \/ n = 57)%N) by lia.
  clear Hr Hn Hc.
  repeat (destruct E as [E|E];
          [subst n; destruct r as [|b [|c' r]]; split; reflexivity|]).
  subst n; destruct r as [|b [|c' r]]; split; reflexivity.
Qed.

(** The text that [toFixed] builds from the integer [n] and [f >= 1]
    fraction digits starts with a digit and scans as [n * 10^(-f)]. *)
Lemma fixed_digits_shape (n : Z) (f : nat) :
  0 <= n ->
  exists c r,
    fixed_digits n (S f) = String c r
    /\ is_digit c = true
    /\ scan_unsigned (String c r) = Some (n, - Z.of_nat (S f)).
Proof.
  intros Hn. unfold fixed_digits.
  destruct (decimal_digits_spec n Hn) as (Hall & Hlen & Hval).
  set (m := decimal_digits n) in *.
  set (m' := if (String.length m <=? S f)%nat then zeros (S f + 1 - String.length m) ++ m else m).
  assert (Hall' : all_digits m' = true).
  { unfold m'. destruct (String.length m <=? S f)%nat; [|exact Hall].
    rewrite all_digits_app, Hall. now rewrite (proj1 (zeros_digits _ 0)). }
  assert (Hlen' : (S f < String.length m')%nat).
  { unfold m'. destruct (String.length m <=? S f)%nat eqn:E.
    - apply Nat.leb_le in E. rewrite length_append.
      rewrite (proj1 (proj2 (zeros_digits _ 0))). lia.
    - apply Nat.leb_gt in E. exact E. }
  assert (Hval' : digits_val m' 0 = n).
  { unfold m'. destruct (String.length m <=? S f)%nat.
    - rewrite digits_val_app. rewrite (proj2 (proj2 (zeros_digits _ 0))).
      rewrite Hval. lia.
    - rewrite Hval. lia. }
  clearbody m'. clear Hall Hlen Hval. clearbody m. clear m.
  set (k := (String.length m' - S f)%nat).
  pose proof (take_drop k m') as Htd.
  set (a := JSString.take k m') in *. set (b := JSString.drop k m') in *.
  assert (Hla : String.length a = k) by (apply length_take; lia).
  assert (Hlb : String.length b = S f).
  { pose proof (length_append a b) as H. rewrite Htd in H. lia. }
  assert (Hab : all_digits a = true /\ all_digits b = true).
  { rewrite <- Htd, all_digits_app in Hall'. now apply andb_true_iff in Hall'. }
  destruct Hab as [Ha Hb].
  assert (Hscan : scan_unsigned (a ++ "." ++ b) = Some (n, - Z.of_nat (S f))).
  { unfold scan_unsigned.
    rewrite (scan_digits_app a ("." ++ b) 0 0 Ha eq_refl).
    rewrite append_cons, append_nil_l.
    replace b with (b ++ "") at 1 by apply append_nil_r.
    rewrite (scan_digits_app b "" _ 0 Hb eq_refl).
    assert (Hk : (0 < k)%nat) by (unfold k; lia).
    replace (0 <? 0 + Z.of_nat (String.length a)) with true
      by (symmetry; apply Z.ltb_lt; lia).
    cbn [orb scan_exponent]. f_equal. f_equal.
    - rewrite <- digits_val_app, Htd. exact Hval'.
    - lia. }
  destruct a as [|c a]; [simpl in Hla; unfold k in Hla; lia|].
  simpl in Ha. apply andb_true_iff in Ha. destruct Ha as [Hc Ha].
  rewrite append_cons in *.
  exists c, (a ++ "." ++ b). auto.
Qed.




(** Read back by [parseFloat], the text of [toFixed] for a non-negative
    Number is the Number nearest to [n * 10^(-f)]. *)
Lemma parseFloat_fixed_digits (n : Z) (f : nat) :
  0 <= n ->
  parseFloat (fixed_digits n (S f)) = of_decimal false n (- Z.of_nat (S f)).
Proof.
  intros Hn. destruct (fixed_digits_shape n f Hn) as (c & r & -> & Hc & Hs).
  destruct (digit_head_literal c r Hc) as [Ht Hl].
  unfold parseFloat. rewrite Ht, Hl, Hs. reflexivity.
Qed.

(** The mathematical value of a text of [toFixed], with its sign. *)
Lemma MV_fixed_digits (s : bool) (n : Z) (f : nat) :
  0 <= n ->
  MV ((if s then "-" else "") ++ fixed_digits n (S f))
  = Some (let v := (inject_Z n * pow10 (- Z.of_nat (S f)))%Q in
          if s then Qopp v else v).
Proof.
  intros Hn. destruct (fixed_digits_shape n f Hn) as (c & r & -> & Hc & Hs).
  destruct (digit_head_literal c r Hc) as [Ht Hl].
  destruct s.
  - rewrite append_cons, append_nil_l. unfold MV, str_decimal_literal.
    unfold str_decimal_literal in Hl.
    assert (Hi : starts_with "Infinity" (String c r) = false).
    { cbn [starts_with]. pose proof (is_digit_range c Hc) as Hr.
      replace (code "I" =? code c) with false; [reflexivity|].
      symmetry. apply Z.eqb_neq. change (code "I") with 73. lia. }
    rewrite Hi, Hs. reflexivity.
  - rewrite append_nil_l. unfold MV. rewrite Hl, Hs. reflexivity.
Qed.

End Digits.

(** ** The JSON parser consumes its input

    Every successful call of a parsing function leaves a strictly shorter
    rest, and succeeds again with any fuel that covers the characters it
    consumed; so the answer of [JSON.parse] does not depend on the fuel. *)

Section JsonFuel.

Import JSON.
Local Open Scope string_scope.

Abbreviation len := String.length.

Lemma skip_ws_length (s : string) : (len (skip_ws s) <= len s)%nat.
Proof.
  induction s as [|c s IH]; [reflexivity|]. cbn [skip_ws].
  destruct (is_ws c); cbn [String.length]; lia.
Qed.

(** The digits that [scan_digits] counts are the characters it consumes. *)
Lemma scan_digits_count (s : string) (acc n : Z) :
  (Z.of_nat (len s)
   = Z.of_nat (len (snd (scan_digits s acc n))) + (snd (fst (scan_digits s acc n)) - n))%Z
  /\ (n <= snd (fst (scan_digits s acc n)))%Z.
Proof.
  revert acc n. induction s as [|c s IH]; intros acc n.
  - cbn. lia.
  - cbn [scan_digits]. destruct (is_digit c).
    + destruct (IH (10 * acc + digit_val c)%Z (n + 1)%Z) as (H1 & H2).
      cbn [String.length]. lia.
    + cbn. lia.
Qed.

Lemma hex4_length (s : string) (u : Z) (r : string) :
  hex4 s = Some (u, r) -> len s = (len r + 4)%nat.
Proof.
  unfold hex4. destruct s as [|a [|b [|c [|d s]]]]; try discriminate.
  destruct (hex_val a), (hex_val b), (hex_val c), (hex_val d); try discriminate.
  intros H. injection H as _ <-. cbn [String.length]. lia.
Qed.

Lemma read_char_length (s : string) :
  match read_char s with
  | Close r | Char _ r => (len r < len s)%nat
  | Bad => True
  end.
Proof.
  unfold read_char. destruct s as [|c r]; [exact I|].
  destruct (code c =? 34)%Z; [cbn [String.length]; lia|].
  destruct (code c <? 32)%Z; [exact I|].
  destruct (code c =? 92)%Z; [|cbn [String.length]; lia].
  destruct r as [|e r']; [exact I|].
  repeat (match goal with
          | |- context [if ?b then _ else _] => destruct b
          end; [cbn [String.length]; lia|]).
  destruct (code e =? 117)%Z; [|exact I].
  destruct (hex4 r') as [[u r'']|] eqn:Hu; [|exact I].
  apply hex4_length in Hu.
  assert (Hdef : (len r'' < len (String c (String e r')))%nat)
    by (cbn [String.length]; lia).
  destruct ((55296 <=? u)%Z && (u <? 56320)%Z); [|exact Hdef].
  destruct r'' as [|b1 [|b2 r3]]; try exact Hdef.
  destruct ((code b1 =? 92)%Z && (code b2 =? 117)%Z); [|exact Hdef].
  destruct (hex4 r3) as [[lo r4]|] eqn:Hlo; [|exact Hdef].
  apply hex4_length in Hlo.
  destruct ((56320 <=? lo)%Z && (lo <? 57344)%Z); [|exact Hdef].
  cbn [String.length] in *. lia.
Qed.

Lemma parse_chars_fuel (f' : nat) (s acc str r : string) :
  parse_chars f' s acc = Some (str, r) ->
  (len r < len s)%nat
  /\ forall f, (len s - len r <= f)%nat -> parse_chars f s acc = Some (str, r).
Proof.
  revert s acc. induction f' as [|f' IH]; intros s acc H; [discriminate|].
  cbn [parse_chars] in H. pose proof (read_char_length s) as Hl.
  destruct (read_char s) as [r0|b r0|] eqn:E; [| |discriminate].
  - injection H as <- <-. split; [exact Hl|].
    intros [|f] Hf; [lia|]. cbn [parse_chars]. rewrite E. reflexivity.
  - destruct (IH _ _ H) as [H1 H2]. split; [lia|].
    intros [|f] Hf; [lia|]. cbn [parse_chars]. rewrite E. apply H2. lia.
Qed.

Lemma parse_string_length (s k r : string) :
  parse_string s = Some (k, r) -> (len r < len s)%nat.
Proof. unfold parse_string. intros H. apply (parse_chars_fuel _ _ _ _ _ H). Qed.

Lemma starts_with_length (p t : string) :
  starts_with p t = true -> (len p <= len t)%nat.
Proof.
  revert t. induction p as [|a p IH]; intros t H; [cbn; lia|].
  destruct t as [|b t]; [discriminate|]. cbn [starts_with] in H.
  apply andb_true_iff in H. destruct H as [_ H]. apply IH in H.
  cbn [String.length]. lia.
Qed.

Lemma drop_length (k : nat) (t : string) :
  (k <= len t)%nat -> len (JSString.drop k t) = (len t - k)%nat.
Proof.
  revert t. induction k as [|k IH]; intros t H; [cbn; lia|].
  destruct t as [|b t]; [cbn in H; lia|]. cbn [JSString.drop String.length] in *.
  apply IH. lia.
Qed.

Lemma literal_length (p : string) (v v' : value) (t r : string) :
  (0 < len p)%nat -> literal p v t = Some (v', r) -> (len r < len t)%nat.
Proof.
  unfold literal. intros Hp H. destruct (starts_with p t) eqn:E; [|discriminate].
  injection H as _ <-. apply starts_with_length in E.
  rewrite drop_length by lia. lia.
Qed.

Lemma parse_number_length (s : string) (x : number) (r : string) :
  parse_number s = Some (x, r) -> (len r < len s)%nat.
Proof.
  unfold parse_number.
  set (nb := match s with String "-" r0 => (true, r0) | _ => (false, s) end).
  assert (Hb : (len (snd nb) <= len s)%nat).
  { unfold nb. destruct s as [|c s0]; [cbn; lia|].
    destruct c as [[] [] [] [] [] [] [] []]; cbn; lia. }
  destruct nb as [neg body]. cbn [snd] in Hb.
  pose proof (scan_digits_count body 0 0) as [H1 H2].
  destruct (scan_digits body 0 0) as [[i ni] r1]. cbn [fst snd] in *.
  destruct (ni =? 0)%Z eqn:Eni; [discriminate|]. cbn [orb].
  apply Z.eqb_neq in Eni.
  destruct (_ && _); [discriminate|].
  assert (Hfrac : forall d nf r3,
             match r1 with
             | String "." r2 =>
                 let '(d, nf, r3) := scan_digits r2 i 0 in
                 if (nf =? 0)%Z then None else Some (d, nf, r3)
             | _ => Some (i, 0%Z, r1)
             end = Some (d, nf, r3) -> (len r3 <= len r1)%nat).
  { intros d nf r3. destruct r1 as [|c r2]; [intros H; injection H as _ _ <-; lia|].
    destruct c as [[] [] [] [] [] [] [] []];
      try (intros H; injection H as _ _ <-; lia).
    pose proof (scan_digits_count r2 i 0) as [H3 H4].
    destruct (scan_digits r2 i 0) as [[d' nf'] r3']. cbn [fst snd] in *.
    destruct (nf' =? 0)%Z; [discriminate|].
    intros H; injection H as _ _ <-. cbn [String.length]. lia. }
  destruct (match r1 with String "." r2 => _ | _ => _ end) as [[[d nf] r3]|];
    [|discriminate].
  specialize (Hfrac d nf r3 eq_refl).
  destruct r3 as [|c r4]; [intros H; injection H as _ <-; cbn in *; lia|].
  destruct (_ || _); [|intros H; injection H as _ <-; cbn in *; lia].
  set (sg := match r4 with
             | String "+" r0 => (false, r0)
             | String "-" r0 => (true, r0)
             | _ => (false, r4)
             end).
  assert (Hsg : (len (snd sg) <= len r4)%nat).
  { unfold sg. destruct r4 as [|c4 r5]; [cbn; lia|].
    destruct c4 as [[] [] [] [] [] [] [] []]; cbn; lia. }
  destruct sg as [eneg r5]. cbn [snd] in Hsg.
  pose proof (scan_digits_count r5 0 0) as [H5 H6].
  destruct (scan_digits r5 0 0) as [[ev ne] r6]. cbn [fst snd] in *.
  destruct (ne =? 0)%Z; [discriminate|].
  intros H; injection H as _ <-. cbn [String.length] in *. lia.
Qed.

Lemma parse_scalar_length (t : string) (v : value) (r : string) :
  parse_scalar t = Some (v, r) -> (len r < len t)%nat.
Proof.
  unfold parse_scalar. destruct t as [|c r0]; [discriminate|].
  destruct (code c =? 34)%Z.
  { destruct (parse_string r0) as [[str r']|] eqn:E; [|discriminate].
    intros H; injection H as _ <-. apply parse_string_length in E.
    cbn [String.length]. lia. }
  destruct (code c =? 116)%Z; [apply literal_length; cbn; lia|].
  destruct (code c =? 102)%Z; [apply literal_length; cbn; lia|].
  destruct (code c =? 110)%Z; [apply literal_length; cbn; lia|].
  destruct (parse_number (String c r0)) as [[x r']|] eqn:E; [|discriminate].
  intros H; injection H as _ <-. apply parse_number_length in E. exact E.
Qed.

Lemma parse_value_S (f : nat) (s : string) :
  parse_value (S f) s =
  match skip_ws s with
  | EmptyString => None
  | String c r as t =>
      if (code c =? 123)%Z then
        match skip_ws r with
        | String c' r' =>
            if (code c' =? 125)%Z then Some (Object [], r')
            else parse_members f r []
        | EmptyString => None
        end
      else if (code c =? 91)%Z then
        match skip_ws r with
        | String c' r' =>
            if (code c' =? 93)%Z then Some (Array [], r')
            else parse_elements f r []
        | EmptyString => None
        end
      else parse_scalar t
  end.
Proof. reflexivity. Qed.

Lemma parse_elements_S (f : nat) (s : string) (acc : list value) :
  parse_elements (S f) s acc =
  match parse_value f s with
  | Some (v, r) =>
      match skip_ws r with
      | String c r' =>
          if (code c =? 44)%Z then parse_elements f r' (acc ++ [v])
          else if (code c =? 93)%Z then Some (Array (acc ++ [v]), r')
          else None
      | EmptyString => None
      end
  | None => None
  end.
Proof. reflexivity. Qed.

Lemma parse_members_S (f : nat) (s : string) (acc : list (string * value)) :
  parse_members (S f) s acc =
  match skip_ws s with
  | String q r =>
      if (code q =? 34)%Z then
        match parse_string r with
        | Some (k, r1) =>
            match skip_ws r1 with
            | String c r2 =>
                if (code c =? 58)%Z then
                  match parse_value f r2 with
                  | Some (v, r3) =>
                      match skip_ws r3 with
                      | String c' r4 =>
                          if (code c' =? 44)%Z then parse_members f r4 (set_prop k v acc)
                          else if (code c' =? 125)%Z
                               then Some (Object (set_prop k v acc), r4)
                          else None
                      | EmptyString => None
                      end
                  | None => None
                  end
                else None
            | EmptyString => None
            end
        | None => None
        end
      else None
  | EmptyString => None
  end.
Proof. reflexivity. Qed.

Lemma parse_consumes (f' : nat) :
  consumes parse_value f'
  /\ (forall acc, consumes (fun f s => parse_elements f s acc) f')
  /\ (forall acc, consumes (fun f s => parse_members f s acc) f').
Proof.
  unfold consumes. induction f' as [|f' (IHv & IHe & IHm)].
  { repeat split; intros; discriminate. }
  split; [|split].
  - intros s v r H. rewrite parse_value_S in H.
    pose proof (skip_ws_length s) as Hs.
    destruct (skip_ws s) as [|c r0] eqn:Es; [discriminate|].
    cbn [String.length] in Hs.
    destruct (code c =? 123)%Z eqn:E1.
    { pose proof (skip_ws_length r0) as Hs0.
      destruct (skip_ws r0) as [|c' r'] eqn:Es0; [discriminate|].
      cbn [String.length] in Hs0.
      destruct (code c' =? 125)%Z eqn:E2.
      - injection H as <- <-. split; [lia|].
        intros [|f] Hf; [lia|]. now rewrite parse_value_S, Es, E1, Es0, E2.
      - destruct (IHm [] _ _ _ H) as [Hl Hf]. split; [lia|].
        intros [|f] Hle; [lia|]. rewrite parse_value_S, Es, E1, Es0, E2.
        apply Hf. lia. }
    destruct (code c =? 91)%Z eqn:E3.
    { pose proof (skip_ws_length r0) as Hs0.
      destruct (skip_ws r0) as [|c' r'] eqn:Es0; [discriminate|].
      cbn [String.length] in Hs0.
      destruct (code c' =? 93)%Z eqn:E2.
      - injection H as <- <-. split; [lia|].
        intros [|f] Hf; [lia|]. now rewrite parse_value_S, Es, E1, E3, Es0, E2.
      - destruct (IHe [] _ _ _ H) as [Hl Hf]. split; [lia|].
        intros [|f] Hle; [lia|]. rewrite parse_value_S, Es, E1, E3, Es0, E2.
        apply Hf. lia. }
    pose proof (parse_scalar_length _ _ _ H) as Hl. cbn [String.length] in Hl.
    split; [lia|].
    intros [|f] Hle; [lia|]. now rewrite parse_value_S, Es, E1, E3.
  - intros acc s v r H. rewrite parse_elements_S in H.
    destruct (parse_value f' s) as [[v1 r1]|] eqn:Ev; [|discriminate].
    destruct (IHv _ _ _ Ev) as [Hl1 Hf1].
    pose proof (skip_ws_length r1) as Hs1.
    destruct (skip_ws r1) as [|c r2] eqn:Es1; [discriminate|].
    cbn [String.length] in Hs1.
    destruct (code c =? 44)%Z eqn:E1.
    { destruct (IHe _ _ _ _ H) as [Hl Hf]. split; [lia|].
      intros [|f] Hle; [lia|]. rewrite parse_elements_S.
      rewrite (Hf1 f) by lia. rewrite Es1, E1. apply Hf. lia. }
    destruct (code c =? 93)%Z eqn:E2; [|discriminate].
    injection H as <- <-. split; [lia|].
    intros [|f] Hle; [lia|]. rewrite parse_elements_S.
    rewrite (Hf1 f) by lia. now rewrite Es1, E1, E2.
  - intros acc s v r H. rewrite parse_members_S in H.
    pose proof (skip_ws_length s) as Hs.
    destruct (skip_ws s) as [|q r0] eqn:Es; [discriminate|].
    cbn [String.length] in Hs.
    destruct (code q =? 34)%Z eqn:Eq; [|discriminate].
    destruct (parse_string r0) as [[k r1]|] eqn:Ek; [|discriminate].
    pose proof (parse_string_length _ _ _ Ek) as Hk.
    pose proof (skip_ws_length r1) as Hs1.
    destruct (skip_ws r1) as [|c r2] eqn:Es1; [discriminate|].
    cbn [String.length] in Hs1.
    destruct (code c =? 58)%Z eqn:Ec; [|discriminate].
    destruct (parse_value f' r2) as [[v1 r3]|] eqn:Ev; [|discriminate].
    destruct (IHv _ _ _ Ev) as [Hl1 Hf1].
    pose proof (skip_ws_length r3) as Hs3.
    destruct (skip_ws r3) as [|c' r4] eqn:Es3; [discriminate|].
    cbn [String.length] in Hs3.
    destruct (code c' =? 44)%Z eqn:E1.
    { destruct (IHm _ _ _ _ H) as [Hl Hf]. split; [lia|].
      intros [|f] Hle; [lia|]. rewrite parse_members_S, Es, Eq, Ek, Es1, Ec.
      rewrite (Hf1 f) by lia. rewrite Es3, E1. apply Hf. lia. }
    destruct (code c' =? 125)%Z eqn:E2; [|discriminate].
    injection H as <- <-. split; [lia|].
    intros [|f] Hle; [lia|]. rewrite parse_members_S, Es, Eq, Ek, Es1, Ec.
    rewrite (Hf1 f) by lia. now rewrite Es3, E1, E2.
Qed.

(** [JSON.parse] is total, and the length of the text is fuel enough: more
    fuel never changes the answer. *)
Theorem parse_fuel_independent (text : string) (f : nat) :
  (S (len text) <= f)%nat ->
  parse_value f text = parse_value (S (len text)) text.
Proof.
  intros Hf.
  destruct (parse_value f text) as [[v r]|] eqn:E1.
  - destruct (proj1 (parse_consumes f) _ _ _ E1) as [Hl H]. symmetry. apply H. lia.
  - destruct (parse_value (S (len text)) text) as [[v r]|] eqn:E2; [|reflexivity].
    destruct (proj1 (parse_consumes _) _ _ _ E2) as [Hl H].
    rewrite H in E1 by lia. discriminate.
Qed.

End JsonFuel.

(** ** The rounding of [toFixed] *)

Section ToFixed.

Local Open Scope string_scope.
Local Open Scope Z_scope.

Lemma pow2_pos (e : Z) : (0 < pow2 e)%Q.
Proof. apply Qpower_0_lt. reflexivity. Qed.

Lemma pow10_pos (e : Z) : (0 < pow10 e)%Q.
Proof. apply Qpower_0_lt. reflexivity. Qed.

Lemma pow2_add (a b : Z) : (pow2 (a + b) == pow2 a * pow2 b)%Q.
Proof. apply Qpower_plus. discriminate. Qed.

Lemma pow10_add (a b : Z) : (pow10 (a + b) == pow10 a * pow10 b)%Q.
Proof. apply Qpower_plus. discriminate. Qed.

Lemma pow2_Z (k : Z) : 0 <= k -> (pow2 k == inject_Z (2 ^ k))%Q.
Proof. intros H. unfold pow2. now rewrite (Zpower_Qpower 2 k H). Qed.

Lemma pow10_Z (k : Z) : 0 <= k -> (pow10 k == inject_Z (10 ^ k))%Q.
Proof. intros H. unfold pow10. now rewrite (Zpower_Qpower 10 k H). Qed.

Lemma pow2_le (a b : Z) : a <= b -> (pow2 a <= pow2 b)%Q.
Proof. intros H. apply Qpower_le_compat_l; [exact H | discriminate]. Qed.

Lemma pow2_cancel (k : Z) : (pow2 (- k) * pow2 k == 1)%Q.
Proof. rewrite <- pow2_add. now replace (- k + k) with 0 by lia. Qed.

Lemma pow10_cancel (k : Z) : (pow10 (- k) * pow10 k == 1)%Q.
Proof. rewrite <- pow10_add. now replace (- k + k) with 0 by lia. Qed.

Lemma inject_Z_pos (z : Z) : 0 < z -> (0 < inject_Z z)%Q.
Proof. intros H. unfold Qlt. simpl. lia. Qed.

(** [ratio_of m e] is [m * 2^e] as a fraction. *)
Lemma ratio_of_spec (m : positive) (e : Z) :
  0 < snd (ratio_of m e)
  /\ 0 < fst (ratio_of m e)
  /\ (inject_Z (fst (ratio_of m e))
      == inject_Z (Zpos m) * pow2 e * inject_Z (snd (ratio_of m e)))%Q.
Proof.
  unfold ratio_of. destruct e as [|k|k]; cbn [fst snd].
  - change (2 ^ 0) with 1. rewrite Z.mul_1_r.
    split; [lia|]. split; [lia|]. change (pow2 0) with 1%Q. ring.
  - split; [lia|]. split.
    + apply Z.mul_pos_pos; [lia|]. apply Z.pow_pos_nonneg; lia.
    + rewrite inject_Z_mult, pow2_Z by lia. ring.
  - split; [apply Z.pow_pos_nonneg; lia|]. split; [lia|].
    rewrite <- pow2_Z by lia.
    change (Zneg k) with (- Zpos k).
    rewrite <- Qmult_assoc, pow2_cancel. ring.
Qed.

(** Scaling an integer division to rationals: if [n] is [a / b] rounded
    half up, then [n * t] is within [t / 2] of [x], where [x = a / (b * T)]
    and [t = 1 / T]. *)
Lemma scaled_round (num den T n : Z) (x t : Q) :
  0 < den -> 0 < T ->
  (inject_Z T * t == 1)%Q ->
  (inject_Z num == x * inject_Z den)%Q ->
  n = (2 * num * T + den) / (2 * den) ->
  (Qabs (inject_Z n * t - x) <= (1 # 2) * t)%Q.
Proof.
  intros Hden HT Ht Hx Hn.
  pose proof (Z.div_mod (2 * num * T + den) (2 * den) ltac:(lia)) as Hdm.
  pose proof (Z.mod_pos_bound (2 * num * T + den) (2 * den) ltac:(lia)) as Hmod.
  rewrite <- Hn in Hdm.
  assert (H1 : - den <= 2 * den * n - 2 * num * T <= den) by lia.
  assert (HD : (0 < inject_Z den)%Q) by (apply inject_Z_pos, Hden).
  assert (HTq : (0 < inject_Z T)%Q) by (apply inject_Z_pos, HT).
  assert (Hpos : (0 < 2 * inject_Z den * inject_Z T)%Q).
  { apply Qmult_lt_0_compat; [apply Qmult_lt_0_compat; [reflexivity|exact HD]|exact HTq]. }
  assert (E : (2 * inject_Z den * inject_Z T * (inject_Z n * t - x)
               == inject_Z (2 * den * n - 2 * num * T))%Q).
  { unfold Z.sub. rewrite inject_Z_plus, inject_Z_opp, !inject_Z_mult, Hx.
    transitivity (2 * inject_Z den * inject_Z n * (inject_Z T * t)
                  - 2 * x * inject_Z den * inject_Z T)%Q; [ring|].
    rewrite Ht. change (inject_Z 2) with 2%Q. ring. }
  assert (E2 : (2 * inject_Z den * inject_Z T * ((1 # 2) * t) == inject_Z den)%Q).
  { transitivity (inject_Z den * (inject_Z T * t))%Q; [ring|]. rewrite Ht. ring. }
  apply Qabs_Qle_condition. split.
  - apply (Qmult_le_l _ _ _ Hpos).
    assert (E3 : (2 * inject_Z den * inject_Z T * - ((1 # 2) * t)
                  == - inject_Z den)%Q).
    { rewrite <- E2 at 2. ring. }
    rewrite E3, E. rewrite <- inject_Z_opp, <- Zle_Qle. lia.
  - apply (Qmult_le_l _ _ _ Hpos). rewrite E, E2. rewrite <- Zle_Qle. lia.
Qed.

(** The integer that [toFixed] prints is the magnitude scaled by [10^f]
    and rounded to the nearest integer. *)
Lemma nearest_scaled_bound (m : positive) (e : Z) (f : nat) :
  0 <= nearest_scaled m e f
  /\ (Qabs (inject_Z (nearest_scaled m e f) * pow10 (- Z.of_nat f)
            - inject_Z (Zpos m) * pow2 e)
      <= (1 # 2) * pow10 (- Z.of_nat f))%Q.
Proof.
  unfold nearest_scaled.
  destruct (ratio_of_spec m e) as (Hden & Hnum & Hq).
  destruct (ratio_of m e) as [num den]. cbn [fst snd] in *.
  assert (HT : 0 < 10 ^ Z.of_nat f) by (apply Z.pow_pos_nonneg; lia).
  split.
  - apply Z.div_pos; nia.
  - apply (scaled_round num den (10 ^ Z.of_nat f)); try assumption; try reflexivity.
    rewrite <- pow10_Z by lia. rewrite Qmult_comm. apply pow10_cancel.
Qed.

(** Below [10^21] in magnitude, [toFixed] prints that integer in fixed
    notation. *)
Lemma toFixed_finite (s : bool) (m : positive) (e : Z) (f : nat) :
  (inject_Z (Zpos m) * pow2 e < inject_Z (10 ^ 21))%Q ->
  toFixed (S754_finite s m e) f
  = (if s then "-" else "") ++ fixed_digits (nearest_scaled m e f) f.
Proof.
  intros Hlt. unfold toFixed.
  destruct (ratio_of_spec m e) as (Hden & Hnum & Hq).
  destruct (ratio_of m e) as [num den] eqn:Er. cbn [fst snd] in *.
  replace (10 ^ 21 * den <=? num) with false; [reflexivity|].
  symmetry. apply Z.leb_gt. rewrite Zlt_Qlt. rewrite Hq, inject_Z_mult.
  apply Qmult_lt_compat_r; [|exact Hlt].
  apply inject_Z_pos, Hden.
Qed.


End ToFixed.

(** ** Rounding in binary64 arithmetic

    The operations round to nearest; for the converter it is enough that
    they are within one unit in the last place. *)

Section Rounding.

Local Open Scope Z_scope.

Lemma shr_1_m (mrs : shr_record) :
  0 <= shr_m mrs -> shr_m (shr_1 mrs) = shr_m mrs / 2.
Proof.
  destruct mrs as [m r s]. cbn [shr_m]. intros Hm.
  destruct m as [|p|p]; [reflexivity| |lia].
  destruct p as [p|p|]; cbn [shr_1 shr_m].
  - rewrite Pos2Z.inj_xI. apply Z.div_unique with (r := 1); lia.
  - rewrite Pos2Z.inj_xO. apply Z.div_unique with (r := 0); lia.
  - reflexivity.
Qed.

Lemma iter_shr_1_m (p : positive) (mrs : shr_record) :
  0 <= shr_m mrs ->
  shr_m (SpecFloat.iter_pos shr_1 p mrs) = shr_m mrs / 2 ^ Zpos p.
Proof.
  revert mrs. induction p as [p IH|p IH|]; intros mrs Hm; cbn [SpecFloat.iter_pos].
  - assert (H1 : 0 <= shr_m (shr_1 mrs)) by (rewrite shr_1_m by lia; apply Z.div_pos; lia).
    assert (H2 : 0 <= shr_m (SpecFloat.iter_pos shr_1 p (shr_1 mrs)))
      by (rewrite IH by lia; apply Z.div_pos; [lia | apply Z.pow_pos_nonneg; lia]).
    rewrite IH by lia. rewrite IH by lia. rewrite shr_1_m by lia.
    assert (Hp : 0 < 2 ^ Zpos p) by (apply Z.pow_pos_nonneg; lia).
    rewrite !Z.div_div by lia. f_equal.
    replace (Zpos p~1) with (1 + Zpos p + Zpos p) by lia.
    rewrite !Z.pow_add_r by lia. change (2 ^ 1) with 2. ring.
  - assert (H2 : 0 <= shr_m (SpecFloat.iter_pos shr_1 p mrs))
      by (rewrite IH by lia; apply Z.div_pos; [lia | apply Z.pow_pos_nonneg; lia]).
    rewrite IH by lia. rewrite IH by lia.
    assert (Hp : 0 < 2 ^ Zpos p) by (apply Z.pow_pos_nonneg; lia).
    rewrite Z.div_div by lia. f_equal.
    replace (Zpos p~0) with (Zpos p + Zpos p) by lia.
    rewrite Z.pow_add_r by lia. ring.
  - apply shr_1_m, Hm.
Qed.

(** [shr] divides the mantissa by a power of two and raises the exponent
    by as much. *)
Lemma shr_spec (mrs : shr_record) (e n : Z) :
  0 <= shr_m mrs ->
  snd (shr mrs e n) = e + Z.max n 0
  /\ shr_m (fst (shr mrs e n)) = shr_m mrs / 2 ^ Z.max n 0.
Proof.
  intros Hm. unfold shr. destruct n as [|p|p]; cbn [fst snd].
  - rewrite Z.add_0_r. split; [reflexivity|]. now rewrite Z.div_1_r.
  - rewrite Z.max_l by lia. split; [reflexivity|]. apply iter_shr_1_m, Hm.
  - rewrite Z.max_r by lia. rewrite Z.add_0_r. split; [reflexivity|].
    now rewrite Z.div_1_r.
Qed.

Lemma shr_record_of_loc_m (m : Z) (l : location) :
  shr_m (shr_record_of_loc m l) = m.
Proof. destruct l as [|[ | | ]]; reflexivity. Qed.

Lemma round_nearest_even_cases (m : Z) (l : location) :
  round_nearest_even m l = m \/ round_nearest_even m l = m + 1.
Proof.
  destruct l as [|[ | | ]]; cbn [round_nearest_even]; auto.
  destruct (Z.even m); auto.
Qed.

Lemma digits2_size (p : positive) : digits2_pos p = Pos.size p.
Proof. induction p as [p IH|p IH|]; simpl; now rewrite ?IH. Qed.

(** The number of binary digits of a mantissa. *)
Lemma Zdigits2_bounds (p : positive) :
  2 ^ (Zdigits2 (Zpos p) - 1) <= Zpos p < 2 ^ Zdigits2 (Zpos p).
Proof.
  cbn [Zdigits2]. rewrite digits2_size.
  pose proof (Pos.size_gt p) as Hgt. pose proof (Pos.size_le p) as Hle.
  apply Pos2Z.pos_lt_pos in Hgt. apply Pos2Z.pos_le_pos in Hle.
  rewrite Pos2Z.inj_pow in Hgt, Hle. change (Zpos p~0) with (2 * Zpos p) in Hle.
  set (k := Zpos (Pos.size p)) in *.
  assert (Hk : 2 ^ k = 2 * 2 ^ (k - 1)).
  { rewrite <- Z.pow_succ_r by (unfold k; lia). f_equal. lia. }
  split; [lia | exact Hgt].
Qed.

Lemma Zdigits2_le (m D : Z) :
  0 <= D -> 0 <= m < 2 ^ D -> 0 <= Zdigits2 m <= D.
Proof.
  intros HD Hm. destruct m as [|p|p]; [cbn; lia| |lia].
  pose proof (Zdigits2_bounds p) as Hb. split; [cbn; lia|].
  destruct (Z_le_gt_dec (Zdigits2 (Zpos p)) D) as [H|H]; [exact H|].
  assert (2 ^ D <= 2 ^ (Zdigits2 (Zpos p) - 1)) by (apply Z.pow_le_mono_r; lia).
  lia.
Qed.

Lemma binary_round_aux_unfold (s : bool) (m e : Z) (l : location) :
  binary_round_aux prec emax s m e l =
  let p1 := shr_fexp prec emax m e l in
  let p2 := shr_fexp prec emax
              (round_nearest_even (shr_m (fst p1)) (loc_of_shr_record (fst p1)))
              (snd p1) loc_Exact in
  match shr_m (fst p2) with
  | Z0 => S754_zero s
  | Zpos p => if snd p2 <=? emax - prec then S754_finite s p (snd p2)
              else S754_infinity s
  | Zneg _ => S754_nan
  end.
Proof.
  unfold binary_round_aux. destruct (shr_fexp prec emax m e l) as [mrs' e'].
  cbn [fst snd]. cbv zeta.
  destruct (shr_fexp prec emax _ e' loc_Exact) as [mrs'' e'']. reflexivity.
Qed.

(** The integer core of [binary_round_aux]: a mantissa below [2^D] at
    exponent [e] comes out at an exponent [e + k] not above [B + 1], less
    than two units of that exponent away. *)
Lemma binary_round_aux_Z (m e : Z) (l : location) (D B : Z) :
  0 <= D -> 0 <= m < 2 ^ D ->
  e <= B -> fexp prec emax (D + e) <= B -> B + 1 <= emax - prec ->
  exists m2 k,
    0 <= m2 /\ 0 <= k /\ e + k <= B + 1
    /\ binary_round_aux prec emax false m e l
       = match m2 with
         | Z0 => S754_zero false
         | Zpos p => S754_finite false p (e + k)
         | Zneg _ => S754_nan
         end
    /\ m - 2 * 2 ^ k < m2 * 2 ^ k <= m + 2 ^ k.
Proof.
  intros HD Hm He HB Hmax.
  rewrite binary_round_aux_unfold. cbv zeta. unfold shr_fexp.
  pose proof (Zdigits2_le m D HD Hm) as Hd.
  set (n1 := fexp prec emax (Zdigits2 m + e) - e).
  destruct (shr_spec (shr_record_of_loc m l) e n1) as [Hs1 Hm1].
  { rewrite shr_record_of_loc_m. lia. }
  rewrite shr_record_of_loc_m in Hm1.
  set (p1 := shr (shr_record_of_loc m l) e n1) in *.
  set (k1 := Z.max n1 0) in *.
  assert (Hk1 : 0 <= k1) by (unfold k1; lia).
  assert (Ha : 0 < 2 ^ k1) by (apply Z.pow_pos_nonneg; lia).
  set (m' := shr_m (fst p1)) in *.
  assert (Hm' : 2 ^ k1 * m' <= m < 2 ^ k1 * (m' + 1)).
  { rewrite Hm1. pose proof (Z.div_mod m (2 ^ k1) ltac:(lia)).
    pose proof (Z.mod_pos_bound m (2 ^ k1) Ha). lia. }
  assert (Hm'0 : 0 <= m') by (rewrite Hm1; apply Z.div_pos; lia).
  set (m1 := round_nearest_even m' (loc_of_shr_record (fst p1))).
  assert (Hm1c : m' <= m1 <= m' + 1).
  { destruct (round_nearest_even_cases m' (loc_of_shr_record (fst p1))) as [E|E];
      fold m1 in E; lia. }
  rewrite Hs1.
  set (e1 := e + k1) in *.
  assert (He1 : e1 <= B).
  { unfold e1, k1, n1. unfold fexp, SpecFloat.emin, prec, emax in *. lia. }
  set (Dm := Z.max (D - k1) 0).
  assert (Hlt : m' < 2 ^ Dm).
  { unfold Dm. destruct (Z_le_gt_dec k1 D) as [H|H].
    - rewrite Z.max_l by lia. rewrite Hm1. apply Z.div_lt_upper_bound; [lia|].
      rewrite <- Z.pow_add_r by lia. replace (k1 + (D - k1)) with D by lia. lia.
    - rewrite Z.max_r by lia. rewrite Hm1. rewrite Z.div_small; [reflexivity|].
      assert (2 ^ D <= 2 ^ k1) by (apply Z.pow_le_mono_r; lia). lia. }
  assert (Hd1 : 0 <= Zdigits2 m1 <= Dm + 1).
  { apply Zdigits2_le; [unfold Dm; lia|]. split; [lia|].
    rewrite Z.pow_add_r by (unfold Dm; lia). change (2 ^ 1) with 2.
    assert (0 < 2 ^ Dm) by (apply Z.pow_pos_nonneg; unfold Dm; lia). lia. }
  set (n2 := fexp prec emax (Zdigits2 m1 + e1) - e1).
  destruct (shr_spec (shr_record_of_loc m1 loc_Exact) e1 n2) as [Hs2 Hm2].
  { rewrite shr_record_of_loc_m. lia. }
  rewrite shr_record_of_loc_m in Hm2.
  set (p2 := shr (shr_record_of_loc m1 loc_Exact) e1 n2) in *.
  set (k2 := Z.max n2 0) in *.
  assert (Hk2 : 0 <= k2) by (unfold k2; lia).
  assert (Hb : 0 < 2 ^ k2) by (apply Z.pow_pos_nonneg; lia).
  assert (He2 : e1 + k2 <= B + 1).
  { unfold k2, n2, e1, Dm in *. unfold fexp, SpecFloat.emin, prec, emax in *. lia. }
  set (m2 := shr_m (fst p2)) in *.
  assert (Hm2' : 2 ^ k2 * m2 <= m1 < 2 ^ k2 * (m2 + 1)).
  { rewrite Hm2. pose proof (Z.div_mod m1 (2 ^ k2) ltac:(lia)).
    pose proof (Z.mod_pos_bound m1 (2 ^ k2) Hb). lia. }
  assert (Hm20 : 0 <= m2) by (rewrite Hm2; apply Z.div_pos; lia).
  exists m2, (k1 + k2).
  split; [exact Hm20|]. split; [lia|]. split; [unfold e1 in He2; lia|].
  split.
  - rewrite Hs2. replace (e + (k1 + k2)) with (e1 + k2) by (unfold e1; lia).
    destruct m2 as [|q|q]; try reflexivity.
    replace (e1 + k2 <=? emax - prec) with true; [reflexivity|].
    symmetry. apply Z.leb_le. lia.
  - rewrite Z.pow_add_r by lia. nia.
Qed.

Lemma pow2_shift (e k : Z) : 0 <= k -> (pow2 (e + k) == pow2 e * inject_Z (2 ^ k))%Q.
Proof. intros Hk. rewrite pow2_add, (pow2_Z k Hk). reflexivity. Qed.

(** The same in rational terms: the result is [+0] or positive and
    within [4 * 2^B] of [m * 2^e]. *)
Lemma binary_round_aux_bound (m e : Z) (l : location) (D B : Z) :
  0 <= D -> 0 <= m < 2 ^ D ->
  e <= B -> fexp prec emax (D + e) <= B -> B + 1 <= emax - prec ->
  nonneg_finite (binary_round_aux prec emax false m e l)
  /\ (Qabs (to_Q (binary_round_aux prec emax false m e l) - inject_Z m * pow2 e)
      <= 4 * pow2 B)%Q.
Proof.
  intros HD Hm He HB Hmax.
  destruct (binary_round_aux_Z m e l D B HD Hm He HB Hmax)
    as (m2 & k & Hm2 & Hk & Hek & -> & Hv).
  assert (Hval : (to_Q (match m2 with
                        | Z0 => S754_zero false
                        | Zpos p => S754_finite false p (e + k)
                        | Zneg _ => S754_nan
                        end) == inject_Z (m2 * 2 ^ k) * pow2 e)%Q).
  { destruct m2 as [|q|q]; [| |lia].
    - cbn [to_Q]. rewrite Z.mul_0_l. change (inject_Z 0) with 0%Q. ring.
    - cbn [to_Q]. rewrite (pow2_shift e k Hk), inject_Z_mult. ring. }
  split.
  - destruct m2 as [|q|q]; [left; reflexivity | right; eauto | lia].
  - rewrite Hval.
    assert (E : (inject_Z (m2 * 2 ^ k) * pow2 e - inject_Z m * pow2 e
                 == inject_Z (m2 * 2 ^ k - m) * pow2 e)%Q).
    { unfold Z.sub. rewrite inject_Z_plus, inject_Z_opp. ring. }
    rewrite E. rewrite Qabs_Qmult.
    rewrite (Qabs_pos (pow2 e)) by (apply Qlt_le_weak, pow2_pos).
    assert (Hle : (Qabs (inject_Z (m2 * 2 ^ k - m)) <= inject_Z (2 * 2 ^ k))%Q).
    { apply Qabs_Qle_condition. rewrite <- inject_Z_opp, <- !Zle_Qle. lia. }
    apply Qle_trans with (inject_Z (2 * 2 ^ k) * pow2 e)%Q.
    { apply Qmult_le_compat_r; [exact Hle | apply Qlt_le_weak, pow2_pos]. }
    rewrite inject_Z_mult.
    assert (E2 : (inject_Z 2 * inject_Z (2 ^ k) * pow2 e == 2 * pow2 (e + k))%Q).
    { rewrite (pow2_shift e k Hk). change (inject_Z 2) with 2%Q. ring. }
    rewrite E2.
    apply Qle_trans with (2 * pow2 (B + 1))%Q.
    { apply Qmult_le_l; [reflexivity | apply pow2_le; lia]. }
    rewrite pow2_add. change (pow2 1) with 2%Q.
    assert (E3 : (2 * (pow2 B * 2) == 4 * pow2 B)%Q) by ring.
    rewrite E3. apply Qle_refl.
Qed.

(** The exponent of a value bounds the digits of its mantissa. *)
Lemma digits_of_value (m : positive) (e E : Z) :
  (inject_Z (Zpos m) * pow2 e < pow2 E)%Q -> Zdigits2 (Zpos m) + e <= E.
Proof.
  intros H. pose proof (Zdigits2_bounds m) as [Hlo _].
  set (d := Zdigits2 (Zpos m)) in *.
  assert (Hd : 0 <= d - 1) by (unfold d; cbn; lia).
  assert (Hlt : (pow2 (d - 1 + e) < pow2 E)%Q).
  { eapply Qle_lt_trans; [|exact H]. rewrite pow2_add, (pow2_Z (d - 1) Hd).
    apply Qmult_le_compat_r; [|apply Qlt_le_weak, pow2_pos].
    rewrite <- Zle_Qle. exact Hlo. }
  apply Qpower_lt_compat_l_inv in Hlt; [lia | reflexivity].
Qed.

Lemma fexp_mono (a b : Z) : a <= b -> fexp prec emax a <= fexp prec emax b.
Proof. unfold fexp, SpecFloat.emin, prec, emax. lia. Qed.

(** [x * y] for positive Numbers: finite and within [4 * 2^(fexp E)] of
    the product, when the product is below [2^E]. *)
Lemma mul_bound (mx my : positive) (ex ey E : Z) :
  Zdigits2 (Zpos mx) + ex + (Zdigits2 (Zpos my) + ey) <= E ->
  ex + ey <= fexp prec emax E ->
  fexp prec emax E + 1 <= emax - prec ->
  let r := mul (S754_finite false mx ex) (S754_finite false my ey) in
  nonneg_finite r
  /\ (Qabs (to_Q r - to_Q (S754_finite false mx ex) * to_Q (S754_finite false my ey))
      <= 4 * pow2 (fexp prec emax E))%Q.
Proof.
  intros HE He Hmax. cbv zeta. unfold mul. cbn [SFmul xorb to_Q].
  pose proof (Zdigits2_bounds mx) as [_ Hx]. pose proof (Zdigits2_bounds my) as [_ Hy].
  set (dx := Zdigits2 (Zpos mx)) in *. set (dy := Zdigits2 (Zpos my)) in *.
  assert (Hdx : 0 <= dx) by (unfold dx; cbn; lia).
  assert (Hdy : 0 <= dy) by (unfold dy; cbn; lia).
  destruct (binary_round_aux_bound (Zpos (mx * my)) (ex + ey) loc_Exact
              (dx + dy) (fexp prec emax E)) as [Hn Hb]; try assumption; try lia.
  - rewrite Z.pow_add_r by lia. rewrite Pos2Z.inj_mul. split; [lia|].
    apply Z.mul_lt_mono_nonneg; lia.
  - apply fexp_mono. lia.
  - split; [exact Hn|].
    assert (E1 : (inject_Z (Zpos mx) * pow2 ex * (inject_Z (Zpos my) * pow2 ey)
                  == inject_Z (Zpos (mx * my)) * pow2 (ex + ey))%Q).
    { rewrite Pos2Z.inj_mul, inject_Z_mult, pow2_add. ring. }
    rewrite E1. exact Hb.
Qed.

(** The quotient and exponent that [SFdiv] hands to the rounding. *)
Lemma div_core_spec (m1 m2 : positive) (e1 e2 : Z) :
  exists q e' l s,
    SFdiv_core_binary prec emax (Zpos m1) e1 (Zpos m2) e2 = (q, e', l)
    /\ 0 <= s /\ e1 = s + e' + e2
    /\ e' <= fexp prec emax (Zdigits2 (Zpos m1) + e1 - (Zdigits2 (Zpos m2) + e2))
    /\ 0 <= q
    /\ q * Zpos m2 <= Zpos m1 * 2 ^ s < (q + 1) * Zpos m2.
Proof.
  unfold SFdiv_core_binary.
  set (X := fexp prec emax (Zdigits2 (Zpos m1) + e1 - (Zdigits2 (Zpos m2) + e2))).
  set (e' := Z.min X (e1 - e2)).
  set (s := e1 - e2 - e').
  assert (Hs : 0 <= s) by (unfold s, e'; lia).
  set (m' := match s with Zpos _ => Z.shiftl (Zpos m1) s | Z0 => Zpos m1 | Zneg _ => 0 end).
  assert (Hm' : m' = Zpos m1 * 2 ^ s).
  { unfold m'. destruct s as [|p|p]; [|apply Z.shiftl_mul_pow2|]; lia. }
  pose proof (Z_div_mod m' (Zpos m2) ltac:(lia)) as Hdiv.
  destruct (Z.div_eucl m' (Zpos m2)) as [q r].
  exists q, e', (new_location (Zpos m2) r), s.
  split; [reflexivity|]. split; [exact Hs|]. split; [unfold s; lia|].
  split; [unfold e'; lia|]. rewrite <- Hm'.
  assert (0 <= m') by (rewrite Hm'; apply Z.mul_nonneg_nonneg; [lia|apply Z.pow_nonneg; lia]).
  split; nia.
Qed.

(** [x / y] for positive Numbers: finite and within [5 * 2^(fexp E)] of
    the quotient [v], when the quotient is below [2^(E - 1)]. *)
Lemma div_bound (m1 m2 : positive) (e1 e2 E : Z) (v : Q) :
  Zdigits2 (Zpos m1) + e1 - (Zdigits2 (Zpos m2) + e2) + 1 <= E ->
  fexp prec emax E + 1 <= emax - prec ->
  (v * to_Q (S754_finite false m2 e2) == to_Q (S754_finite false m1 e1))%Q ->
  let r := div (S754_finite false m1 e1) (S754_finite false m2 e2) in
  nonneg_finite r
  /\ (Qabs (to_Q r - v) <= 5 * pow2 (fexp prec emax E))%Q.
Proof.
  intros HE Hmax Hv. cbv zeta. unfold div. cbn [SFdiv xorb]. cbn [to_Q] in Hv.
  destruct (div_core_spec m1 m2 e1 e2) as (q & e' & l & s & -> & Hs & He1 & He' & Hq & Hqr).
  pose proof (Zdigits2_bounds m1) as [_ H1]. pose proof (Zdigits2_bounds m2) as [H2 _].
  set (d1 := Zdigits2 (Zpos m1)) in *. set (d2 := Zdigits2 (Zpos m2)) in *.
  assert (Hd1 : 0 <= d1) by (unfold d1; cbn; lia).
  assert (Hd2 : 0 <= d2 - 1) by (unfold d2; cbn; lia).
  set (B := fexp prec emax E) in *.
  set (D := Z.max (d1 + s - d2 + 1) 0).
  assert (HqD : q < 2 ^ D).
  { assert (Hp2 : 0 < 2 ^ (d2 - 1)) by (apply Z.pow_pos_nonneg; lia).
    assert (Hps : 0 < 2 ^ s) by (apply Z.pow_pos_nonneg; lia).
    assert (Hlt : q * 2 ^ (d2 - 1) < 2 ^ (d1 + s)).
    { rewrite Z.pow_add_r by lia. nia. }
    unfold D. destruct (Z_le_gt_dec 0 (d1 + s - d2 + 1)) as [H|H].
    - rewrite Z.max_l by lia.
      replace (d1 + s) with ((d1 + s - d2 + 1) + (d2 - 1)) in Hlt by lia.
      rewrite Z.pow_add_r in Hlt by lia. nia.
    - rewrite Z.max_r by lia. change (2 ^ 0) with 1.
      assert (2 ^ (d1 + s) <= 2 ^ (d2 - 1)) by (apply Z.pow_le_mono_r; lia).
      nia. }
  assert (HeB : e' <= B).
  { eapply Z.le_trans; [exact He'|]. apply fexp_mono. lia. }
  assert (HfB : fexp prec emax (D + e') <= B).
  { unfold D, B in *. unfold fexp, SpecFloat.emin, prec, emax in *. lia. }
  destruct (binary_round_aux_bound q e' l D B ltac:(unfold D; lia)
              (conj Hq HqD) HeB HfB Hmax) as [Hn Hb].
  split; [exact Hn|].
  (* the quotient lies between q and q + 1 units of 2^e' *)
  set (Y := (inject_Z (Zpos m2) * pow2 e2)%Q) in *.
  assert (HY : (0 < Y)%Q) by (apply Qmult_lt_0_compat; [reflexivity|apply pow2_pos]).
  assert (Hbr : (inject_Z q * pow2 e' <= v /\ v <= inject_Z (q + 1) * pow2 e')%Q).
  { assert (Ex : (inject_Z (Zpos m1) * pow2 e1
                  == inject_Z (Zpos m1 * 2 ^ s) * pow2 (e' + e2))%Q).
    { rewrite He1. replace (s + e' + e2) with ((e' + e2) + s) by lia.
      rewrite (pow2_shift (e' + e2) s Hs), inject_Z_mult. ring. }
    assert (Ez : forall z, (inject_Z z * pow2 e' * Y
                            == inject_Z (z * Zpos m2) * pow2 (e' + e2))%Q).
    { intros z. unfold Y. rewrite inject_Z_mult, pow2_add. ring. }
    assert (Hp : (0 < pow2 (e' + e2))%Q) by apply pow2_pos.
    split.
    - apply (Qmult_le_r _ _ Y HY). rewrite Hv, Ex, Ez.
      apply Qmult_le_compat_r; [|apply Qlt_le_weak, Hp]. rewrite <- Zle_Qle. lia.
    - apply (Qmult_le_r _ _ Y HY). rewrite Hv, Ex, Ez.
      apply Qmult_le_compat_r; [|apply Qlt_le_weak, Hp]. rewrite <- Zle_Qle. lia. }
  destruct Hbr as [Hlo Hhi].
  assert (Hpe : (pow2 e' <= pow2 B)%Q) by (apply pow2_le, HeB).
  assert (Hq1 : (inject_Z (q + 1) * pow2 e' == inject_Z q * pow2 e' + pow2 e')%Q).
  { rewrite inject_Z_plus. change (inject_Z 1) with 1%Q. ring. }
  rewrite Hq1 in Hhi.
  apply Qabs_Qle_condition in Hb. apply Qabs_Qle_condition.
  pose proof (pow2_pos B). pose proof (pow2_pos e').
  split; lra.
Qed.

End Rounding.



(** ** Cost engine *)

Section CostEngine.

Import App.

(** C1. For every CostInputs value the breakdown satisfies
    powder = ((powderPrice / powderWeight) / 15432.3584) * powderCharge,
    primer = primerPrice / primerCount, bullet = bulletPrice / bulletCount,
    brass = (brassPrice / brassCount) / brassLife,
    total = powder + primer + bullet + brass and per100 = total * 100,
    exactly: each side is the same binary64 value, with the operators of
    the language and the literals 15432.3584 and 100 read as Numbers. *)
Theorem calculatedCosts_formulas (c : CostInputs.t) :
  let r := calculatedCosts c in
  powder r =
    mul (div (div (CostInputs.powderPrice c) (CostInputs.powderWeight c))
             (parseFloat "15432.3584"))
        (CostInputs.powderCharge c)
  /\ primer r = div (CostInputs.primerPrice c) (CostInputs.primerCount c)
  /\ bullet r = div (CostInputs.bulletPrice c) (CostInputs.bulletCount c)
  /\ brass r =
       div (div (CostInputs.brassPrice c) (CostInputs.brassCount c))
           (CostInputs.brassLife c)
  /\ total r = add (add (add (powder r) (primer r)) (bullet r)) (brass r)
  /\ per100 r = mul (total r) (parseFloat "100").
Proof.
  assert (Hk : parseFloat "15432.3584" = GRAINS_PER_KG) by (vm_compute; reflexivity).
  assert (Hh : parseFloat "100" = hundred) by (vm_compute; reflexivity).
  rewrite Hk, Hh. cbv zeta. unfold calculatedCosts. simpl. repeat split.
Qed.

(** The example of the specification: the default inputs cost 0.8263 per
    shot and 82.63 per hundred, as displayed. *)
Example calculatedCosts_default :
  toFixed (total (calculatedCosts initialCosts)) 4 = "0.8263"%string
  /\ toFixed (per100 (calculatedCosts initialCosts)) 2 = "82.63"%string.
Proof. split; vm_compute; reflexivity. Qed.

(** An input that [parseFloat] cannot read makes the left operand of [||]
    falsy, so the field takes the right operand. *)
Lemma or_default_NaN (x d : number) : isNaN x = true -> or_default x d = d.
Proof. intros H; destruct x; try discriminate H; reflexivity. Qed.

Lemma get_spread_same (c : CostInputs.t) (f : CostField) (x : number) :
  get f (spread c f x) = x.
Proof. destruct c, f; reflexivity. Qed.

Lemma get_spread_other (c : CostInputs.t) (f g : CostField) (x : number) :
  f <> g -> get g (spread c f x) = get g c.
Proof. destruct c, f, g; intros H; try reflexivity; congruence. Qed.

(** C2, as stated, fails: the brassLife input falls back to 1, not 0.  The
    empty string does not parse as a finite number, and the brass life it
    leaves in the CostInputs value is 1. *)
Lemma onChange_brassLife_falls_back_to_one :
  ~ (forall (f : CostField) (s : string) (w : State),
        isFinite (parseFloat s) = false ->
        get f (costs (onChange f s w)) = zero).
Proof.
  intros H.
  specialize (H brassLife ""%string (initial ∅) eq_refl).
  vm_compute in H. discriminate H.
Qed.

(** C2, amended.  An input string that [parseFloat] does not read as a
    number (the result is NaN: empty or non-numeric text) is treated as 0
    in the fields powderPrice, powderWeight, powderCharge, primerPrice,
    primerCount, bulletPrice, bulletCount, brassPrice and brassCount, and
    as 1 in the field brassLife; the other nine fields keep their values. *)
Theorem onChange_unparsable (f : CostField) (s : string) (w : State) :
  isNaN (parseFloat s) = true ->
  get f (costs (onChange f s w)) =
    (match f with brassLife => parseFloat "1" | _ => parseFloat "0" end)
  /\ (forall g, g <> f -> get g (costs (onChange f s w)) = get g (costs w)).
Proof.
  intros Hnan. unfold onChange. simpl.
  rewrite (or_default_NaN _ _ Hnan). split.
  - rewrite get_spread_same. destruct f; reflexivity.
  - intros g Hg. apply get_spread_other. congruence.
Qed.

Lemma onChange_unparsable_witness :
  get brassCount (costs (onChange brassCount "abc" (initial ∅))) = parseFloat "0"
  /\ get brassLife (costs (onChange brassLife "" (initial ∅))) = parseFloat "1".
Proof.
  split.
  - exact (proj1 (onChange_unparsable brassCount "abc" (initial ∅) eq_refl)).
  - exact (proj1 (onChange_unparsable brassLife "" (initial ∅) eq_refl)).
Defined.

End CostEngine.

(** ** Unit converter: input that does not parse *)

Section Converter.

Import App.

(** C6. When the input does not parse as a number, the edited field takes
    the raw input and the other field keeps its value, for either field. *)
Theorem converter_unparsable_keeps_other (val : string) (w : State) :
  isNaN (parseFloat val) = true ->
  (convGrains (handleGrainsChange val w) = val
   /\ convGrams (handleGrainsChange val w) = convGrams w)
  /\ (convGrams (handleGramsChange val w) = val
      /\ convGrains (handleGramsChange val w) = convGrains w).
Proof.
  intros H. unfold handleGrainsChange, handleGramsChange.
  rewrite H. simpl. repeat split.
Qed.

Lemma converter_unparsable_keeps_other_witness :
  convGrains (handleGrainsChange "abc" (initial ∅)) = "abc"%string
  /\ convGrams (handleGrainsChange "abc" (initial ∅)) = "1.00"%string.
Proof.
  exact (proj1 (converter_unparsable_keeps_other "abc" (initial ∅) eq_refl)).
Defined.

End Converter.

(** ** Unit converter: rounding and round trip *)

Section ConverterRounding.

Import App.
Local Open Scope string_scope.
Local Open Scope Z_scope.




(** *** The round trip grams, grains, grams *)

Lemma nonneg_finite_to_Q (r : number) : nonneg_finite r -> (0 <= to_Q r)%Q.
Proof.
  intros [->|(m & e & ->)]; cbn [to_Q]; [apply Qle_refl|].
  apply Qlt_le_weak, Qmult_lt_0_compat; [reflexivity | apply pow2_pos].
Qed.

Lemma nonneg_finite_not_NaN (r : number) : nonneg_finite r -> isNaN r = false.
Proof. intros [->|(m & e & ->)]; reflexivity. Qed.

(** [toFixed] on a Number that is [+0] or positive and below [10^21]. *)
Lemma toFixed_nonneg (r : number) (f : nat) :
  nonneg_finite r ->
  (to_Q r < inject_Z (10 ^ 21))%Q ->
  exists n,
    0 <= n
    /\ toFixed r (S f) = fixed_digits n (S f)
    /\ (Qabs (inject_Z n * pow10 (- Z.of_nat (S f)) - to_Q r)
        <= (1 # 2) * pow10 (- Z.of_nat (S f)))%Q.
Proof.
  intros [->|(m & e & ->)] Hlt.
  - exists 0. split; [lia|]. split; [reflexivity|]. cbn [to_Q].
    assert (E : (inject_Z 0 * pow10 (- Z.of_nat (S f)) - 0 == 0)%Q) by ring.
    rewrite E. simpl Qabs.
    apply Qmult_le_0_compat; [discriminate | apply Qlt_le_weak, pow10_pos].
  - cbn [to_Q] in Hlt. exists (nearest_scaled m e (S f)).
    destruct (nearest_scaled_bound m e (S f)) as [Hn Hb].
    split; [exact Hn|]. split; [|exact Hb].
    rewrite (toFixed_finite false m e (S f) Hlt). apply append_nil_l.
Qed.

(** Grams to grains: the product with the constant, for at most [10^9]
    grams. *)
Lemma mul_K_bound (m : positive) (e : Z) :
  (inject_Z (Zpos m) * pow2 e <= 1000000000)%Q ->
  nonneg_finite (mul (S754_finite false m e) GRAINS_PER_GRAM)
  /\ (Qabs (to_Q (mul (S754_finite false m e) GRAINS_PER_GRAM)
            - inject_Z (Zpos m) * pow2 e * to_Q GRAINS_PER_GRAM)
      <= 4 * pow2 (-19))%Q.
Proof.
  intros Hle.
  assert (Hlt : (inject_Z (Zpos m) * pow2 e < pow2 30)%Q).
  { eapply Qle_lt_trans; [exact Hle|]. reflexivity. }
  pose proof (digits_of_value m e 30 Hlt) as Hd.
  assert (H1 : 1 <= Zdigits2 (Zpos m)) by (cbn; lia).
  unfold GRAINS_PER_GRAM.
  apply (mul_bound m 8687645442460993 e (-49) 34).
  - change (Zdigits2 (Zpos 8687645442460993)) with 53. lia.
  - change (fexp prec emax 34) with (-19). lia.
  - change (fexp prec emax 34) with (-19). unfold emax, prec. lia.
Qed.

(** Reading the grains text back: [n / 100] as a Number. *)
Lemma of_decimal_2_bound (n : Z) :
  0 <= n < 2 ^ 41 ->
  nonneg_finite (of_decimal false n (-2))
  /\ (Qabs (to_Q (of_decimal false n (-2)) - inject_Z n * (1 # 100))
      <= 5 * pow2 (-18))%Q.
Proof.
  intros Hn. destruct n as [|d|d]; [| |lia].
  - split; [left; reflexivity|]. vm_compute. discriminate.
  - pose proof (Zdigits2_le (Zpos d) 41 ltac:(lia) Hn) as Hd.
    change (of_decimal false (Zpos d) (-2))
      with (div (S754_finite false d 0) (S754_finite false 100 0)).
    apply (div_bound d 100 0 0 35).
    + change (Zdigits2 (Zpos 100)) with 7. lia.
    + change (fexp prec emax 35) with (-18). unfold emax, prec. lia.
    + cbn [to_Q]. change (pow2 0) with 1%Q. 
      assert (E : (inject_Z 100 == 100)%Q) by reflexivity. rewrite E. field.
Qed.

(** Grains to grams: the quotient by the constant. *)
Lemma div_K_bound (n : number) :
  nonneg_finite n ->
  (to_Q n < pow2 35)%Q ->
  nonneg_finite (div n GRAINS_PER_GRAM)
  /\ (Qabs (to_Q (div n GRAINS_PER_GRAM) - to_Q n / to_Q GRAINS_PER_GRAM)
      <= 5 * pow2 (-21))%Q.
Proof.
  intros [->|(m & e & ->)] Hlt.
  - split; [left; reflexivity|]. vm_compute. discriminate.
  - cbn [to_Q] in Hlt. pose proof (digits_of_value m e 35 Hlt) as Hd.
    unfold GRAINS_PER_GRAM.
    apply (div_bound m 8687645442460993 e (-49) 32).
    + change (Zdigits2 (Zpos 8687645442460993)) with 53. lia.
    + change (fexp prec emax 32) with (-21). unfold emax, prec. lia.
    + field. vm_compute. discriminate.
Qed.

(** The chain of the five roundings, as linear arithmetic: [x] grams,
    [p] the product, [g] the grains text, [n] its Number, [q] the quotient,
    [r] the grams text. *)
Lemma round_trip_chain (x p g n q r : Q) :
  (Qabs (p - x * (8687645442460993 # 562949953421312)) <= 1 # 100000)%Q ->
  (Qabs (g - p) <= 1 # 200)%Q ->
  (Qabs (n - g) <= 1 # 50000)%Q ->
  (Qabs (q - n * (562949953421312 # 8687645442460993)) <= 1 # 100000)%Q ->
  (Qabs (r - q) <= 1 # 20000)%Q ->
  (Qabs (r - x) <= 4 # 10000)%Q.
Proof.
  intros H1 H2 H3 H4 H5.
  apply Qabs_Qle_condition in H1, H2, H3, H4, H5. apply Qabs_Qle_condition.
  split; lra.
Qed.

(** C4, as stated, fails.  One gram becomes 15.43 grains, and 15.43 grains
    become 0.9998 grams: more than one unit of the fourth decimal place
    away from 1.  And a finite weight whose grains overflow comes back as
    Infinity, which is no decimal at all. *)
Lemma gramsRoundTrip_one_gram :
  gramsRoundTrip "1" (initial ∅) = "0.9998"
  /\ MV "0.9998" = Some (inject_Z 9998 * pow10 (-4))%Q
  /\ ~ (Qabs (inject_Z 9998 * pow10 (-4) - to_Q (parseFloat "1")) <= 1 # 10000)%Q
  /\ isFinite (parseFloat "1e308") = true
  /\ gramsRoundTrip "1e308" (initial ∅) = "Infinity"
  /\ MV "Infinity" = None.
Proof.
  split; [vm_compute; reflexivity|]. split; [vm_compute; reflexivity|].
  split; [vm_compute; intros H; apply H; reflexivity|].
  repeat split; vm_compute; reflexivity.
Qed.

(** C4, amended.  For every positive weight of at most [10^9] grams, the
    grams text after the round trip is a decimal within 0.0004 of the
    weight: half a hundredth of a grain is 0.000324 grams, half a unit of
    the fourth decimal place is 0.00005, and the binary64 operations
    add less than 0.00002. *)
Theorem gramsRoundTrip_within (val : string) (w : State) :
  (0 < to_Q (parseFloat val))%Q ->
  (to_Q (parseFloat val) <= 1000000000)%Q ->
  exists r,
    MV (gramsRoundTrip val w) = Some r
    /\ (Qabs (r - to_Q (parseFloat val)) <= 4 # 10000)%Q.
Proof.
  intros Hpos Hle.
  destruct (parseFloat val) as [s|s| |s m e] eqn:Hx; cbn [to_Q] in Hpos;
    try (exfalso; exact (Qlt_irrefl 0 Hpos)).
  assert (Hv : (0 < inject_Z (Zpos m) * pow2 e)%Q).
  { apply Qmult_lt_0_compat; [reflexivity | apply pow2_pos]. }
  destruct s.
  { exfalso. cbv zeta in Hpos. lra. }
  cbv zeta in Hpos. cbn [to_Q] in Hle |- *.
  set (X := (inject_Z (Zpos m) * pow2 e)%Q) in *.
  (* grams to grains *)
  destruct (mul_K_bound m e Hle) as [HPn HPb]. fold X in HPb.
  set (P := mul (S754_finite false m e) GRAINS_PER_GRAM) in *.
  assert (EK : (to_Q GRAINS_PER_GRAM == 8687645442460993 # 562949953421312)%Q)
    by (vm_compute; reflexivity).
  rewrite EK in HPb.
  assert (E1 : (4 * pow2 (-19) <= 1 # 100000)%Q) by (vm_compute; discriminate).
  assert (HP1 : (Qabs (to_Q P - X * (8687645442460993 # 562949953421312))
                 <= 1 # 100000)%Q) by (eapply Qle_trans; [exact HPb | exact E1]).
  pose proof (nonneg_finite_to_Q P HPn) as HP0.
  assert (HPlt : (to_Q P < inject_Z (10 ^ 21))%Q).
  { apply Qabs_Qle_condition in HP1.
    assert (E21 : (inject_Z (10 ^ 21) == 1000000000000000000000)%Q) by reflexivity.
    rewrite E21. lra. }
  destruct (toFixed_nonneg P 1 HPn HPlt) as (N2 & HN2 & HT2 & HB2).
  assert (Ep2 : (pow10 (- Z.of_nat 2) == 1 # 100)%Q) by reflexivity.
  rewrite Ep2 in HB2.
  assert (HN2lt : N2 < 2 ^ 41).
  { apply Qabs_Qle_condition in HP1, HB2. rewrite Zlt_Qlt.
    assert (E41 : (inject_Z (2 ^ 41) == 2199023255552)%Q) by reflexivity.
    rewrite E41. lra. }
  (* reading the grains text *)
  destruct (of_decimal_2_bound N2 (conj HN2 HN2lt)) as [Hnn Hnb].
  pose proof (parseFloat_fixed_digits N2 1 HN2) as Hparse.
  change (- Z.of_nat 2) with (-2) in Hparse.
  set (n := of_decimal false N2 (-2)) in *.
  assert (E2 : (5 * pow2 (-18) <= 1 # 50000)%Q) by (vm_compute; discriminate).
  assert (Hn1 : (Qabs (to_Q n - inject_Z N2 * (1 # 100)) <= 1 # 50000)%Q)
    by (eapply Qle_trans; [exact Hnb | exact E2]).
  assert (Hnlt : (to_Q n < pow2 35)%Q).
  { apply Qabs_Qle_condition in HP1, HB2, Hn1.
    assert (E35 : (pow2 35 == 34359738368)%Q) by reflexivity.
    rewrite E35. lra. }
  (* grains to grams *)
  destruct (div_K_bound n Hnn Hnlt) as [Hqn Hqb].
  set (q := div n GRAINS_PER_GRAM) in *.
  assert (Einv : (to_Q n / to_Q GRAINS_PER_GRAM
                  == to_Q n * (562949953421312 # 8687645442460993))%Q).
  { rewrite EK. reflexivity. }
  rewrite Einv in Hqb.
  assert (E3 : (5 * pow2 (-21) <= 1 # 100000)%Q) by (vm_compute; discriminate).
  assert (Hq1 : (Qabs (to_Q q - to_Q n * (562949953421312 # 8687645442460993))
                 <= 1 # 100000)%Q) by (eapply Qle_trans; [exact Hqb | exact E3]).
  assert (Hqlt : (to_Q q < inject_Z (10 ^ 21))%Q).
  { apply Qabs_Qle_condition in HP1, HB2, Hn1, Hq1.
    assert (E21 : (inject_Z (10 ^ 21) == 1000000000000000000000)%Q) by reflexivity.
    assert (E35 : (pow2 35 == 34359738368)%Q) by reflexivity.
    rewrite E35 in Hnlt. rewrite E21. lra. }
  destruct (toFixed_nonneg q 3 Hqn Hqlt) as (N4 & HN4 & HT4 & HB4).
  assert (Ep4 : (pow10 (- Z.of_nat 4) == 1 # 10000)%Q) by reflexivity.
  rewrite Ep4 in HB4.
  (* the handlers *)
  exists (inject_Z N4 * pow10 (- Z.of_nat 4))%Q. split.
  - unfold gramsRoundTrip, handleGramsChange. rewrite Hx.
    cbn [isNaN negb setConvGrams setConvGrains convGrains convGrams].
    fold P. rewrite HT2. unfold handleGrainsChange. rewrite Hparse.
    rewrite (nonneg_finite_not_NaN n Hnn).
    cbn [negb setConvGrams setConvGrains convGrains convGrams].
    fold q. rewrite HT4. apply (MV_fixed_digits false N4 3 HN4).
  - rewrite Ep4.
    apply (round_trip_chain X (to_Q P) (inject_Z N2 * (1 # 100)) (to_Q n) (to_Q q));
      assumption.
Qed.

Lemma gramsRoundTrip_within_witness :
  exists r,
    MV (gramsRoundTrip "1" (initial ∅)) = Some r
    /\ (Qabs (r - to_Q (parseFloat "1")) <= 4 # 10000)%Q.
Proof.
  apply (gramsRoundTrip_within "1" (initial ∅)).
  - vm_compute. reflexivity.
  - vm_compute. discriminate.
Defined.

End ConverterRounding.

(** ** Persistence of the load log *)

Section Persistence.

Import App.

(** With nothing stored under the key, or the empty string, the effect
    completes and the load list stays empty. *)
Lemma loadEffect_absent (w : State) :
  present (localStorage w !! storageKey) = false -> loadEffect w = Normal w.
Proof. intros H. unfold loadEffect. rewrite H. reflexivity. Qed.

(** C3 at a stored value that is not well-formed JSON: the single
    character of an opening brace.  [JSON.parse] throws a SyntaxError and
    nothing in the effect catches it. *)
Theorem loadEffect_malformed_throws :
  JSON.parse "{" = JSON.SyntaxError
  /\ loadEffect (initial {[ storageKey := "{"%string ]}) = Throws.
Proof. split; vm_compute; reflexivity. Qed.

(** Whatever else the state holds, stored text that is not JSON makes the
    effect throw. *)
Lemma loadEffect_malformed (w : State) (text : string) :
  localStorage w !! storageKey = Some text ->
  text <> ""%string ->
  JSON.parse text = JSON.SyntaxError ->
  loadEffect w = Throws.
Proof.
  intros Hs Hne Hp. unfold loadEffect. rewrite Hs. simpl.
  destruct text as [|c r]; [congruence|]. simpl. simpl in Hp. rewrite Hp.
  reflexivity.
Qed.

End Persistence.

(** ** Load log *)

Section LoadLog.

Import App Samples.

Lemma saveLoads_loads (l : list LoadRecord.t) (w : State) :
  loads (saveLoads l w) = l.
Proof. reflexivity. Qed.

Lemma saveLoads_stored (l : list LoadRecord.t) (w : State) :
  localStorage (saveLoads l w) !! storageKey = Some (stored l).
Proof. unfold saveLoads, setItem. simpl. apply lookup_insert_eq. Qed.

Lemma present_true (o : option string) :
  present o = true -> exists s, o = Some s /\ s <> ""%string /\ str_or o "" = s.
Proof.
  destruct o as [s|]; simpl; [|discriminate].
  destruct s; simpl; [discriminate|]. intros _. eexists. repeat split. discriminate.
Qed.

(** C7. With an empty name or an empty caliber in the form, [addLoad]
    changes nothing: the list, and all the rest of the state with the
    storage, are the same.  With both non-empty, the new list is the new
    record followed by exactly the previous list, and the new record is
    the form completed: the uuid and the date of the call, the name and
    the caliber of the form, the bullet weight and the powder charge of
    the form or 0 where the form has none (or has 0 or NaN), the powder
    and primer type of the form or the empty text; and the text stored
    under the key is the serialization of that whole list. *)
Theorem addLoad_guard_and_prepend (uuid today : string) (w : State) :
  (present (PartialLoadRecord.name (newLoad w)) = false
   \/ present (PartialLoadRecord.caliber (newLoad w)) = false ->
   addLoad uuid today w = w)
  /\ (present (PartialLoadRecord.name (newLoad w)) = true ->
      present (PartialLoadRecord.caliber (newLoad w)) = true ->
      exists record,
        loads (addLoad uuid today w) = record :: loads w
        /\ LoadRecord.id record = uuid
        /\ PartialLoadRecord.name (newLoad w) = Some (LoadRecord.name record)
        /\ PartialLoadRecord.caliber (newLoad w) = Some (LoadRecord.caliber record)
        /\ LoadRecord.bulletWeight record
           = num_or (PartialLoadRecord.bulletWeight (newLoad w)) zero
        /\ LoadRecord.powderType record
           = str_or (PartialLoadRecord.powderType (newLoad w)) ""
        /\ LoadRecord.powderCharge record
           = num_or (PartialLoadRecord.powderCharge (newLoad w)) zero
        /\ LoadRecord.primerType record
           = str_or (PartialLoadRecord.primerType (newLoad w)) ""
        /\ LoadRecord.date record = today
        /\ localStorage (addLoad uuid today w) !! storageKey
           = Some (JSON.stringify
                     (JSON.Array (List.map LoadRecord.to_json (record :: loads w))))).
Proof.
  split.
  - intros [H|H]; unfold addLoad; rewrite H; simpl; [reflexivity|].
    rewrite andb_false_r. reflexivity.
  - intros Hn Hc. unfold addLoad. rewrite Hn, Hc.
    destruct (present_true _ Hn) as (n & En & _ & Sn).
    destruct (present_true _ Hc) as (c & Ec & _ & Sc).
    rewrite Sn, Sc. cbn [andb].
    eexists. split; [reflexivity|]. split; [reflexivity|].
    split; [exact En|]. split; [exact Ec|].
    do 5 (split; [reflexivity|]).
    unfold setNewLoad. cbn [localStorage]. apply saveLoads_stored.
Qed.

Lemma addLoad_guard_and_prepend_witness :
  addLoad "u1" "1.2.2026" (initial ∅) = initial ∅
  /\ exists record,
       loads (addLoad "u1" "1.2.2026"
                (setNewLoad
                   (PartialLoadRecord.mk None (Some "Target Load") (Some ".308 Win")
                      (Some (of_decimal false 168 0)) (Some "N140") (Some NaN) None None)
                   (initial ∅)))
       = record :: []
       /\ record = LoadRecord.mk "u1" "Target Load" ".308 Win" (of_decimal false 168 0)
                     "N140" zero "" "1.2.2026".
Proof.
  split.
  - apply (proj1 (addLoad_guard_and_prepend "u1" "1.2.2026" (initial ∅))).
    left. reflexivity.
  - destruct (proj2 (addLoad_guard_and_prepend "u1" "1.2.2026"
                       (setNewLoad
                          (PartialLoadRecord.mk None (Some "Target Load") (Some ".308 Win")
                             (Some (of_decimal false 168 0)) (Some "N140") (Some NaN)
                             None None)
                          (initial ∅))) eq_refl eq_refl)
      as (r & H1 & H2 & H3 & H4 & H5 & H6 & H7 & H8 & H9 & _).
    exists r. split; [exact H1|].
    destruct r as [i n c bw pt pc pr d]. cbn in H2, H3, H4, H5, H6, H7, H8, H9.
    injection H3 as <-. injection H4 as <-. subst. reflexivity.
Defined.

Lemma filter_absent (i : string) (l : list LoadRecord.t) :
  occurrences i l = 0%nat ->
  List.filter (fun r => negb (String.eqb (LoadRecord.id r) i)) l = l.
Proof.
  unfold occurrences. induction l as [|b l IHl]; simpl; [reflexivity|].
  destruct (String.eqb (LoadRecord.id b) i); simpl; [discriminate|].
  intros H. f_equal. apply IHl, H.
Qed.

(** Filtering out the one record that carries an id removes it where it
    stands. *)
Lemma filter_single (i : string) (l : list LoadRecord.t) :
  occurrences i l = 1%nat ->
  exists l1 x l2,
    l = l1 ++ x :: l2
    /\ LoadRecord.id x = i
    /\ List.filter (fun r => negb (String.eqb (LoadRecord.id r) i)) l = l1 ++ l2.
Proof.
  unfold occurrences. induction l as [|a l IH]; simpl; [discriminate|].
  destruct (String.eqb (LoadRecord.id a) i) eqn:E; simpl.
  - intros H. injection H as H.
    exists [], a, l. split; [reflexivity|]. split; [apply String.eqb_eq, E|].
    simpl. apply filter_absent, H.
  - intros H. destruct (IH H) as (l1 & x & l2 & -> & Hx & Hf).
    exists (a :: l1), x, l2. split; [reflexivity|]. split; [exact Hx|].
    simpl. rewrite Hf. reflexivity.
Qed.

(** C8. When the id occurs exactly once in the list, [deleteLoad]
    produces a list with exactly one entry fewer, in which no record
    carries the id, and which is the old list with that one record taken
    out where it stood, so the others keep their relative order. *)
Theorem deleteLoad_removes_one (i : string) (w : State) :
  occurrences i (loads w) = 1%nat ->
  S (length (loads (deleteLoad i w))) = length (loads w)
  /\ Forall (fun r => LoadRecord.id r <> i) (loads (deleteLoad i w))
  /\ exists l1 x l2,
       loads w = l1 ++ x :: l2
       /\ LoadRecord.id x = i
       /\ loads (deleteLoad i w) = l1 ++ l2.
Proof.
  intros H. unfold deleteLoad. rewrite saveLoads_loads.
  destruct (filter_single i (loads w) H) as (l1 & x & l2 & E & Hx & Hf).
  split; [|split].
  - rewrite Hf, E. rewrite !length_app. simpl. lia.
  - apply List.Forall_forall. intros r Hr. apply List.filter_In in Hr.
    destruct Hr as [_ Hr]. apply negb_true_iff in Hr.
    apply String.eqb_neq in Hr. exact Hr.
  - exists l1, x, l2. auto.
Qed.

Lemma deleteLoad_removes_one_witness :
  S (length (loads (deleteLoad "b" (setLoads [rec1; rec2; rec3] (initial ∅)))))
  = 3%nat.
Proof.
  exact (proj1 (deleteLoad_removes_one "b"
                  (setLoads [rec1; rec2; rec3] (initial ∅)) eq_refl)).
Defined.

(** Deleting writes the whole remaining list to the storage. *)
Lemma deleteLoad_stored (i : string) (w : State) :
  localStorage (deleteLoad i w) !! storageKey
  = Some (stored (loads (deleteLoad i w))).
Proof. unfold deleteLoad. rewrite saveLoads_loads. apply saveLoads_stored. Qed.

Lemma step_named (w : State) (a : Action) :
  Forall named (loads w) -> Forall named (loads (step w a)).
Proof.
  intros H. destruct a as [form|uuid today|i]; cbn [step].
  - exact H.
  - unfold addLoad.
    destruct (present (PartialLoadRecord.name (newLoad w))) eqn:Hn; simpl; [|exact H].
    destruct (present (PartialLoadRecord.caliber (newLoad w))) eqn:Hc; simpl; [|exact H].
    destruct (present_true _ Hn) as (n & _ & Nn & Sn).
    destruct (present_true _ Hc) as (c & _ & Nc & Sc).
    rewrite Sn, Sc. cbn [setNewLoad saveLoads setItem setLoads loads].
    constructor; [|exact H]. split; cbn; assumption.
  - unfold deleteLoad. rewrite saveLoads_loads.
    apply List.Forall_forall. intros r Hr. apply List.filter_In in Hr.
    destruct Hr as [Hr _]. rewrite List.Forall_forall in H. apply H, Hr.
Qed.

Lemma run_named (actions : list Action) (w : State) :
  Forall named (loads w) -> Forall named (loads (run actions w)).
Proof.
  revert w. induction actions as [|a actions IH]; intros w H; simpl; [exact H|].
  apply IH, step_named, H.
Qed.

(** C10. Starting from the empty load list, after any sequence of form
    edits, [addLoad] and [deleteLoad], every record in the list has a
    non-empty name and a non-empty caliber. *)
Theorem loads_always_named (storage : gmap string string) (actions : list Action) :
  Forall (fun r => LoadRecord.name r <> ""%string /\ LoadRecord.caliber r <> ""%string)
         (loads (run actions (initial storage))).
Proof. apply run_named. constructor. Qed.

End LoadLog.

(** ** Image analysis *)

Section AnalysisFailure.

Import App AnalysisTab.

(** C9. When the request is issued (an image is selected) and the external
    call fails, by throwing or by returning text that does not parse, then
    afterwards the error state holds the non-empty message, the result is
    still null if it was null, the selected image is the same, and neither
    the storage nor the load list has changed. *)
Theorem analyzeImage_failure (generateContent : Request -> Settled) (w : State) :
  present (selectedImage w) = true ->
  analysisFails
    (generateContent
       (request (str_or (selectedImage w) "") (bulletDiameter w) (expectedShots w)))
  = true ->
  result w = None ->
  let w' := analyzeImage generateContent w in
  (exists msg, error w' = Some msg /\ msg <> ""%string)
  /\ result w' = None
  /\ selectedImage w' = selectedImage w
  /\ localStorage w' = localStorage w
  /\ loads w' = loads w
  /\ isAnalyzing w' = false.
Proof.
  intros Hs Hf Hr. cbv zeta. unfold analyzeImage. rewrite Hs.
  cbn [setError setIsAnalyzing bulletDiameter expectedShots].
  unfold analysisFails in Hf.
  destruct (generateContent _) as [|response].
  - simpl. rewrite Hr. repeat split.
    exists errorMessage. split; [reflexivity|discriminate].
  - destruct (JSON.parse (str_or response "{}")); [discriminate|].
    simpl. rewrite Hr. repeat split.
    exists errorMessage. split; [reflexivity|discriminate].
Qed.

Lemma analyzeImage_failure_witness :
  result (analyzeImage (fun _ => Rejected)
            (handleImageUpload "data:image/jpeg;base64,AAAA" (initial ∅))) = None
  /\ isAnalyzing (analyzeImage (fun _ => Rejected)
            (handleImageUpload "data:image/jpeg;base64,AAAA" (initial ∅))) = false.
Proof.
  destruct (analyzeImage_failure (fun _ => Rejected)
              (handleImageUpload "data:image/jpeg;base64,AAAA" (initial ∅))
              eq_refl eq_refl eq_refl)
    as (_ & Hr & _ & _ & _ & Ha).
  split; [exact Hr | exact Ha].
Defined.

End AnalysisFailure.

(** ** Load log: storage, ids, deleting *)

Section LoadLogMore.

Import App Page Samples.
Local Open Scope string_scope.

Lemma deleteLoad_loads (i : string) (w : State) :
  loads (deleteLoad i w)
  = List.filter (fun r => negb (String.eqb (LoadRecord.id r) i)) (loads w).
Proof. reflexivity. Qed.

Lemma filter_sublist (i : string) (l : list LoadRecord.t) :
  sublist (List.filter (fun r => negb (String.eqb (LoadRecord.id r) i)) l) l.
Proof.
  induction l as [|a l IH]; simpl; [constructor|].
  destruct (negb _); [apply sublist_skip | apply sublist_cons]; exact IH.
Qed.

Lemma filter_counts (i : string) (l : list LoadRecord.t) :
  (length (List.filter (fun r => negb (String.eqb (LoadRecord.id r) i)) l)
   + occurrences i l = length l)%nat.
Proof.
  unfold occurrences. induction l as [|a l IH]; simpl; [reflexivity|].
  destruct (String.eqb (LoadRecord.id a) i); simpl; lia.
Qed.

Lemma filter_clears (i : string) (l : list LoadRecord.t) :
  occurrences i (List.filter (fun r => negb (String.eqb (LoadRecord.id r) i)) l) = 0%nat.
Proof.
  unfold occurrences. induction l as [|a l IH]; simpl; [reflexivity|].
  destruct (String.eqb (LoadRecord.id a) i) eqn:E; simpl; [exact IH|].
  rewrite E. exact IH.
Qed.

(** X1. Whatever the list holds, [deleteLoad] removes every record that
    carries the id and nothing else: the new list is a sublist of the old
    one (same order), it is shorter by the number of occurrences, every
    record with another id is still there, and it is what the storage now
    holds.  With no occurrence the list is the same, and is written to the
    storage all the same. *)
Theorem deleteLoad_any (i : string) (w : State) :
  let w' := deleteLoad i w in
  occurrences i (loads w') = 0%nat
  /\ (length (loads w') + occurrences i (loads w) = length (loads w))%nat
  /\ sublist (loads w') (loads w)
  /\ (forall r, In r (loads w) -> LoadRecord.id r <> i -> In r (loads w'))
  /\ (occurrences i (loads w) = 0%nat -> loads w' = loads w)
  /\ localStorage w' !! storageKey = Some (stored (loads w')).
Proof.
  cbv zeta. rewrite deleteLoad_loads.
  split; [apply filter_clears|]. split; [apply filter_counts|].
  split; [apply filter_sublist|]. split.
  - intros r Hr Hne. apply List.filter_In. split; [exact Hr|].
    apply negb_true_iff, String.eqb_neq, Hne.
  - split; [apply filter_absent|]. apply deleteLoad_stored.
Qed.

(** X2. The button [Speichern] is disabled exactly when [addLoad] would
    leave the list as it is: the guard of the button and the guard of the
    handler agree. *)
Theorem saveDisabled_iff_addLoad_idle (uuid today : string) (w : State) :
  saveDisabled w = true <-> loads (addLoad uuid today w) = loads w.
Proof.
  unfold saveDisabled, addLoad.
  destruct (present (PartialLoadRecord.name (newLoad w)));
    destruct (present (PartialLoadRecord.caliber (newLoad w))); cbn [negb orb andb].
  - split; [discriminate|]. cbn [setNewLoad saveLoads setItem setLoads loads].
    intros H. apply (f_equal (@length _)) in H. simpl in H. lia.
  - split; reflexivity.
  - split; reflexivity.
  - split; reflexivity.
Qed.

(** X3. Saving a record under an id that the list does not hold yet and
    deleting that id again gives back the list as it was, in the state and
    in the storage. *)
Theorem addLoad_then_deleteLoad (uuid today : string) (w : State) :
  occurrences uuid (loads w) = 0%nat ->
  loads (deleteLoad uuid (addLoad uuid today w)) = loads w
  /\ localStorage (deleteLoad uuid (addLoad uuid today w)) !! storageKey
     = Some (stored (loads w)).
Proof.
  intros H.
  assert (E : loads (deleteLoad uuid (addLoad uuid today w)) = loads w).
  { rewrite deleteLoad_loads. unfold addLoad.
    destruct (present _ && present _).
    - cbn [setNewLoad saveLoads setItem setLoads loads List.filter LoadRecord.id].
      rewrite String.eqb_refl. cbn [negb]. apply filter_absent, H.
    - apply filter_absent, H. }
  split; [exact E|]. rewrite deleteLoad_stored, E. reflexivity.
Qed.

Lemma addLoad_then_deleteLoad_witness :
  loads (deleteLoad "u9" (addLoad "u9" "1.2.2026"
          (setNewLoad sampleForm (setLoads [rec1; rec2] (initial ∅)))))
  = [rec1; rec2].
Proof.
  exact (proj1 (addLoad_then_deleteLoad "u9" "1.2.2026"
                  (setNewLoad sampleForm (setLoads [rec1; rec2] (initial ∅)))
                  eq_refl)).
Defined.

(** The storage holds the list, or nothing has been written yet. *)
Lemma step_in_sync (w0 w : State) (a : Action) :
  localStorage w !! storageKey = Some (stored (loads w))
  \/ (loads w = loads w0 /\ localStorage w = localStorage w0) ->
  localStorage (step w a) !! storageKey = Some (stored (loads (step w a)))
  \/ (loads (step w a) = loads w0 /\ localStorage (step w a) = localStorage w0).
Proof.
  intros H. destruct a as [form|uuid today|i]; cbn [step].
  - exact H.
  - unfold addLoad. destruct (present _ && present _); [|exact H].
    left. cbn [setNewLoad localStorage loads]. apply saveLoads_stored.
  - left. apply deleteLoad_stored.
Qed.

(** X4. In every session, from any state: either nothing has been written
    and the list is the one of the start, or the storage holds exactly the
    serialization of the list in memory.  The two never drift apart. *)
Theorem storage_in_sync (actions : list Action) (w0 : State) :
  localStorage (run actions w0) !! storageKey
  = Some (stored (loads (run actions w0)))
  \/ (loads (run actions w0) = loads w0
      /\ localStorage (run actions w0) = localStorage w0).
Proof.
  assert (G : forall w,
             localStorage w !! storageKey = Some (stored (loads w))
             \/ (loads w = loads w0 /\ localStorage w = localStorage w0) ->
             localStorage (run actions w) !! storageKey
             = Some (stored (loads (run actions w)))
             \/ (loads (run actions w) = loads w0
                 /\ localStorage (run actions w) = localStorage w0)).
  { induction actions as [|a actions IH]; intros w H; [exact H|].
    apply IH, step_in_sync, H. }
  apply G. right. split; reflexivity.
Qed.

Lemma filter_ids_NoDup (i : string) (l : list LoadRecord.t) :
  List.NoDup (ids l) ->
  List.NoDup (ids (List.filter (fun r => negb (String.eqb (LoadRecord.id r) i)) l)).
Proof.
  unfold ids. induction l as [|a l IH]; simpl; intros H; [constructor|].
  inversion H as [|x xs Hx Hxs]; subst.
  destruct (negb _); simpl; [|apply IH, Hxs].
  constructor; [|apply IH, Hxs].
  intros Hin. apply Hx. apply List.in_map_iff in Hin.
  destruct Hin as (r & Hr & Hf). apply List.filter_In in Hf.
  apply List.in_map_iff. exists r. tauto.
Qed.

Lemma filter_ids_incl (i u : string) (l : list LoadRecord.t) :
  In u (ids (List.filter (fun r => negb (String.eqb (LoadRecord.id r) i)) l)) ->
  In u (ids l).
Proof.
  unfold ids. intros H. apply List.in_map_iff in H. destruct H as (r & Hr & Hf).
  apply List.filter_In in Hf. apply List.in_map_iff. exists r. tauto.
Qed.

(** X5. If the uuids handed to [addLoad] are pairwise different and new to
    the list, then after any session every id occurs at most once in the
    list; so a delete button removes exactly the record it belongs to. *)
Theorem ids_stay_unique (actions : list Action) (w : State) :
  List.NoDup (ids (loads w)) ->
  List.NoDup (uuids actions) ->
  (forall u, In u (uuids actions) -> ~ In u (ids (loads w))) ->
  List.NoDup (ids (loads (run actions w))).
Proof.
  revert w. induction actions as [|a actions IH]; intros w Hw Hu Hfresh; [exact Hw|].
  cbn [run List.fold_left]. change (List.fold_left step actions (step w a))
    with (run actions (step w a)).
  destruct a as [form|uuid today|i]; cbn [step uuids] in *.
  - apply IH; assumption.
  - inversion Hu as [|x xs Hx Hxs]; subst.
    unfold addLoad. destruct (present _ && present _).
    + apply IH; cbn [setNewLoad saveLoads setItem setLoads loads ids List.map LoadRecord.id].
      * constructor; [apply Hfresh; left; reflexivity | exact Hw].
      * exact Hxs.
      * intros u Hin [E|Hin']; [subst; contradiction|].
        apply (Hfresh u); [right; exact Hin | exact Hin'].
    + apply IH; [exact Hw | exact Hxs |].
      intros u Hin. apply Hfresh. right. exact Hin.
  - apply IH; [rewrite deleteLoad_loads; apply filter_ids_NoDup, Hw | exact Hu |].
    intros u Hin Hin'. rewrite deleteLoad_loads in Hin'.
    apply filter_ids_incl in Hin'. exact (Hfresh u Hin Hin').
Qed.

Lemma ids_stay_unique_witness :
  List.NoDup
    (ids (loads (run [EditForm sampleForm; AddLoad "u1" "1.2.2026";
                      EditForm sampleForm; AddLoad "u2" "2.2.2026";
                      DeleteLoad "u1"] (initial ∅)))).
Proof.
  apply ids_stay_unique.
  - constructor.
  - repeat constructor; simpl; intuition discriminate.
  - intros u _ H. exact H.
Defined.

Lemma num_or_stored (o : option number) : stored_number (num_or o zero).
Proof.
  unfold num_or, or_default, stored_number, zero.
  destruct o as [x|]; [|split; [reflexivity|discriminate]].
  destruct x as [s|s| |s m e]; cbn; split; try reflexivity; discriminate.
Qed.

Lemma step_stored_numbers (w : State) (a : Action) :
  Forall (fun r => stored_number (LoadRecord.bulletWeight r)
                   /\ stored_number (LoadRecord.powderCharge r)) (loads w) ->
  Forall (fun r => stored_number (LoadRecord.bulletWeight r)
                   /\ stored_number (LoadRecord.powderCharge r)) (loads (step w a)).
Proof.
  intros H. destruct a as [form|uuid today|i]; cbn [step].
  - exact H.
  - unfold addLoad. destruct (present _ && present _); [|exact H].
    cbn [setNewLoad saveLoads setItem setLoads loads].
    constructor; [|exact H]. cbn [LoadRecord.bulletWeight LoadRecord.powderCharge].
    split; apply num_or_stored.
  - rewrite deleteLoad_loads. apply List.Forall_forall. intros r Hr.
    apply List.filter_In in Hr. rewrite List.Forall_forall in H. apply H, Hr.
Qed.

(** X6. In a session that starts from the initial state, whatever the
    form holds when a record is saved, the bullet weight and the powder
    charge of every record in the list are never NaN and never the
    negative zero: a missing or unparsable number is stored as 0. *)
Theorem records_hold_numbers (storage : gmap string string) (actions : list Action) :
  Forall (fun r => stored_number (LoadRecord.bulletWeight r)
                   /\ stored_number (LoadRecord.powderCharge r))
         (loads (run actions (initial storage))).
Proof.
  assert (G : forall w,
             Forall (fun r => stored_number (LoadRecord.bulletWeight r)
                              /\ stored_number (LoadRecord.powderCharge r)) (loads w) ->
             Forall (fun r => stored_number (LoadRecord.bulletWeight r)
                              /\ stored_number (LoadRecord.powderCharge r))
                    (loads (run actions w))).
  { induction actions as [|a actions IH]; intros w H; [exact H|].
    apply IH, step_stored_numbers, H. }
  apply G. constructor.
Qed.

Lemma or_default_twice (x : number) :
  or_default (or_default x zero) zero = or_default x zero.
Proof. unfold or_default. destruct (truthy x) eqn:E; [rewrite E|]; reflexivity. Qed.

(** X24. What is typed is what is saved.  After typing a name, a caliber,
    a bullet weight and a charge into the form (name and caliber not
    empty) and pressing [Speichern], the new first record holds the two
    texts as typed, each number as [parseFloat] reads its text, or 0 when
    the text does not parse or reads as zero, the powder and primer type
    that the form held before, or the empty text, and the uuid and the
    date of the call; and the form is empty again. *)
Theorem typed_record_is_saved (n c bw pc uuid today : string) (w : State) :
  n <> "" -> c <> "" ->
  let form := newLoad w in
  let w' :=
    addLoad uuid today
      (onNumberChange powderCharge pc
         (onNumberChange bulletWeight bw
            (onTextChange caliber c (onTextChange name n w)))) in
  loads w'
  = {| LoadRecord.id := uuid;
       LoadRecord.name := n;
       LoadRecord.caliber := c;
       LoadRecord.bulletWeight := or_default (parseFloat bw) zero;
       LoadRecord.powderType := str_or (PartialLoadRecord.powderType form) "";
       LoadRecord.powderCharge := or_default (parseFloat pc) zero;
       LoadRecord.primerType := str_or (PartialLoadRecord.primerType form) "";
       LoadRecord.date := today |} :: loads w
  /\ newLoad w' = PartialLoadRecord.empty
  /\ saveDisabled w' = true.
Proof.
  intros Hn Hc. cbv zeta.
  assert (En : nonempty n = true) by (destruct n; [contradiction | reflexivity]).
  assert (Ec : nonempty c = true) by (destruct c; [contradiction | reflexivity]).
  unfold addLoad, onNumberChange, onTextChange. cbn [setNewLoad newLoad].
  destruct (newLoad w) as [i nm cl b pt p pr d].
  cbn [withText withNumber PartialLoadRecord.name PartialLoadRecord.caliber
       PartialLoadRecord.bulletWeight PartialLoadRecord.powderType
       PartialLoadRecord.powderCharge PartialLoadRecord.primerType present str_or num_or].
  rewrite En, Ec. cbn [andb]. rewrite !or_default_twice.
  repeat split.
Qed.

Lemma typed_record_is_saved_witness :
  List.map LoadRecord.bulletWeight
    (loads (addLoad "u1" "1.2.2026"
              (onNumberChange powderCharge "abc"
                 (onNumberChange bulletWeight "168"
                    (onTextChange caliber ".308 Win"
                       (onTextChange name "Target" (initial ∅)))))))
  = [of_decimal false 168 0].
Proof.
  rewrite (proj1 (typed_record_is_saved "Target" ".308 Win" "168" "abc" "u1" "1.2.2026"
                    (initial ∅) ltac:(discriminate) ltac:(discriminate))).
  reflexivity.
Defined.

End LoadLogMore.

(** ** Cost tab: what the inputs can and cannot hold *)

Section CostMore.

Import App Page.
Local Open Scope string_scope.

Lemma div_by_zero (x : number) (s : bool) : isFinite (div x (S754_zero s)) = false.
Proof. destruct x as [sx|sx| |sx m e]; reflexivity. Qed.

Lemma div_not_finite (x y : number) : isFinite x = false -> isFinite (div x y) = false.
Proof.
  destruct x as [sx|sx| |sx m e]; try discriminate; intros _;
    destruct y as [sy|sy| |sy my ey]; reflexivity.
Qed.

Lemma mul_not_finite (x y : number) : isFinite x = false -> isFinite (mul x y) = false.
Proof.
  destruct x as [sx|sx| |sx m e]; try discriminate; intros _;
    destruct y as [sy|sy| |sy my ey]; reflexivity.
Qed.

Lemma add_not_finite_l (x y : number) : isFinite x = false -> isFinite (add x y) = false.
Proof.
  destruct x as [sx|sx| |sx m e]; try discriminate; intros _;
    destruct y as [sy|sy| |sy my ey]; try reflexivity.
  destruct sx, sy; reflexivity.
Qed.

Lemma add_not_finite_r (x y : number) : isFinite y = false -> isFinite (add x y) = false.
Proof.
  destruct y as [sy|sy| |sy my ey]; try discriminate; intros _;
    destruct x as [sx|sx| |sx m e]; try reflexivity.
  destruct sx, sy; reflexivity.
Qed.

Lemma toFixed_not_finite (x : number) (f : nat) :
  isFinite x = false -> not_an_amount (toFixed x f).
Proof.
  unfold not_an_amount.
  destruct x as [sx|sx| |sx m e]; try discriminate; intros _; cbn.
  - destruct sx; auto.
  - auto.
Qed.

Lemma falsy_default (x : number) : truthy x = false -> or_default x zero = zero.
Proof. unfold or_default. intros ->. reflexivity. Qed.

(** X7. Clearing one of the four inputs that the calculation divides by
    (powder weight, primer count, bullet count, brass count), or typing 0
    or text that does not parse into it, stores 0 there; the total and the
    price per hundred are then not finite, and the result card shows
    [Infinity], [-Infinity] or [NaN] instead of an amount. *)
Theorem cleared_divisor_breaks_total (f : CostField) (value : string) (w : State) :
  divisor f = true ->
  truthy (parseFloat value) = false ->
  let w' := onChange f value w in
  get f (costs w') = zero
  /\ isFinite (total (calculatedCosts (costs w'))) = false
  /\ isFinite (per100 (calculatedCosts (costs w'))) = false
  /\ not_an_amount (shownTotal w')
  /\ not_an_amount (shownPer100 w').
Proof.
  intros Hf Hv. cbv zeta.
  assert (T : isFinite (total (calculatedCosts (costs (onChange f value w)))) = false).
  { unfold onChange. cbn [setCosts costs]. destruct (costs w) as [pp pw pc rp rc bp bc sp sc sl].
    destruct f; try discriminate Hf; cbn [fallback spread]; rewrite (falsy_default _ Hv);
      unfold calculatedCosts, zero; cbn [total CostInputs.powderPrice CostInputs.powderWeight
        CostInputs.powderCharge CostInputs.primerPrice CostInputs.primerCount
        CostInputs.bulletPrice CostInputs.bulletCount CostInputs.brassPrice
        CostInputs.brassCount CostInputs.brassLife].
    - do 2 apply add_not_finite_l. apply add_not_finite_l, mul_not_finite, div_not_finite, div_by_zero.
    - apply add_not_finite_l, add_not_finite_l, add_not_finite_r, div_by_zero.
    - apply add_not_finite_l, add_not_finite_r, div_by_zero.
    - apply add_not_finite_r, div_not_finite, div_by_zero. }
  assert (P : isFinite (per100 (calculatedCosts (costs (onChange f value w)))) = false).
  { apply (mul_not_finite _ hundred) in T. exact T. }
  split.
  { unfold onChange. cbn [setCosts costs]. rewrite get_spread_same.
    destruct f; try discriminate Hf; apply (falsy_default _ Hv). }
  split; [exact T|]. split; [exact P|].
  split; apply toFixed_not_finite; assumption.
Qed.

Lemma cleared_divisor_breaks_total_witness :
  not_an_amount (shownTotal (onChange bulletCount "" (initial ∅))).
Proof.
  exact (proj1 (proj2 (proj2 (proj2
    (cleared_divisor_breaks_total bulletCount "" (initial ∅) eq_refl eq_refl))))).
Defined.

Lemma costStep_brassLife (w : State) (a : CostAction) :
  truthy (CostInputs.brassLife (costs w)) = true ->
  truthy (CostInputs.brassLife (costs (costStep w a))) = true.
Proof.
  intros H. destruct a as [f value|]; cbn [costStep]; [|reflexivity].
  unfold onChange. cbn [setCosts costs].
  destruct (costs w) as [pp pw pc rp rc bp bc sp sc sl]. cbn in H.
  destruct f; cbn [spread CostInputs.brassLife]; try exact H.
  unfold or_default, fallback. destruct (truthy (parseFloat value)) eqn:E; [exact E|reflexivity].
Qed.

(** X8. The brass life is the one input that can never hold 0 or NaN:
    from the initial state, whatever is typed into whichever inputs and
    however often the reset button is pressed, it stays a number that is
    neither zero nor NaN (its input falls back to 1, not to 0). *)
Theorem brassLife_never_zero (storage : gmap string string) (actions : list CostAction) :
  truthy (CostInputs.brassLife (costs (costRun actions (initial storage)))) = true.
Proof.
  assert (G : forall w, truthy (CostInputs.brassLife (costs w)) = true ->
                        truthy (CostInputs.brassLife (costs (costRun actions w))) = true).
  { induction actions as [|a actions IH]; intros w H; [exact H|].
    apply IH, costStep_brassLife, H. }
  apply G. reflexivity.
Qed.

(** X9. Typing into two different cost inputs gives the same state in
    either order, and typing twice into the same input keeps only the
    second text: each handler replaces its own field and copies the nine
    others. *)
Theorem onChange_independent (f g : CostField) (s t : string) (w : State) :
  (f <> g -> onChange f s (onChange g t w) = onChange g t (onChange f s w))
  /\ onChange f s (onChange f t w) = onChange f s w.
Proof.
  unfold onChange, setCosts. cbn [costs convGrains convGrams loads newLoad selectedImage
    isAnalyzing result error bulletDiameter expectedShots localStorage].
  destruct (costs w) as [pp pw pc rp rc bp bc sp sc sl].
  split.
  - intros Hne. f_equal.
    destruct f, g; try reflexivity; exfalso; apply Hne; reflexivity.
  - f_equal. destruct f; reflexivity.
Qed.

End CostMore.

(** ** Analysis tab: success, stale results, what is sent *)

Section AnalysisMore.

Import App AnalysisTab Page.
Local Open Scope string_scope.

(** X10. When an image is selected and the response text parses, the
    parsed value becomes the result, an error message of an earlier
    attempt is cleared, the busy flag is off again and the image is the
    same. *)
Theorem analyzeImage_success (generateContent : Request -> Settled) (w : State)
  (response : option string) (data : JSON.value) :
  present (selectedImage w) = true ->
  generateContent
    (request (str_or (selectedImage w) "") (bulletDiameter w) (expectedShots w))
  = Fulfilled response ->
  JSON.parse (str_or response "{}") = JSON.Parsed data ->
  let w' := analyzeImage generateContent w in
  result w' = Some data
  /\ error w' = None
  /\ isAnalyzing w' = false
  /\ selectedImage w' = selectedImage w.
Proof.
  intros Hs Hg Hp. cbv zeta. unfold analyzeImage. rewrite Hs.
  cbn [setError setIsAnalyzing bulletDiameter expectedShots].
  rewrite Hg, Hp. repeat split.
Qed.

Lemma analyzeImage_success_witness :
  result (analyzeImage (fun _ => Fulfilled (Some "[7, 9.5]"))
            (handleImageUpload "data:image/png;base64,AAAA" (initial ∅)))
  = Some (JSON.Array [JSON.Number (of_decimal false 7 0);
                      JSON.Number (of_decimal false 95 (-1))]).
Proof.
  exact (proj1 (analyzeImage_success (fun _ => Fulfilled (Some "[7, 9.5]"))
                  (handleImageUpload "data:image/png;base64,AAAA" (initial ∅))
                  (Some "[7, 9.5]") _ eq_refl eq_refl eq_refl)).
Defined.

(** X11. A response without text, or with the empty text, is not a
    failure: it is read as the empty object, which becomes the result, and
    no error message is set.  The result card is then rendered, and its
    first expression, [result.groupSizeMm.toFixed(1)], throws a TypeError:
    what the service returns is not checked before it is displayed. *)
Theorem analyzeImage_empty_response (generateContent : Request -> Settled) (w : State) :
  present (selectedImage w) = true ->
  (let r := generateContent
              (request (str_or (selectedImage w) "") (bulletDiameter w) (expectedShots w)) in
   r = Fulfilled None \/ r = Fulfilled (Some "")) ->
  result (analyzeImage generateContent w) = Some (JSON.Object [])
  /\ error (analyzeImage generateContent w) = None
  /\ groupSizeText (result (analyzeImage generateContent w)) = TypeError.
Proof.
  intros Hs Hg. cbv zeta in Hg. unfold analyzeImage. rewrite Hs.
  cbn [setError setIsAnalyzing bulletDiameter expectedShots].
  destruct Hg as [-> | ->]; repeat split.
Qed.

Lemma analyzeImage_empty_response_witness :
  groupSizeText (result (analyzeImage (fun _ => Fulfilled None)
                   (handleImageUpload "data:image/png;base64,AAAA" (initial ∅))))
  = TypeError.
Proof.
  exact (proj2 (proj2 (analyzeImage_empty_response (fun _ => Fulfilled None)
                  (handleImageUpload "data:image/png;base64,AAAA" (initial ∅))
                  eq_refl (or_introl eq_refl)))).
Defined.

(** X12. Whatever the service answers, and whether an image is selected or
    not, [analyzeImage] changes nothing outside the analysis tab (cost
    inputs, converter fields, load list, form, storage), keeps the image
    and the two parameters, and never leaves the busy flag on when it was
    off. *)
Theorem analyzeImage_frame (generateContent : Request -> Settled) (w : State) :
  let w' := analyzeImage generateContent w in
  outside_analysis w' = outside_analysis w
  /\ selectedImage w' = selectedImage w
  /\ bulletDiameter w' = bulletDiameter w
  /\ expectedShots w' = expectedShots w
  /\ (isAnalyzing w = false -> isAnalyzing w' = false).
Proof.
  cbv zeta. unfold analyzeImage, outside_analysis.
  destruct (present (selectedImage w)); [|repeat split; auto].
  cbn [setError setIsAnalyzing bulletDiameter expectedShots].
  destruct (generateContent _) as [|response];
    [|destruct (JSON.parse (str_or response "{}"))]; repeat split; auto.
Qed.

(** X13. A failed analysis does not clear the result of an earlier one:
    the old result stays and is shown together with the error message,
    until a new image is chosen (which clears both). *)
Theorem analyzeImage_failure_keeps_result (generateContent : Request -> Settled)
  (w : State) :
  present (selectedImage w) = true ->
  analysisFails
    (generateContent
       (request (str_or (selectedImage w) "") (bulletDiameter w) (expectedShots w)))
  = true ->
  let w' := analyzeImage generateContent w in
  result w' = result w
  /\ error w' = Some errorMessage
  /\ (forall dataUrl, result (handleImageUpload dataUrl w') = None
                      /\ error (handleImageUpload dataUrl w') = None).
Proof.
  intros Hs Hf. cbv zeta. unfold analyzeImage. rewrite Hs.
  cbn [setError setIsAnalyzing bulletDiameter expectedShots].
  unfold analysisFails in Hf.
  destruct (generateContent _) as [|response];
    [|destruct (JSON.parse (str_or response "{}")); [discriminate|]];
    repeat split.
Qed.

Lemma analyzeImage_failure_keeps_result_witness :
  result (analyzeImage (fun _ => Fulfilled (Some "{oops"))
            (setResult (Some (JSON.Object []))
               (handleImageUpload "data:image/png;base64,AAAA" (initial ∅))))
  = Some (JSON.Object []).
Proof.
  exact (proj1 (analyzeImage_failure_keeps_result (fun _ => Fulfilled (Some "{oops"))
                  (setResult (Some (JSON.Object []))
                     (handleImageUpload "data:image/png;base64,AAAA" (initial ∅)))
                  eq_refl eq_refl)).
Defined.

Lemma upto_comma_free (s : string) : comma_free s = true -> upto_comma s = s.
Proof.
  induction s as [|c r IH]; [reflexivity|]. cbn [comma_free upto_comma].
  destruct (code c =? 44)%Z; [discriminate|]. cbn [negb andb].
  intros H. rewrite (IH H). reflexivity.
Qed.

Lemma second_segment_free (s : string) : comma_free s = true -> second_segment s = None.
Proof.
  induction s as [|c r IH]; [reflexivity|]. cbn [comma_free second_segment].
  destruct (code c =? 44)%Z; [discriminate|]. exact IH.
Qed.

Lemma second_segment_app (a b : string) :
  comma_free a = true -> second_segment (a ++ b) = second_segment b.
Proof.
  induction a as [|c r IH]; [intros _; rewrite append_nil_l; reflexivity|].
  rewrite append_cons. cbn [comma_free second_segment].
  destruct (code c =? 44)%Z; [discriminate|]. exact IH.
Qed.

(** X14. What is sent as the image: for a data URL [data:<mime>;base64,<payload>]
    whose media type and payload hold no comma, exactly the payload, and
    labelled [image/jpeg] whatever the media type of the data URL is; for a
    string without any comma, nothing (the field is undefined). *)
Theorem request_data (mime payload bulletDiameter expectedShots : string) :
  comma_free mime = true ->
  comma_free payload = true ->
  data (request (dataUrl mime payload) bulletDiameter expectedShots) = Some payload
  /\ mimeType (request (dataUrl mime payload) bulletDiameter expectedShots) = "image/jpeg"
  /\ data (request payload bulletDiameter expectedShots) = None.
Proof.
  intros Hm Hp. cbn [request data mimeType].
  split; [|split; [reflexivity | apply second_segment_free, Hp]].
  unfold dataUrl.
  rewrite (second_segment_app "data:" _ eq_refl).
  rewrite (second_segment_app mime _ Hm).
  change (";base64," ++ payload) with (";base64" ++ ("," ++ payload)).
  rewrite (second_segment_app ";base64" _ eq_refl).
  rewrite append_cons, append_nil_l. cbn [second_segment].
  change (code "," =? 44)%Z with true. cbv iota.
  rewrite (upto_comma_free _ Hp). reflexivity.
Qed.

Lemma request_data_witness :
  data (request (dataUrl "image/png" "iVBORw0KGgo=") "7.62" "5") = Some "iVBORw0KGgo="
  /\ mimeType (request (dataUrl "image/png" "iVBORw0KGgo=") "7.62" "5") = "image/jpeg".
Proof.
  destruct (request_data "image/png" "iVBORw0KGgo=" "7.62" "5" eq_refl eq_refl)
    as (H1 & H2 & _).
  split; [exact H1 | exact H2].
Defined.

End AnalysisMore.

(** ** Unit converter: the round trip grains, grams, grains *)

Section ConverterBack.

Import App Page.
Local Open Scope string_scope.
Local Open Scope Z_scope.

(** Reading the grams text back: [n / 10000] as a Number. *)
Lemma of_decimal_4_bound (n : Z) :
  0 <= n < 2 ^ 40 ->
  nonneg_finite (of_decimal false n (-4))
  /\ (Qabs (to_Q (of_decimal false n (-4)) - inject_Z n * (1 # 10000))
      <= 5 * pow2 (-26))%Q.
Proof.
  intros Hn. destruct n as [|d|d]; [| |lia].
  - split; [left; reflexivity|]. vm_compute. discriminate.
  - pose proof (Zdigits2_le (Zpos d) 40 ltac:(lia) Hn) as Hd.
    change (of_decimal false (Zpos d) (-4))
      with (div (S754_finite false d 0) (S754_finite false 10000 0)).
    apply (div_bound d 10000 0 0 27).
    + change (Zdigits2 (Zpos 10000)) with 14. lia.
    + change (fexp prec emax 27) with (-26). unfold emax, prec. lia.
    + cbn [to_Q]. change (pow2 0) with 1%Q.
      assert (E : (inject_Z 10000 == 10000)%Q) by reflexivity. rewrite E. field.
Qed.

(** The product with the constant, for a Number that is [+0] or positive. *)
Lemma mul_K_bound_nonneg (n : number) :
  nonneg_finite n ->
  (to_Q n <= 1000000000)%Q ->
  nonneg_finite (mul n GRAINS_PER_GRAM)
  /\ (Qabs (to_Q (mul n GRAINS_PER_GRAM) - to_Q n * to_Q GRAINS_PER_GRAM)
      <= 4 * pow2 (-19))%Q.
Proof.
  intros [->|(m & e & ->)] Hle.
  - split; [left; reflexivity|]. vm_compute. discriminate.
  - apply (mul_K_bound m e Hle).
Qed.

(** The chain of the five roundings, as linear arithmetic: [x] grains,
    [q] the quotient, [g] the grams text, [n] its Number, [p] the product,
    [r] the grains text. *)
Lemma round_trip_back_chain (x q g n p r : Q) :
  (Qabs (q - x * (562949953421312 # 8687645442460993)) <= 1 # 100000)%Q ->
  (Qabs (g - q) <= 1 # 20000)%Q ->
  (Qabs (n - g) <= 1 # 10000000)%Q ->
  (Qabs (p - n * (8687645442460993 # 562949953421312)) <= 1 # 100000)%Q ->
  (Qabs (r - p) <= 1 # 200)%Q ->
  (Qabs (r - x) <= 595 # 100000)%Q.
Proof.
  intros H1 H2 H3 H4 H5.
  apply Qabs_Qle_condition in H1, H2, H3, H4, H5. apply Qabs_Qle_condition.
  split; lra.
Qed.

(** The round trip on a positive Number below [2^30]: the grains text is
    a decimal with two fraction digits, within 0.00595 of the Number. *)
Lemma grainsRoundTrip_finite (val : string) (w : State) (m : positive) (e : Z) :
  parseFloat val = S754_finite false m e ->
  (inject_Z (Zpos m) * pow2 e < pow2 30)%Q ->
  exists N2,
    0 <= N2
    /\ grainsRoundTrip val w = fixed_digits N2 2
    /\ (Qabs (inject_Z N2 * (1 # 100) - inject_Z (Zpos m) * pow2 e)
        <= 595 # 100000)%Q.
Proof.
  intros Hx Hlt.
  assert (Hv : (0 < inject_Z (Zpos m) * pow2 e)%Q).
  { apply Qmult_lt_0_compat; [reflexivity | apply pow2_pos]. }
  set (X := (inject_Z (Zpos m) * pow2 e)%Q) in *.
  assert (E30 : (pow2 30 == 1073741824)%Q) by reflexivity.
  assert (E35 : (pow2 35 == 34359738368)%Q) by reflexivity.
  assert (E21 : (inject_Z (10 ^ 21) == 1000000000000000000000)%Q) by reflexivity.
  assert (EK : (to_Q GRAINS_PER_GRAM == 8687645442460993 # 562949953421312)%Q)
    by (vm_compute; reflexivity).
  rewrite E30 in Hlt.
  (* grains to grams *)
  assert (Hx35 : (to_Q (S754_finite false m e) < pow2 35)%Q).
  { cbn [to_Q]. fold X. rewrite E35. lra. }
  destruct (div_K_bound (S754_finite false m e)
              (or_intror (ex_intro _ m (ex_intro _ e eq_refl))) Hx35) as [Hqn Hqb].
  cbn [to_Q] in Hqb. fold X in Hqb.
  set (q := div (S754_finite false m e) GRAINS_PER_GRAM) in *.
  assert (Einv : (X / to_Q GRAINS_PER_GRAM
                  == X * (562949953421312 # 8687645442460993))%Q).
  { rewrite EK. reflexivity. }
  rewrite Einv in Hqb.
  assert (E1 : (5 * pow2 (-21) <= 1 # 100000)%Q) by (vm_compute; discriminate).
  assert (Hq1 : (Qabs (to_Q q - X * (562949953421312 # 8687645442460993))
                 <= 1 # 100000)%Q) by (eapply Qle_trans; [exact Hqb | exact E1]).
  pose proof (nonneg_finite_to_Q q Hqn) as Hq0.
  assert (Hqlt : (to_Q q < inject_Z (10 ^ 21))%Q).
  { apply Qabs_Qle_condition in Hq1. rewrite E21. lra. }
  destruct (toFixed_nonneg q 3 Hqn Hqlt) as (N4 & HN4 & HT4 & HB4).
  assert (Ep4 : (pow10 (- Z.of_nat 4) == 1 # 10000)%Q) by reflexivity.
  rewrite Ep4 in HB4.
  assert (HN4lt : N4 < 2 ^ 40).
  { apply Qabs_Qle_condition in Hq1, HB4. rewrite Zlt_Qlt.
    assert (E40 : (inject_Z (2 ^ 40) == 1099511627776)%Q) by reflexivity.
    rewrite E40. lra. }
  (* reading the grams text *)
  destruct (of_decimal_4_bound N4 (conj HN4 HN4lt)) as [Hnn Hnb].
  pose proof (parseFloat_fixed_digits N4 3 HN4) as Hparse.
  change (- Z.of_nat 4) with (-4) in Hparse.
  set (n := of_decimal false N4 (-4)) in *.
  assert (E2 : (5 * pow2 (-26) <= 1 # 10000000)%Q) by (vm_compute; discriminate).
  assert (Hn1 : (Qabs (to_Q n - inject_Z N4 * (1 # 10000)) <= 1 # 10000000)%Q)
    by (eapply Qle_trans; [exact Hnb | exact E2]).
  assert (Hnle : (to_Q n <= 1000000000)%Q).
  { apply Qabs_Qle_condition in Hq1, HB4, Hn1. lra. }
  (* grams to grains *)
  destruct (mul_K_bound_nonneg n Hnn Hnle) as [Hpn Hpb].
  set (p := mul n GRAINS_PER_GRAM) in *.
  rewrite EK in Hpb.
  assert (E3 : (4 * pow2 (-19) <= 1 # 100000)%Q) by (vm_compute; discriminate).
  assert (Hp1 : (Qabs (to_Q p - to_Q n * (8687645442460993 # 562949953421312))
                 <= 1 # 100000)%Q) by (eapply Qle_trans; [exact Hpb | exact E3]).
  assert (Hplt : (to_Q p < inject_Z (10 ^ 21))%Q).
  { apply Qabs_Qle_condition in Hp1. rewrite E21. lra. }
  destruct (toFixed_nonneg p 1 Hpn Hplt) as (N2 & HN2 & HT2 & HB2).
  assert (Ep2 : (pow10 (- Z.of_nat 2) == 1 # 100)%Q) by reflexivity.
  rewrite Ep2 in HB2.
  (* the handlers *)
  exists N2. split; [exact HN2|]. split.
  - unfold grainsRoundTrip, handleGrainsChange. rewrite Hx.
    cbn [isNaN negb setConvGrams setConvGrains convGrains convGrams].
    fold q. rewrite HT4. unfold handleGramsChange. rewrite Hparse.
    rewrite (nonneg_finite_not_NaN n Hnn).
    cbn [negb setConvGrams setConvGrains convGrains convGrams].
    fold p. exact HT2.
  - apply (round_trip_back_chain X (to_Q q) (inject_Z N4 * (1 # 10000)) (to_Q n) (to_Q p));
      assumption.
Qed.

(** X15. The round trip in the other direction is tighter: for every
    positive weight of at most [10^9] grains, typing it into the grains
    field and typing the grams text that appears back into the grams field
    gives a grains text that is a decimal within 0.006 of the weight, less
    than one unit of its second decimal place. *)
Theorem grainsRoundTrip_within (val : string) (w : State) :
  (0 < to_Q (parseFloat val))%Q ->
  (to_Q (parseFloat val) <= 1000000000)%Q ->
  exists r,
    MV (grainsRoundTrip val w) = Some r
    /\ (Qabs (r - to_Q (parseFloat val)) <= 6 # 1000)%Q.
Proof.
  intros Hpos Hle.
  destruct (parseFloat val) as [s|s| |s m e] eqn:Hx; cbn [to_Q] in Hpos;
    try (exfalso; exact (Qlt_irrefl 0 Hpos)).
  assert (Hv : (0 < inject_Z (Zpos m) * pow2 e)%Q).
  { apply Qmult_lt_0_compat; [reflexivity | apply pow2_pos]. }
  destruct s.
  { exfalso. cbv zeta in Hpos. lra. }
  cbn [to_Q] in Hle |- *.
  assert (Hlt : (inject_Z (Zpos m) * pow2 e < pow2 30)%Q).
  { eapply Qle_lt_trans; [exact Hle|]. reflexivity. }
  destruct (grainsRoundTrip_finite val w m e Hx Hlt) as (N2 & HN2 & HT & HB).
  exists (inject_Z N2 * pow10 (- Z.of_nat 2))%Q. split.
  - rewrite HT. apply (MV_fixed_digits false N2 1 HN2).
  - assert (Ep2 : (pow10 (- Z.of_nat 2) == 1 # 100)%Q) by reflexivity.
    rewrite Ep2. eapply Qle_trans; [exact HB|]. discriminate.
Qed.

Lemma grainsRoundTrip_within_witness :
  exists r,
    MV (grainsRoundTrip "42.5" (initial ∅)) = Some r
    /\ (Qabs (r - to_Q (parseFloat "42.5")) <= 6 # 1000)%Q.
Proof.
  apply (grainsRoundTrip_within "42.5" (initial ∅)).
  - vm_compute. reflexivity.
  - vm_compute. discriminate.
Defined.

(** X16. A grains value with two decimals survives the round trip: when
    the text typed into the grains field reads as [N / 100] with
    [0 <= N <= 10^11], the grains text after the round trip through grams
    is [N] written with two decimals.  (The round trip that starts from
    grams loses up to 0.0004 g.) *)
Theorem grainsRoundTrip_two_decimals (val : string) (N : Z) (w : State) :
  0 <= N <= 10 ^ 11 ->
  parseFloat val = of_decimal false N (-2) ->
  grainsRoundTrip val w = fixed_digits N 2.
Proof.
  intros HN Hx.
  assert (HN41 : 0 <= N < 2 ^ 41) by lia.
  destruct (of_decimal_2_bound N HN41) as [Hnn Hnb].
  destruct Hnn as [Hz|(m & e & Hf)].
  - (* the Number is +0 *)
    assert (N0 : N = 0).
    { destruct N as [|d|d]; [reflexivity| |lia].
      exfalso. rewrite Hz in Hnb. cbn [to_Q] in Hnb.
      apply Qabs_Qle_condition in Hnb.
      assert (E : (5 * pow2 (-18) <= 1 # 1000)%Q) by (vm_compute; discriminate).
      assert (H1 : (1 <= inject_Z (Zpos d))%Q).
      { change 1%Q with (inject_Z 1). rewrite <- Zle_Qle. lia. }
      lra. }
    subst N. unfold grainsRoundTrip, handleGrainsChange. rewrite Hx.
    vm_compute. reflexivity.
  - rewrite Hf in Hx, Hnb. cbn [to_Q] in Hnb.
    assert (E : (5 * pow2 (-18) <= 2 # 100000)%Q) by (vm_compute; discriminate).
    assert (Hnb' : (Qabs (inject_Z (Zpos m) * pow2 e - inject_Z N * (1 # 100))
                    <= 2 # 100000)%Q) by (eapply Qle_trans; [exact Hnb | exact E]).
    apply Qabs_Qle_condition in Hnb'.
    assert (HNq : (inject_Z N <= 100000000000)%Q).
    { change 100000000000%Q with (inject_Z (10 ^ 11)). rewrite <- Zle_Qle. lia. }
    assert (Hlt : (inject_Z (Zpos m) * pow2 e < pow2 30)%Q).
    { assert (E30 : (pow2 30 == 1073741824)%Q) by reflexivity. rewrite E30. lra. }
    destruct (grainsRoundTrip_finite val w m e Hx Hlt) as (N2 & HN2 & HT & HB).
    apply Qabs_Qle_condition in HB.
    assert (Heq : N2 = N).
    { assert (H1 : N2 < N + 1).
      { rewrite Zlt_Qlt, inject_Z_plus. change (inject_Z 1) with 1%Q. lra. }
      assert (H2 : N < N2 + 1).
      { rewrite Zlt_Qlt, inject_Z_plus. change (inject_Z 1) with 1%Q. lra. }
      lia. }
    rewrite HT, Heq. reflexivity.
Qed.

Lemma grainsRoundTrip_two_decimals_witness :
  grainsRoundTrip "15.43" (initial ∅) = "15.43".
Proof.
  exact (grainsRoundTrip_two_decimals "15.43" 1543 (initial ∅)
           ltac:(lia) eq_refl).
Defined.

End ConverterBack.

(** ** Unit converter: the computed field always reads as a number *)

Section ConverterParses.

Import App Page.
Local Open Scope string_scope.
Local Open Scope Z_scope.

(** Rounding a mantissa that is not negative never gives NaN. *)
Lemma binary_round_aux_not_NaN (s : bool) (m e : Z) (l : location) :
  0 <= m -> isNaN (binary_round_aux prec emax s m e l) = false.
Proof.
  intros Hm. rewrite binary_round_aux_unfold. cbv zeta. unfold shr_fexp.
  set (n1 := fexp prec emax (Zdigits2 m + e) - e).
  destruct (shr_spec (shr_record_of_loc m l) e n1) as [_ Hm1].
  { rewrite shr_record_of_loc_m. exact Hm. }
  rewrite shr_record_of_loc_m in Hm1.
  set (p1 := shr (shr_record_of_loc m l) e n1) in *.
  assert (H1 : 0 <= shr_m (fst p1)).
  { rewrite Hm1. apply Z.div_pos; [exact Hm | apply Z.pow_pos_nonneg; lia]. }
  set (m1 := round_nearest_even (shr_m (fst p1)) (loc_of_shr_record (fst p1))).
  assert (H2 : 0 <= m1).
  { unfold m1.
    destruct (round_nearest_even_cases (shr_m (fst p1)) (loc_of_shr_record (fst p1)))
      as [-> | ->]; lia. }
  set (n2 := fexp prec emax (Zdigits2 m1 + snd p1) - snd p1).
  destruct (shr_spec (shr_record_of_loc m1 loc_Exact) (snd p1) n2) as [_ Hm2].
  { rewrite shr_record_of_loc_m. exact H2. }
  rewrite shr_record_of_loc_m in Hm2.
  set (p2 := shr (shr_record_of_loc m1 loc_Exact) (snd p1) n2) in *.
  assert (H3 : 0 <= shr_m (fst p2)).
  { rewrite Hm2. apply Z.div_pos; [exact H2 | apply Z.pow_pos_nonneg; lia]. }
  destruct (shr_m (fst p2)) as [|p|p]; [reflexivity| |lia].
  destruct (snd p2 <=? emax - prec); reflexivity.
Qed.

Lemma div_finite_not_NaN (s1 s2 : bool) (m1 m2 : positive) (e1 e2 : Z) :
  isNaN (div (S754_finite s1 m1 e1) (S754_finite s2 m2 e2)) = false.
Proof.
  unfold div. cbn [SFdiv].
  destruct (div_core_spec m1 m2 e1 e2) as (q & e' & l & s & -> & _ & _ & _ & Hq & _).
  apply binary_round_aux_not_NaN, Hq.
Qed.

Lemma of_decimal_not_NaN (s : bool) (d e : Z) : isNaN (of_decimal s d e) = false.
Proof.
  unfold of_decimal, of_ratio.
  destruct d as [|p|p]; [reflexivity| |reflexivity].
  destruct e as [|k|k]; apply div_finite_not_NaN.
Qed.

Lemma div_K_not_NaN (x : number) :
  isNaN x = false -> isNaN (div x GRAINS_PER_GRAM) = false.
Proof.
  destruct x as [s|s| |s m e]; try discriminate; intros _; try reflexivity.
  apply div_finite_not_NaN.
Qed.

Lemma mul_K_not_NaN (x : number) :
  isNaN x = false -> isNaN (mul x GRAINS_PER_GRAM) = false.
Proof.
  destruct x as [s|s| |s m e]; try discriminate; intros _; try reflexivity.
  unfold mul, GRAINS_PER_GRAM. cbn [SFmul].
  apply binary_round_aux_not_NaN. lia.
Qed.

(** A text that starts with a digit, with or without a minus sign before
    it, reads as a number. *)
Lemma scan_unsigned_digit_head (c : ascii) (r : string) :
  is_digit c = true -> exists d e, scan_unsigned (String c r) = Some (d, e).
Proof.
  intros Hc. unfold scan_unsigned. cbn [scan_digits]. rewrite Hc.
  pose proof (scan_digits_count r (10 * 0 + digit_val c) (0 + 1)) as [_ Hn].
  destruct (scan_digits r (10 * 0 + digit_val c) (0 + 1)) as [[i ni] r1].
  cbn [fst snd] in Hn.
  assert (Hpos : (0 <? ni) = true) by (apply Z.ltb_lt; lia).
  destruct r1 as [|c1 r2].
  - rewrite Hpos. eauto.
  - destruct (ascii_dec c1 ".") as [->|Hne].
    + destruct (scan_digits r2 i 0) as [[d nf] r3]. rewrite Hpos. cbn [orb]. eauto.
    + assert (E : (match c1 with
                   | "."%char => 
                       let '(d, nf, r3) := scan_digits r2 i 0 in
                       if (0 <? ni) || (0 <? nf)
                       then Some (d, scan_exponent r3 - nf) else None
                   | _ => if 0 <? ni then Some (i, scan_exponent (String c1 r2)) else None
                   end) = Some (i, scan_exponent (String c1 r2))).
      { rewrite Hpos.
        destruct c1 as [[] [] [] [] [] [] [] []]; try reflexivity.
        exfalso. apply Hne. reflexivity. }
      eauto.
Qed.

Lemma parseFloat_digit_head (sg : bool) (c : ascii) (r : string) :
  is_digit c = true ->
  isNaN (parseFloat ((if sg then "-" else "") ++ String c r)) = false.
Proof.
  intros Hc. destruct (scan_unsigned_digit_head c r Hc) as (d & e & Hs).
  destruct (digit_head_literal c r Hc) as [Ht Hl].
  destruct sg.
  - rewrite append_cons, append_nil_l.
    pose proof (is_digit_range c Hc) as Hr.
    assert (Htrim : trim_start (String "-" (String c r)) = String "-" (String c r)).
    { destruct r as [|b r']; reflexivity. }
    unfold parseFloat. rewrite Htrim. unfold str_decimal_literal.
    assert (Hinf : starts_with "Infinity" (String c r) = false).
    { cbn [starts_with]. replace (code "I" =? code c) with false; [reflexivity|].
      symmetry. apply Z.eqb_neq. change (code "I") with 73. lia. }
    rewrite Hinf, Hs. apply of_decimal_not_NaN.
  - rewrite append_nil_l. unfold parseFloat. rewrite Ht, Hl, Hs.
    apply of_decimal_not_NaN.
Qed.

Lemma digits_aux_head (fuel : nat) (n : Z) (c : ascii) (acc : string) :
  is_digit c = true ->
  exists c' r', digits_aux fuel n (String c acc) = String c' r' /\ is_digit c' = true.
Proof.
  revert n c acc. induction fuel as [|k IH]; intros n c acc Hc; cbn [digits_aux].
  - eauto.
  - destruct (n <? 10).
    + eexists _, _. split; [reflexivity|].
      apply digit_char_ok, Z.mod_pos_bound. lia.
    + apply IH. apply digit_char_ok, Z.mod_pos_bound. lia.
Qed.

Lemma decimal_digits_head (n : Z) :
  exists c r, decimal_digits n = String c r /\ is_digit c = true.
Proof.
  unfold decimal_digits. cbn [digits_aux].
  assert (Hd : is_digit (digit_char (n mod 10)) = true)
    by (apply digit_char_ok, Z.mod_pos_bound; lia).
  destruct (n <? 10); [eauto|]. apply digits_aux_head, Hd.
Qed.

Lemma format_shortest_head (c : ascii) (r : string) (n : Z) :
  is_digit c = true ->
  exists c' r', format_shortest (String c r) n = String c' r' /\ is_digit c' = true.
Proof.
  intros Hc. unfold format_shortest.
  destruct ((Z.of_nat (String.length (String c r)) <=? n) && (n <=? 21)).
  { rewrite append_cons. eauto. }
  destruct ((0 <? n) && (n <=? 21)) eqn:E2.
  { apply andb_true_iff in E2. destruct E2 as [E2 _]. apply Z.ltb_lt in E2.
    destruct (Z.to_nat n) as [|k] eqn:Ek; [lia|].
    cbn [take]. rewrite append_cons. eauto. }
  destruct ((-6 <? n) && (n <=? 0)).
  { rewrite append_cons. eexists _, _. split; reflexivity. }
  destruct (Z.of_nat (String.length (String c r)) =? 1).
  - rewrite append_cons. eauto.
  - cbn [take]. rewrite append_cons. eauto.
Qed.

(** What [toFixed] returns for a Number that is not NaN: the name of an
    infinity, or a text that starts with a digit after an optional minus
    sign. *)
Lemma toFixed_head (x : number) (f : nat) :
  isNaN x = false ->
  toFixed x (S f) = "Infinity" \/ toFixed x (S f) = "-Infinity"
  \/ exists (sg : bool) c r, toFixed x (S f) = (if sg then "-" else "") ++ String c r
                    /\ is_digit c = true.
Proof.
  destruct x as [s|s| |s m e]; try discriminate; intros _.
  - right. right. destruct (fixed_digits_shape 0 f ltac:(lia)) as (c & r & E & Hc & _).
    exists false, c, r. cbn [toFixed]. rewrite E, append_nil_l. auto.
  - destruct s; cbn; auto.
  - right. right. unfold toFixed. destruct (ratio_of m e) as [num den] eqn:Er.
    exists s. destruct (10 ^ 21 * den <=? num).
    + unfold NumberToString. rewrite Er.
      destruct (shortest_from 17 (S754_finite false m e) num den (exp10 num den) 1)
        as [sg n].
      destruct (decimal_digits_head sg) as (c & r & -> & Hc).
      destruct (format_shortest_head c r n Hc) as (c' & r' & E & Hc').
      exists c', r'. rewrite append_nil_l, E. auto.
    + destruct (nearest_scaled_bound m e (S f)) as [Hn _].
      destruct (fixed_digits_shape (nearest_scaled m e (S f)) f Hn) as (c & r & E & Hc & _).
      exists c, r. rewrite E. auto.
Qed.

Lemma parseFloat_toFixed (x : number) (f : nat) :
  isNaN x = false -> isNaN (parseFloat (toFixed x (S f))) = false.
Proof.
  intros Hx. destruct (toFixed_head x f Hx) as [-> | [-> | (sg & c & r & -> & Hc)]];
    [reflexivity | reflexivity | apply parseFloat_digit_head, Hc].
Qed.

(** X17. The converter never writes text that does not read as a number:
    whenever the text typed into one field parses (finite or not), the
    text computed for the other field parses too, so it can be typed back.
    In particular the computed field never shows [NaN]. *)
Theorem converter_output_parses (val : string) (w : State) :
  isNaN (parseFloat val) = false ->
  isNaN (parseFloat (convGrams (handleGrainsChange val w))) = false
  /\ isNaN (parseFloat (convGrains (handleGramsChange val w))) = false.
Proof.
  intros H. unfold handleGrainsChange, handleGramsChange. rewrite H.
  cbn [negb setConvGrams setConvGrains convGrams convGrains]. split.
  - apply (parseFloat_toFixed _ 3), div_K_not_NaN, H.
  - apply (parseFloat_toFixed _ 1), mul_K_not_NaN, H.
Qed.

Lemma converter_output_parses_witness :
  isNaN (parseFloat (convGrams (handleGrainsChange "-1e400" (initial ∅)))) = false
  /\ isNaN (parseFloat (convGrains (handleGramsChange "2e30" (initial ∅)))) = false.
Proof.
  split.
  - exact (proj1 (converter_output_parses "-1e400" (initial ∅) eq_refl)).
  - exact (proj2 (converter_output_parses "2e30" (initial ∅) eq_refl)).
Defined.

End ConverterParses.

(** ** Load log: what is stored is what is read again *)

Section Persistence2.

Import App Page JSON.
Local Open Scope string_scope.
Local Open Scope Z_scope.

(** *** Strings *)

(** One escaped character is read back as that character. *)
Lemma read_char_escape (c : ascii) (t : string) :
  read_char (escape_char c ++ t) = Char (String c "") t.
Proof. destruct c as [[] [] [] [] [] [] [] []]; reflexivity. Qed.

Lemma parse_chars_escape (s acc t : string) :
  parse_chars (S (String.length s)) (escape s ++ quote ++ t) acc = Some (acc ++ s, t).
Proof.
  revert acc. induction s as [|c s IH]; intros acc.
  - rewrite append_nil_r. reflexivity.
  - cbn [escape String.length]. rewrite append_assoc.
    change (parse_chars (S (S (String.length s))) (escape_char c ++ escape s ++ quote ++ t) acc)
      with (match read_char (escape_char c ++ escape s ++ quote ++ t) with
            | Close r => Some (acc, r)
            | Char bytes r => parse_chars (S (String.length s)) r (acc ++ bytes)
            | Bad => None
            end).
    rewrite read_char_escape, IH, append_assoc. reflexivity.
Qed.

(** Any text, whatever bytes it holds, is read back from its quoted form. *)
Lemma parse_string_escape (s t : string) :
  parse_string (escape s ++ quote ++ t) = Some (s, t).
Proof.
  unfold parse_string.
  pose proof (parse_chars_escape s "" t) as H. rewrite append_nil_l in H.
  destruct (parse_chars_fuel _ _ _ _ _ H) as [_ Hf]. apply Hf. lia.
Qed.

(** *** Numbers *)

(** A scan that stopped at a character stops there whatever follows. *)
Lemma scan_digits_ext (s u : string) (acc n : Z) :
  snd (scan_digits s acc n) <> "" ->
  scan_digits (s ++ u) acc n
  = (fst (scan_digits s acc n), snd (scan_digits s acc n) ++ u).
Proof.
  revert acc n. induction s as [|c s IH]; intros acc n H.
  - exfalso. apply H. reflexivity.
  - rewrite append_cons. cbn [scan_digits] in *. destruct (is_digit c).
    + apply IH, H.
    + reflexivity.
Qed.

Lemma same_number_eq (a b : number) : same_number a b = true -> a = b.
Proof.
  destruct a as [s|s| |s m e], b as [t|t| |t n f]; try discriminate; cbn [same_number].
  - intros H. apply Bool.eqb_prop in H. now subst.
  - intros H. apply Bool.eqb_prop in H. now subst.
  - reflexivity.
  - intros H. apply andb_true_iff in H. destruct H as [H H3].
    apply andb_true_iff in H. destruct H as [H1 H2].
    apply Bool.eqb_prop in H1. apply Z.eqb_eq in H2, H3.
    injection H2 as ->. now subst.
Qed.

Lemma match_dot_other {A : Type} (c : ascii) (a b : A) :
  c <> "."%char -> match c with "."%char => a | _ => b end = b.
Proof.
  intros H. destruct c as [[] [] [] [] [] [] [] []]; try reflexivity.
  exfalso. apply H. reflexivity.
Qed.

(** The exponent part, or its absence, after the digits. *)
Lemma number_tail_ext (neg : bool) (d nf : Z) (c : ascii) (r4 u : string)
    (x : number) (r : string) :
  (if (code c =? 101) || (code c =? 69)
   then
     let '(eneg, r5) :=
       match r4 with
       | String "+" r0 => (false, r0)
       | String "-" r0 => (true, r0)
       | _ => (false, r4)
       end in
     let '(ev, ne, r6) := scan_digits r5 0 0 in
     if ne =? 0 then None
     else Some (of_decimal neg d ((if eneg then - ev else ev) - nf), r6)
   else Some (of_decimal neg d (- nf), String c r4)) = Some (x, r) ->
  r <> "" ->
  (if (code c =? 101) || (code c =? 69)
   then
     let '(eneg, r5) :=
       match r4 ++ u with
       | String "+" r0 => (false, r0)
       | String "-" r0 => (true, r0)
       | _ => (false, r4 ++ u)
       end in
     let '(ev, ne, r6) := scan_digits r5 0 0 in
     if ne =? 0 then None
     else Some (of_decimal neg d ((if eneg then - ev else ev) - nf), r6)
   else Some (of_decimal neg d (- nf), String c (r4 ++ u))) = Some (x, r ++ u).
Proof.
  destruct ((code c =? 101) || (code c =? 69)).
  2:{ intros H _. injection H as <- <-. reflexivity. }
  set (sg := match r4 with
             | String "+" r0 => (false, r0)
             | String "-" r0 => (true, r0)
             | _ => (false, r4)
             end).
  set (sg' := match r4 ++ u with
              | String "+" r0 => (false, r0)
              | String "-" r0 => (true, r0)
              | _ => (false, r4 ++ u)
              end).
  destruct r4 as [|c4 r5].
  { cbn. discriminate. }
  assert (Hsg : sg' = (fst sg, snd sg ++ u)).
  { unfold sg, sg'. rewrite append_cons.
    destruct c4 as [[] [] [] [] [] [] [] []]; reflexivity. }
  rewrite Hsg. destruct sg as [eneg r5']. cbn [fst snd]. clear sg' Hsg.
  destruct (scan_digits r5' 0 0) as [[ev ne] r6] eqn:E.
  destruct (ne =? 0) eqn:Ene; [discriminate|].
  intros H Hr. injection H as <- <-.
  pose proof (scan_digits_ext r5' u 0 0) as E'. rewrite E in E'. cbn [fst snd] in E'.
  rewrite (E' Hr), Ene. reflexivity.
Qed.

(** A JSONNumber that ended at a character is the same number before any
    continuation of the text. *)
Lemma parse_number_ext (s u : string) (x : number) (r : string) :
  parse_number s = Some (x, r) -> r <> "" ->
  parse_number (s ++ u) = Some (x, r ++ u).
Proof.
  unfold parse_number.
  set (nb := match s with String "-" r0 => (true, r0) | _ => (false, s) end).
  set (nb' := match s ++ u with String "-" r0 => (true, r0) | _ => (false, s ++ u) end).
  destruct s as [|c0 s0].
  { cbn. discriminate. }
  assert (Hnb : nb' = (fst nb, snd nb ++ u)).
  { unfold nb, nb'. rewrite append_cons.
    destruct c0 as [[] [] [] [] [] [] [] []]; reflexivity. }
  rewrite Hnb. destruct nb as [neg body]. cbn [fst snd]. clear nb' Hnb.
  destruct (scan_digits body 0 0) as [[i ni] r1] eqn:E1.
  destruct (ni =? 0) eqn:Eni; [discriminate|]. cbn [orb].
  assert (Hbody : body <> "").
  { intros ->. cbn in E1. injection E1 as _ <- _. discriminate. }
  assert (Hlz : match body ++ u with String "0" _ => true | _ => false end
                = match body with String "0" _ => true | _ => false end).
  { destruct body as [|b0 body0]; [contradiction|]. reflexivity. }
  destruct r1 as [|c1 r1'].
  { destruct (_ && _); [discriminate|]. intros H; injection H as _ <-. contradiction. }
  pose proof (scan_digits_ext body u 0 0) as E1'. rewrite E1 in E1'.
  cbn [fst snd] in E1'. rewrite (E1' ltac:(discriminate)). clear E1'.
  rewrite Eni, Hlz. cbn [orb].
  destruct (_ && _); [discriminate|].
  rewrite append_cons.
  destruct (ascii_dec c1 ".") as [->|Hne].
  - destruct (scan_digits r1' i 0) as [[d nf] r3] eqn:E2.
    destruct (nf =? 0) eqn:Enf; [discriminate|].
    destruct r3 as [|c r4].
    { intros H; injection H as _ <-. contradiction. }
    pose proof (scan_digits_ext r1' u i 0) as E2'. rewrite E2 in E2'.
    cbn [fst snd] in E2'. rewrite (E2' ltac:(discriminate)), Enf. clear E2'.
    rewrite append_cons. apply number_tail_ext.
  - rewrite !(match_dot_other c1 _ _ Hne). apply number_tail_ext.
Qed.

Lemma match_minus_other {A : Type} (c : ascii) (a b : A) :
  c <> "-"%char -> match c with "-"%char => a | _ => b end = b.
Proof.
  intros H. destruct c as [[] [] [] [] [] [] [] []]; try reflexivity.
  exfalso. apply H. reflexivity.
Qed.

(** A JSONNumber starts with a minus sign or a digit. *)
Lemma parse_number_head (s : string) (x : number) (r : string) :
  parse_number s = Some (x, r) ->
  exists c s0, s = String c s0 /\ (code c = 45 \/ 48 <= code c <= 57).
Proof.
  unfold parse_number. destruct s as [|c s0]; [cbn; discriminate|].
  intros H. exists c, s0. split; [reflexivity|].
  destruct (ascii_dec c "-") as [->|Hne]; [left; reflexivity|]. right.
  rewrite (match_minus_other c _ _ Hne) in H.
  cbn [scan_digits] in H. destruct (is_digit c) eqn:Ec; [apply is_digit_range, Ec|].
  cbn in H. discriminate.
Qed.

(** What [reads_back] gives, in the place where a number stands. *)
Lemma parse_value_number (f : nat) (x : number) (t : string) :
  reads_back x = true ->
  isFinite x = true
  /\ parse_value (S f) (NumberToString x ++ "," ++ t) = Some (Number x, "," ++ t).
Proof.
  unfold reads_back. intros H. apply andb_true_iff in H. destruct H as [Hfin H].
  split; [exact Hfin|].
  destruct (parse_number (NumberToString x ++ ",")) as [[y r]|] eqn:E; [|discriminate].
  apply andb_true_iff in H. destruct H as [Hy Hr].
  apply same_number_eq in Hy. apply String.eqb_eq in Hr. subst y r.
  pose proof (parse_number_ext _ t _ _ E ltac:(discriminate)) as E'.
  rewrite append_assoc in E'.
  destruct (parse_number_head _ _ _ E') as (c & s0 & Es & Hc).
  rewrite Es in *. rewrite parse_value_S.
  assert (Hws : is_ws c = false).
  { unfold is_ws. destruct Hc as [Hc|Hc];
      repeat (apply orb_false_iff; split); apply Z.eqb_neq; lia. }
  cbn [skip_ws]. rewrite Hws.
  replace (code c =? 123) with false by (symmetry; apply Z.eqb_neq; lia).
  replace (code c =? 91) with false by (symmetry; apply Z.eqb_neq; lia).
  unfold parse_scalar.
  replace (code c =? 34) with false by (symmetry; apply Z.eqb_neq; lia).
  replace (code c =? 116) with false by (symmetry; apply Z.eqb_neq; lia).
  replace (code c =? 102) with false by (symmetry; apply Z.eqb_neq; lia).
  replace (code c =? 110) with false by (symmetry; apply Z.eqb_neq; lia).
  rewrite E'. reflexivity.
Qed.

(** *** Values in their places *)

Lemma parse_value_string (f : nat) (s t : string) :
  parse_value (S f) (quote_string s ++ t) = Some (Str s, t).
Proof.
  rewrite parse_value_S. unfold quote_string. rewrite !append_assoc.
  change (quote ++ escape s ++ quote ++ t)
    with (String (byte 34) (escape s ++ quote ++ t)).
  cbn [skip_ws]. change (is_ws (byte 34)) with false. cbv iota.
  change (code (byte 34) =? 123) with false.
  change (code (byte 34) =? 91) with false. cbv iota.
  unfold parse_scalar. change (code (byte 34) =? 34) with true. cbv iota.
  rewrite parse_string_escape. reflexivity.
Qed.

(** One property of an object followed by another one. *)
Lemma parse_member_comma (f : nat) (k tv : string) (v : value) (t : string)
    (acc : list (string * value)) :
  parse_value f (tv ++ "," ++ t) = Some (v, "," ++ t) ->
  parse_members (S f) (quote_string k ++ ":" ++ tv ++ "," ++ t) acc
  = parse_members f t (set_prop k v acc).
Proof.
  intros Hv. rewrite parse_members_S. unfold quote_string. rewrite !append_assoc.
  change (quote ++ escape k ++ quote ++ ":" ++ tv ++ "," ++ t)
    with (String (byte 34) (escape k ++ quote ++ ":" ++ tv ++ "," ++ t)).
  cbn [skip_ws]. change (is_ws (byte 34)) with false. cbv iota.
  change (code (byte 34) =? 34) with true. cbv iota.
  rewrite parse_string_escape.
  change (":" ++ tv ++ "," ++ t) with (String ":" (tv ++ "," ++ t)).
  cbn [skip_ws]. change (is_ws ":") with false. cbv iota.
  change (code ":" =? 58) with true. cbv iota.
  rewrite Hv.
  change ("," ++ t) with (String "," t).
  cbn [skip_ws]. change (is_ws ",") with false. cbv iota.
  change (code "," =? 44) with true. cbv iota. reflexivity.
Qed.

(** The last property of an object. *)
Lemma parse_member_last (f : nat) (k tv : string) (v : value) (t : string)
    (acc : list (string * value)) :
  parse_value f (tv ++ "}" ++ t) = Some (v, "}" ++ t) ->
  parse_members (S f) (quote_string k ++ ":" ++ tv ++ "}" ++ t) acc
  = Some (Object (set_prop k v acc), t).
Proof.
  intros Hv. rewrite parse_members_S. unfold quote_string. rewrite !append_assoc.
  change (quote ++ escape k ++ quote ++ ":" ++ tv ++ "}" ++ t)
    with (String (byte 34) (escape k ++ quote ++ ":" ++ tv ++ "}" ++ t)).
  cbn [skip_ws]. change (is_ws (byte 34)) with false. cbv iota.
  change (code (byte 34) =? 34) with true. cbv iota.
  rewrite parse_string_escape.
  change (":" ++ tv ++ "}" ++ t) with (String ":" (tv ++ "}" ++ t)).
  cbn [skip_ws]. change (is_ws ":") with false. cbv iota.
  change (code ":" =? 58) with true. cbv iota.
  rewrite Hv.
  change ("}" ++ t) with (String "}" t).
  cbn [skip_ws]. change (is_ws "}") with false. cbv iota.
  change (code "}" =? 44) with false. change (code "}" =? 125) with true.
  cbv iota. reflexivity.
Qed.

Lemma quoted_head (k t : string) :
  exists tl, quote_string k ++ t = String (byte 34) tl.
Proof. unfold quote_string. rewrite !append_assoc. eexists. reflexivity. Qed.

(** The text that is stored for one record. *)
Lemma stringify_record (r : LoadRecord.t) (t : string) :
  numbers_read_back r ->
  stringify (LoadRecord.to_json r) ++ t
  = String "{"
      (quote_string "id" ++ ":" ++ quote_string (LoadRecord.id r) ++ "," ++
       quote_string "name" ++ ":" ++ quote_string (LoadRecord.name r) ++ "," ++
       quote_string "caliber" ++ ":" ++ quote_string (LoadRecord.caliber r) ++ "," ++
       quote_string "bulletWeight" ++ ":" ++
         NumberToString (LoadRecord.bulletWeight r) ++ "," ++
       quote_string "powderType" ++ ":" ++ quote_string (LoadRecord.powderType r) ++ "," ++
       quote_string "powderCharge" ++ ":" ++
         NumberToString (LoadRecord.powderCharge r) ++ "," ++
       quote_string "primerType" ++ ":" ++ quote_string (LoadRecord.primerType r) ++ "," ++
       quote_string "date" ++ ":" ++ quote_string (LoadRecord.date r) ++ "}" ++ t).
Proof.
  intros [Hb Hc].
  unfold LoadRecord.to_json. cbn [stringify List.map fst snd join].
  rewrite (proj1 (parse_value_number 0 _ "" Hb)).
  rewrite (proj1 (parse_value_number 0 _ "" Hc)).
  rewrite !append_assoc. reflexivity.
Qed.

(** One stored record is read back as that record, whatever follows. *)
Lemma parse_value_record (f : nat) (r : LoadRecord.t) (t : string) :
  numbers_read_back r ->
  parse_value (10 + f) (stringify (LoadRecord.to_json r) ++ t)
  = Some (LoadRecord.to_json r, t).
Proof.
  intros Hn. rewrite (stringify_record r t Hn). destruct Hn as [Hb Hc].
  change (10 + f)%nat with (S (S (S (S (S (S (S (S (S (S f)))))))))).
  rewrite parse_value_S. cbn [skip_ws]. change (is_ws "{") with false. cbv iota.
  change (code "{" =? 123) with true. cbv iota.
  match goal with
  | |- context [skip_ws (quote_string "id" ++ ?Y)] =>
      destruct (quoted_head "id" Y) as [tl E]
  end.
  rewrite E. cbn [skip_ws]. change (is_ws (byte 34)) with false. cbv iota.
  change (code (byte 34) =? 125) with false. cbv iota. rewrite <- E. clear tl E.
  rewrite (parse_member_comma _ "id" _ (Str (LoadRecord.id r)))
    by apply parse_value_string.
  rewrite (parse_member_comma _ "name" _ (Str (LoadRecord.name r)))
    by apply parse_value_string.
  rewrite (parse_member_comma _ "caliber" _ (Str (LoadRecord.caliber r)))
    by apply parse_value_string.
  rewrite (parse_member_comma _ "bulletWeight" _ (Number (LoadRecord.bulletWeight r)))
    by apply (parse_value_number _ _ _ Hb).
  rewrite (parse_member_comma _ "powderType" _ (Str (LoadRecord.powderType r)))
    by apply parse_value_string.
  rewrite (parse_member_comma _ "powderCharge" _ (Number (LoadRecord.powderCharge r)))
    by apply (parse_value_number _ _ _ Hc).
  rewrite (parse_member_comma _ "primerType" _ (Str (LoadRecord.primerType r)))
    by apply parse_value_string.
  rewrite (parse_member_last _ "date" _ (Str (LoadRecord.date r)))
    by apply parse_value_string.
  reflexivity.
Qed.

(** *** The list *)

Lemma stored_records (r : LoadRecord.t) (l : list LoadRecord.t) (t : string) :
  join "," (List.map stringify (List.map LoadRecord.to_json (r :: l))) ++ t
  = match l with
    | [] => stringify (LoadRecord.to_json r) ++ t
    | r2 :: l' =>
        stringify (LoadRecord.to_json r) ++ "," ++
        (join "," (List.map stringify (List.map LoadRecord.to_json (r2 :: l'))) ++ t)
    end.
Proof.
  destruct l as [|r2 l']; [reflexivity|].
  cbn [List.map join]. rewrite !append_assoc. reflexivity.
Qed.

Lemma parse_elements_records (l : list LoadRecord.t) (r : LoadRecord.t)
    (acc : list value) (t : string) (f : nat) :
  Forall numbers_read_back (r :: l) ->
  parse_elements (11 + length l + f)
    (join "," (List.map stringify (List.map LoadRecord.to_json (r :: l))) ++ "]" ++ t) acc
  = Some (Array (acc ++ List.map LoadRecord.to_json (r :: l))%list, t).
Proof.
  revert r acc. induction l as [|r2 l IH]; intros r acc H.
  - inversion H as [|x xs Hr _]; subst.
    rewrite stored_records.
    change (11 + length (@nil LoadRecord.t) + f)%nat with (S (10 + f)).
    rewrite parse_elements_S, (parse_value_record _ _ _ Hr).
    change ("]" ++ t) with (String "]" t).
    cbn [skip_ws]. change (is_ws "]") with false. cbv iota.
    change (code "]" =? 44) with false. change (code "]" =? 93) with true.
    reflexivity.
  - inversion H as [|x xs Hr Hl]; subst.
    rewrite stored_records.
    change (11 + length (r2 :: l) + f)%nat with (S (10 + (1 + length l + f))).
    rewrite parse_elements_S, (parse_value_record _ _ _ Hr).
    change ("," ++ ?X) with (String "," X).
    cbn [skip_ws]. change (is_ws ",") with false. cbv iota.
    change (code "," =? 44) with true. cbv iota.
    change (10 + (1 + length l + f))%nat with (11 + length l + f)%nat.
    rewrite (IH r2 (acc ++ [LoadRecord.to_json r])%list Hl).
    rewrite <- app_assoc. reflexivity.
Qed.

(** [JSON.parse] of what [saveLoads] stores. *)
Lemma parse_stored (l : list LoadRecord.t) :
  Forall numbers_read_back l ->
  parse (stored l) = Parsed (Array (List.map LoadRecord.to_json l)).
Proof.
  intros H. destruct l as [|r l]; [reflexivity|].
  assert (E : parse_value (S (11 + length l)) (stored (r :: l))
              = Some (Array (List.map LoadRecord.to_json (r :: l)), "")).
  { unfold stored. cbn [stringify].
    change ("[" ++ ?X) with (String "[" X).
    rewrite parse_value_S. cbn [skip_ws]. change (is_ws "[") with false. cbv iota.
    change (code "[" =? 123) with false. change (code "[" =? 91) with true. cbv iota.
    assert (Hhead : exists tl,
              join "," (List.map stringify (List.map LoadRecord.to_json (r :: l))) ++ "]"
              = String "{" tl).
    { rewrite stored_records. inversion H as [|x xs Hr _]; subst.
      destruct l as [|r2 l']; [|rewrite <- append_assoc];
        rewrite (stringify_record r _ Hr); eexists; reflexivity. }
    destruct Hhead as [tl Eh]. rewrite Eh at 1.
    cbn [skip_ws]. change (is_ws "{") with false. cbv iota.
    change (code "{" =? 93) with false. cbv iota.
    pose proof (parse_elements_records l r [] "" 0 H) as P.
    rewrite Nat.add_0_r in P. exact P. }
  unfold parse.
  destruct (proj1 (parse_consumes _) _ _ _ E) as [_ Hf].
  rewrite Hf by (cbn [String.length]; lia). reflexivity.
Qed.

Lemma loads_of_to_json (l : list LoadRecord.t) :
  loads_of_json (List.map LoadRecord.to_json l) = Some l.
Proof.
  induction l as [|r l IH]; [reflexivity|].
  cbn [List.map loads_of_json]. rewrite IH. destruct r. reflexivity.
Qed.

(** X18. What is stored is what is read again.  If the storage holds what
    [saveLoads] wrote for the list [l], the effect that runs at the next
    start of the page sets the list to exactly [l]: every text comes back
    byte for byte, whatever it holds (quotation marks, reverse solidus,
    control characters, bytes above 127), and the records in their order.
    The numbers must be finite and read back from their own decimal text,
    as 0, 168 and 42.5 do. *)
Theorem reload_restores (l : list LoadRecord.t) (w : State) :
  Forall numbers_read_back l ->
  localStorage w !! storageKey = Some (stored l) ->
  loadEffect w = Normal (setLoads l w).
Proof.
  intros Hn Hs. unfold loadEffect. rewrite Hs.
  assert (Hne : nonempty (stored l) = true).
  { unfold stored. cbn [stringify]. reflexivity. }
  cbn [present str_or]. rewrite Hne, (parse_stored l Hn), loads_of_to_json.
  reflexivity.
Qed.

Lemma reload_restores_witness :
  loadEffect (initial (localStorage (saveLoads [awkward; Samples.rec1] (initial ∅))))
  = Normal (setLoads [awkward; Samples.rec1]
              (initial (localStorage (saveLoads [awkward; Samples.rec1] (initial ∅))))).
Proof.
  apply reload_restores.
  - repeat constructor; vm_compute; reflexivity.
  - vm_compute. reflexivity.
Defined.

End Persistence2.

(** ** The tabs beside each other *)

Section Tabs.

Import App Page Samples.
Local Open Scope string_scope.

(** X19. Pressing [Speichern] twice saves once: a save empties the form,
    and without a name and a caliber nothing is saved; so a second call of
    [addLoad] right after a first one, with whatever uuid and date, never
    changes anything. *)
Theorem addLoad_twice (uuid today uuid' today' : string) (w : State) :
  addLoad uuid' today' (addLoad uuid today w) = addLoad uuid today w.
Proof.
  unfold addLoad at 2 3.
  destruct (present (PartialLoadRecord.name (newLoad w))
            && present (PartialLoadRecord.caliber (newLoad w))) eqn:E.
  - reflexivity.
  - unfold addLoad. rewrite E. reflexivity.
Qed.

Lemma step_other_keys (w : State) (a : Action) (k : string) :
  k <> storageKey -> localStorage (step w a) !! k = localStorage w !! k.
Proof.
  intros Hk. destruct a as [form|uuid today|i]; cbn [step].
  - reflexivity.
  - unfold addLoad. destruct (present _ && present _); [|reflexivity].
    cbn [setNewLoad saveLoads setItem setLoads localStorage].
    apply lookup_insert_ne. congruence.
  - cbn [deleteLoad saveLoads setItem setLoads localStorage].
    apply lookup_insert_ne. congruence.
Qed.

(** X20. The load log writes one key only: whatever is done on the load
    tab, every other key of the storage keeps its value (or stays
    absent). *)
Theorem storage_other_keys (actions : list Action) (w : State) (k : string) :
  k <> storageKey ->
  localStorage (run actions w) !! k = localStorage w !! k.
Proof.
  intros Hk. revert w. induction actions as [|a actions IH]; intros w; [reflexivity|].
  cbn [run List.fold_left]. change (List.fold_left step actions (step w a))
    with (run actions (step w a)).
  rewrite IH. apply step_other_keys, Hk.
Qed.

Lemma storage_other_keys_witness :
  localStorage (run [EditForm sampleForm; AddLoad "u1" "1.2.2026"; DeleteLoad "u1"]
                  (initial {["theme" := "dark"]})) !! "theme"
  = Some "dark".
Proof.
  rewrite (storage_other_keys _ _ "theme" ltac:(discriminate)).
  reflexivity.
Defined.

Lemma step_costStep (w : State) (a : Action) (c : CostAction) :
  step (costStep w c) a = costStep (step w a) c.
Proof.
  destruct a as [form|uuid today|i], c as [f value|]; cbn [step costStep];
    try reflexivity;
    unfold addLoad, onChange, resetCosts;
    cbn [setCosts newLoad];
    destruct (present _ && present _); reflexivity.
Qed.

Lemma run_costStep (actions : list Action) (w : State) (c : CostAction) :
  run actions (costStep w c) = costStep (run actions w) c.
Proof.
  revert w. induction actions as [|a actions IH]; intros w; [reflexivity|].
  cbn [run List.fold_left].
  change (List.fold_left step actions ?x) with (run actions x).
  rewrite step_costStep. apply IH.
Qed.

(** X21. Work on the cost tab and work on the load tab do not disturb each
    other: a session of cost edits and resets and a session of form edits,
    saves and deletions give the same state in either order. *)
Theorem cost_and_load_sessions_commute (edits : list CostAction)
    (actions : list Action) (w : State) :
  run actions (costRun edits w) = costRun edits (run actions w).
Proof.
  revert w. induction edits as [|c edits IH]; intros w; [reflexivity|].
  cbn [costRun List.fold_left].
  change (List.fold_left costStep edits ?x) with (costRun edits x).
  rewrite IH, run_costStep. reflexivity.
Qed.

(** X22. Deleting two records gives the same list and the same storage in
    either order, and deleting the same id twice is deleting it once. *)
Theorem deleteLoad_commutes (i j : string) (w : State) :
  deleteLoad i (deleteLoad j w) = deleteLoad j (deleteLoad i w)
  /\ deleteLoad i (deleteLoad i w) = deleteLoad i w.
Proof.
  assert (C : forall (l : list LoadRecord.t),
             List.filter (fun r => negb (String.eqb (LoadRecord.id r) i))
               (List.filter (fun r => negb (String.eqb (LoadRecord.id r) j)) l)
             = List.filter (fun r => negb (String.eqb (LoadRecord.id r) j))
                 (List.filter (fun r => negb (String.eqb (LoadRecord.id r) i)) l)).
  { induction l as [|a l IH]; [reflexivity|]. cbn [List.filter].
    destruct (negb (String.eqb (LoadRecord.id a) j)) eqn:Ej;
      destruct (negb (String.eqb (LoadRecord.id a) i)) eqn:Ei;
      cbn [List.filter]; rewrite ?Ei, ?Ej, IH; reflexivity. }
  assert (I : forall (l : list LoadRecord.t),
             List.filter (fun r => negb (String.eqb (LoadRecord.id r) i))
               (List.filter (fun r => negb (String.eqb (LoadRecord.id r) i)) l)
             = List.filter (fun r => negb (String.eqb (LoadRecord.id r) i)) l).
  { induction l as [|a l IH]; [reflexivity|]. cbn [List.filter].
    destruct (negb (String.eqb (LoadRecord.id a) i)) eqn:Ei;
      cbn [List.filter]; rewrite ?Ei, IH; reflexivity. }
  unfold deleteLoad, saveLoads, setItem, setLoads.
  cbn [costs convGrains convGrams loads newLoad selectedImage isAnalyzing result
       error bulletDiameter expectedShots localStorage].
  rewrite !insert_insert_eq, C, I. split; reflexivity.
Qed.

End Tabs.

(** ** Cost tab: the amounts shown against exact arithmetic *)

Section RoundingMore.

Local Open Scope Z_scope.

(** Rounding an exact mantissa that is already at or above its target
    exponent changes nothing. *)
Lemma binary_round_aux_exact (m : positive) (e : Z) :
  fexp prec emax (Zdigits2 (Zpos m) + e) <= e -> e <= emax - prec ->
  binary_round_aux prec emax false (Zpos m) e loc_Exact = S754_finite false m e.
Proof.
  intros Hf He. rewrite binary_round_aux_unfold. cbv zeta. unfold shr_fexp.
  assert (Hshr : forall mrs n, n <= 0 -> shr mrs e n = (mrs, e)).
  { intros mrs n Hn. unfold shr. destruct n; [reflexivity|lia|reflexivity]. }
  set (n1 := fexp prec emax (Zdigits2 (Zpos m) + e) - e).
  assert (Hn1 : n1 <= 0) by (unfold n1; lia).
  rewrite (Hshr _ n1 Hn1).
  cbn [fst snd shr_record_of_loc shr_m loc_of_shr_record round_nearest_even].
  fold n1. rewrite (Hshr _ n1 Hn1). cbn [fst snd shr_record_of_loc shr_m].
  replace (e <=? emax - prec) with true; [reflexivity|].
  symmetry. apply Z.leb_le, He.
Qed.

(** Rounding an exact positive mantissa: within [4 * 2^(fexp E)] when the
    value is below [2^E]. *)
Lemma round_exact_bound (m : positive) (e E : Z) :
  Zdigits2 (Zpos m) + e <= E ->
  fexp prec emax E + 1 <= emax - prec ->
  e <= emax - prec ->
  nonneg_finite (binary_round_aux prec emax false (Zpos m) e loc_Exact)
  /\ (Qabs (to_Q (binary_round_aux prec emax false (Zpos m) e loc_Exact)
            - inject_Z (Zpos m) * pow2 e)
      <= 4 * pow2 (fexp prec emax E))%Q.
Proof.
  intros HE Hmax He.
  pose proof (Zdigits2_bounds m) as [_ Hm].
  assert (Hd : 0 <= Zdigits2 (Zpos m)) by (cbn; lia).
  destruct (Z_le_gt_dec e (fexp prec emax E)) as [Hle|Hgt].
  - apply (binary_round_aux_bound (Zpos m) e loc_Exact (Zdigits2 (Zpos m))
             (fexp prec emax E)); try assumption; try lia.
    apply fexp_mono, HE.
  - rewrite binary_round_aux_exact; [| |exact He].
    + split; [right; eauto|]. cbn [to_Q].
      assert (E0 : (inject_Z (Zpos m) * pow2 e - inject_Z (Zpos m) * pow2 e == 0)%Q) by ring.
      rewrite E0. simpl Qabs.
      apply Qmult_le_0_compat; [discriminate | apply Qlt_le_weak, pow2_pos].
    + pose proof (fexp_mono _ _ HE). lia.
Qed.

Lemma iter_xO (d m : positive) : Zpos (Pos.iter xO m d) = Zpos m * 2 ^ Zpos d.
Proof.
  induction d as [|d IH] using Pos.peano_ind.
  - cbn [Pos.iter]. lia.
  - rewrite Pos.iter_succ, Pos2Z.inj_succ, Z.pow_succ_r by lia.
    change (Zpos (Pos.iter xO m d)~0) with (2 * Zpos (Pos.iter xO m d)).
    rewrite IH. ring.
Qed.

(** [shl_align] keeps the value and lowers the exponent to the target. *)
Lemma shl_align_spec (m : positive) (e e' : Z) :
  exists k, 0 <= k
    /\ Zpos (fst (shl_align m e e')) = Zpos m * 2 ^ k
    /\ snd (shl_align m e e') = e - k
    /\ (e' <= e -> k = e - e')
    /\ (e < e' -> k = 0).
Proof.
  unfold shl_align. destruct (e' - e) as [|p|p] eqn:E; cbn [fst snd].
  - exists 0. repeat split; lia.
  - exists 0. repeat split; lia.
  - exists (Zpos p). rewrite iter_xO. repeat split; lia.
Qed.

(** A lower bound of the value bounds the digits of the mantissa from
    below. *)
Lemma digits_of_value_lower (m : positive) (e L : Z) :
  (pow2 L <= inject_Z (Zpos m) * pow2 e)%Q -> L + 1 <= Zdigits2 (Zpos m) + e.
Proof.
  intros H. pose proof (Zdigits2_bounds m) as [_ Hhi].
  set (d := Zdigits2 (Zpos m)) in *.
  assert (Hd : 0 <= d) by (unfold d; cbn; lia).
  assert (Hlt : (pow2 L < pow2 (d + e))%Q).
  { eapply Qle_lt_trans; [exact H|]. rewrite pow2_add, (pow2_Z d Hd).
    apply Qmult_lt_compat_r; [apply pow2_pos|].
    rewrite <- Zlt_Qlt. exact Hhi. }
  apply Qpower_lt_compat_l_inv in Hlt; [lia | reflexivity].
Qed.

Lemma fexp_small (E : Z) : E <= 971 -> fexp prec emax E + 1 <= emax - prec.
Proof. unfold fexp, SpecFloat.emin, prec, emax. lia. Qed.

Lemma exponent_of_value (m : positive) (e E : Z) :
  (inject_Z (Zpos m) * pow2 e < pow2 E)%Q -> e <= E - 1.
Proof.
  intros H. pose proof (digits_of_value m e E H).
  assert (1 <= Zdigits2 (Zpos m)) by (cbn; lia). lia.
Qed.

(** [x + y] for positive Numbers: finite and within [4 * 2^(fexp E)] of
    the sum, when the sum is below [2^E]. *)
Lemma add_bound (mx my : positive) (ex ey E : Z) :
  (inject_Z (Zpos mx) * pow2 ex + inject_Z (Zpos my) * pow2 ey < pow2 E)%Q ->
  E <= 971 ->
  let r := add (S754_finite false mx ex) (S754_finite false my ey) in
  nonneg_finite r
  /\ (Qabs (to_Q r - (inject_Z (Zpos mx) * pow2 ex + inject_Z (Zpos my) * pow2 ey))
      <= 4 * pow2 (fexp prec emax E))%Q.
Proof.
  intros Hlt HE. cbv zeta. unfold add. cbn [SFadd cond_Zopp].
  set (ez := Z.min ex ey).
  destruct (shl_align_spec mx ex ez) as (kx & Hkx & Hfx & _ & Hx & _).
  destruct (shl_align_spec my ey ez) as (ky & Hky & Hfy & _ & Hy & _).
  specialize (Hx ltac:(unfold ez; lia)). specialize (Hy ltac:(unfold ez; lia)).
  set (ax := fst (shl_align mx ex ez)) in *. set (ay := fst (shl_align my ey ez)) in *.
  change (Zpos ax + Zpos ay) with (Zpos (ax + ay)).
  cbn [binary_normalize]. unfold binary_round.
  destruct (shl_align_spec (ax + ay) ez
              (fexp prec emax (Zpos (digits2_pos (ax + ay)) + ez)))
    as (k & Hk & Hf & He & _ & _).
  destruct (shl_align (ax + ay) ez (fexp prec emax (Zpos (digits2_pos (ax + ay)) + ez)))
    as [mz ez'] eqn:Es. cbn [fst snd] in Hf, He.
  assert (Hval : (inject_Z (Zpos mz) * pow2 ez'
                  == inject_Z (Zpos mx) * pow2 ex + inject_Z (Zpos my) * pow2 ey)%Q).
  { rewrite Hf, Pos2Z.inj_add, Hfx, Hfy, He.
    replace ex with (ez - k + (k + kx)) by lia.
    replace ey with (ez - k + (k + ky)) by lia.
    rewrite !(pow2_shift (ez - k)) by lia.
    rewrite !inject_Z_mult, !inject_Z_plus, !inject_Z_mult.
    rewrite !Z.pow_add_r by lia. rewrite !inject_Z_mult. ring. }
  rewrite <- Hval in Hlt |- *.
  pose proof (digits_of_value mz ez' E Hlt) as Hd.
  assert (Hx1 : (inject_Z (Zpos mx) * pow2 ex < pow2 E)%Q).
  { rewrite Hval in Hlt.
    assert (0 < inject_Z (Zpos my) * pow2 ey)%Q
      by (apply Qmult_lt_0_compat; [reflexivity | apply pow2_pos]).
    lra. }
  pose proof (exponent_of_value mx ex E Hx1) as Hex.
  apply round_exact_bound; [exact Hd | apply fexp_small, HE |].
  unfold emax, prec. unfold ez in *. lia.
Qed.

(** The same for the product, without a condition on the exponents. *)
Lemma mul_bound_any (mx my : positive) (ex ey Ex Ey : Z) :
  (inject_Z (Zpos mx) * pow2 ex < pow2 Ex)%Q ->
  (inject_Z (Zpos my) * pow2 ey < pow2 Ey)%Q ->
  Ex + Ey <= 971 ->
  let r := mul (S754_finite false mx ex) (S754_finite false my ey) in
  nonneg_finite r
  /\ (Qabs (to_Q r - inject_Z (Zpos mx) * pow2 ex * (inject_Z (Zpos my) * pow2 ey))
      <= 4 * pow2 (fexp prec emax (Ex + Ey)))%Q.
Proof.
  intros Hx Hy HE. cbv zeta. unfold mul. cbn [SFmul xorb].
  pose proof (digits_of_value mx ex Ex Hx) as Hdx.
  pose proof (digits_of_value my ey Ey Hy) as Hdy.
  pose proof (Zdigits2_bounds mx) as [_ Hmx]. pose proof (Zdigits2_bounds my) as [_ Hmy].
  set (dx := Zdigits2 (Zpos mx)) in *. set (dy := Zdigits2 (Zpos my)) in *.
  assert (H1x : 1 <= dx) by (unfold dx; cbn; lia).
  assert (H1y : 1 <= dy) by (unfold dy; cbn; lia).
  assert (Hd : Zdigits2 (Zpos (mx * my)) <= dx + dy).
  { apply (Zdigits2_le (Zpos (mx * my)) (dx + dy)); [lia|].
    rewrite Z.pow_add_r by lia. rewrite Pos2Z.inj_mul. split; [lia|].
    apply Z.mul_lt_mono_nonneg; lia. }
  assert (E1 : (inject_Z (Zpos mx) * pow2 ex * (inject_Z (Zpos my) * pow2 ey)
                == inject_Z (Zpos (mx * my)) * pow2 (ex + ey))%Q).
  { rewrite Pos2Z.inj_mul, inject_Z_mult, pow2_add. ring. }
  rewrite E1.
  apply round_exact_bound; [lia | apply fexp_small, HE | unfold emax, prec; lia].
Qed.

Lemma bound_nonneg (c : Q) (B : Z) : (0 <= c)%Q -> (0 <= c * pow2 B)%Q.
Proof. intros H. apply Qmult_le_0_compat; [exact H | apply Qlt_le_weak, pow2_pos]. Qed.

(** The three operators on Numbers that are [+0] or positive, with the
    size of the operands given by bounds on their values. *)
Lemma add_Q (x y : number) (E : Z) :
  nonneg_finite x -> nonneg_finite y ->
  (to_Q x + to_Q y < pow2 E)%Q -> E <= 971 ->
  nonneg_finite (add x y)
  /\ (Qabs (to_Q (add x y) - (to_Q x + to_Q y)) <= 4 * pow2 (fexp prec emax E))%Q.
Proof.
  intros [->|(mx & ex & ->)] [->|(my & ey & ->)] Hlt HE.
  - split; [left; reflexivity|]. cbn. apply (bound_nonneg 4); discriminate.
  - split; [right; eauto|]. cbn [add SFadd to_Q].
    assert (E0 : (inject_Z (Zpos my) * pow2 ey - (0 + inject_Z (Zpos my) * pow2 ey) == 0)%Q)
      by ring.
    rewrite E0. apply (bound_nonneg 4); discriminate.
  - split; [right; eauto|]. cbn [add SFadd to_Q].
    assert (E0 : (inject_Z (Zpos mx) * pow2 ex - (inject_Z (Zpos mx) * pow2 ex + 0) == 0)%Q)
      by ring.
    rewrite E0. apply (bound_nonneg 4); discriminate.
  - cbn [to_Q] in *. apply add_bound; assumption.
Qed.

Lemma mul_Q (x y : number) (Ex Ey : Z) :
  nonneg_finite x -> nonneg_finite y ->
  (to_Q x < pow2 Ex)%Q -> (to_Q y < pow2 Ey)%Q -> Ex + Ey <= 971 ->
  nonneg_finite (mul x y)
  /\ (Qabs (to_Q (mul x y) - to_Q x * to_Q y) <= 4 * pow2 (fexp prec emax (Ex + Ey)))%Q.
Proof.
  intros [->|(mx & ex & ->)] [->|(my & ey & ->)] Hx Hy HE.
  - split; [left; reflexivity|]. cbn. apply (bound_nonneg 4); discriminate.
  - split; [left; reflexivity|]. cbn [mul SFmul xorb to_Q].
    assert (E0 : (0 - 0 * (inject_Z (Zpos my) * pow2 ey) == 0)%Q) by ring.
    rewrite E0. apply (bound_nonneg 4); discriminate.
  - split; [left; reflexivity|]. cbn [mul SFmul xorb to_Q].
    assert (E0 : (0 - inject_Z (Zpos mx) * pow2 ex * 0 == 0)%Q) by ring.
    rewrite E0. apply (bound_nonneg 4); discriminate.
  - cbn [to_Q] in *. apply mul_bound_any; assumption.
Qed.

Lemma div_Q (x y : number) (Ex Ly : Z) :
  nonneg_finite x -> nonneg_finite y ->
  (to_Q x < pow2 Ex)%Q -> (pow2 Ly <= to_Q y)%Q -> Ex - Ly <= 971 ->
  nonneg_finite (div x y)
  /\ (Qabs (to_Q (div x y) - to_Q x / to_Q y) <= 5 * pow2 (fexp prec emax (Ex - Ly)))%Q.
Proof.
  intros Hx [->|(my & ey & ->)] Hlt Hlo HE.
  { exfalso. cbn [to_Q] in Hlo. pose proof (pow2_pos Ly). lra. }
  assert (Hy : (0 < to_Q (S754_finite false my ey))%Q).
  { cbn [to_Q]. apply Qmult_lt_0_compat; [reflexivity | apply pow2_pos]. }
  destruct Hx as [->|(mx & ex & ->)].
  - split; [left; reflexivity|]. cbn [div SFdiv xorb].
    assert (E0 : (to_Q (S754_zero false) - to_Q (S754_zero false) / to_Q (S754_finite false my ey)
                  == 0)%Q).
    { set (Y := to_Q (S754_finite false my ey)) in *. cbn [to_Q]. field. lra. }
    rewrite E0. apply (bound_nonneg 5); discriminate.
  - apply div_bound.
    + pose proof (digits_of_value mx ex Ex Hlt).
      pose proof (digits_of_value_lower my ey Ly Hlo). lia.
    + apply fexp_small, HE.
    + set (Y := to_Q (S754_finite false my ey)) in *. field. lra.
Qed.

End RoundingMore.

Section RationalBounds.

Local Open Scope Q_scope.

Lemma Qmul_bound (u p U P : Q) : (0 <= u <= U -> 0 <= p <= P -> 0 <= u * p <= U * P)%Q.
Proof. intros [H1 H2] [H3 H4]. split; nra. Qed.

Lemma Qmul_err (u v p d P : Q) :
  Qabs (u - v) <= d -> 0 <= p <= P -> Qabs (u * p - v * p) <= d * P.
Proof.
  intros H [H1 H2]. apply Qabs_Qle_condition in H. apply Qabs_Qle_condition.
  destruct H. split; nra.
Qed.

Lemma Qinv_bound (y L : Q) : 0 < L -> L <= y -> 0 < / y /\ / y <= / L.
Proof.
  intros HL Hy. assert (0 < y) by lra. split.
  - apply Qinv_lt_0_compat. assumption.
  - apply Qle_shift_inv_l; [exact HL|].
    apply Qle_trans with (L / y).
    + unfold Qdiv. rewrite Qmult_comm. apply Qle_refl.
    + apply Qle_shift_div_r; [assumption|]. lra.
Qed.

Lemma Qdiv_bound (x y X L : Q) :
  0 <= x <= X -> 0 < L -> L <= y -> 0 <= x / y /\ x / y <= X * / L.
Proof.
  intros [H1 H2] HL Hy. destruct (Qinv_bound y L HL Hy) as [H3 H4].
  assert (0 < / L) by (apply Qinv_lt_0_compat; assumption).
  unfold Qdiv. split; nra.
Qed.

Lemma Qdiv_err (u v s d L : Q) :
  Qabs (u - v) <= d -> 0 < L -> L <= s -> Qabs (u / s - v / s) <= d * / L.
Proof.
  intros H HL Hs. destruct (Qinv_bound s L HL Hs) as [H3 H4].
  apply Qabs_Qle_condition in H. apply Qabs_Qle_condition.
  destruct H. unfold Qdiv. split; nra.
Qed.

End RationalBounds.

Section CostAccuracy.

Import App Page.
Local Open Scope Q_scope.

(** The total of [calculatedCosts] against the exact formula. *)
Lemma total_accurate (c : CostInputs.t) :
  plausible c ->
  nonneg_finite (total (calculatedCosts c))
  /\ to_Q (total (calculatedCosts c)) <= 7000000
  /\ Qabs (to_Q (total (calculatedCosts c)) - exactTotal c) <= 1 # 10000000.
Proof.
  intros (Hpp & Hpw & Hpc & Hrp & Hrc & Hbp & Hbc & Hsp & Hsc & Hsl).
  unfold calculatedCosts, exactTotal. cbn [total].
  destruct c as [pp pw pc rp rc bp bc sp sc sl].
  cbn [CostInputs.powderPrice CostInputs.powderWeight CostInputs.powderCharge
       CostInputs.primerPrice CostInputs.primerCount CostInputs.bulletPrice
       CostInputs.bulletCount CostInputs.brassPrice CostInputs.brassCount
       CostInputs.brassLife] in *.
  destruct Hpp as [Npp Bpp], Hpw as [Npw Bpw], Hpc as [Npc Bpc], Hrp as [Nrp Brp],
    Hrc as [Nrc Brc], Hbp as [Nbp Bbp], Hbc as [Nbc Bbc], Hsp as [Nsp Bsp],
    Hsc as [Nsc Bsc], Hsl as [Nsl Bsl].
  pose proof (nonneg_finite_to_Q pp Npp) as Zpp.
  pose proof (nonneg_finite_to_Q pc Npc) as Zpc.
  pose proof (nonneg_finite_to_Q rp Nrp) as Zrp.
  pose proof (nonneg_finite_to_Q bp Nbp) as Zbp.
  pose proof (nonneg_finite_to_Q sp Nsp) as Zsp.
  assert (P17 : pow2 17 == 131072) by reflexivity.
  assert (P27 : pow2 27 == 134217728) by reflexivity.
  assert (P13 : pow2 13 == 8192) by reflexivity.
  assert (P10 : pow2 10 == 1024) by reflexivity.
  assert (P23 : pow2 23 == 8388608) by reflexivity.
  assert (P0 : pow2 0 == 1) by reflexivity.
  assert (Pm10 : pow2 (-10) == 1 # 1024) by reflexivity.
  assert (EK : to_Q GRAINS_PER_KG == 8484028752403313 # 549755813888)
    by (vm_compute; reflexivity).
  assert (NK : nonneg_finite GRAINS_PER_KG) by (right; unfold GRAINS_PER_KG; eauto).
  (* the powder: price by weight, by grains to the kilogram, times the charge *)
  destruct (div_Q pp pw 17 (-10) Npp Npw ltac:(rewrite P17; lra) ltac:(rewrite Pm10; lra)
              ltac:(lia)) as [Na Ea].
  assert (Ka : 5 * pow2 (fexp prec emax (17 - -10)) <= 8 # 100000000)
    by (vm_compute; discriminate).
  pose proof (Qle_trans _ _ _ Ea Ka) as Ea'. clear Ea Ka.
  destruct (Qdiv_bound (to_Q pp) (to_Q pw) 100000 (1 # 1000) (conj Zpp Bpp)
              ltac:(reflexivity) Bpw) as [Za Ba].
  assert (Ei : / (1 # 1000) == 1000) by reflexivity. rewrite Ei in Ba. clear Ei.
  set (a := div pp pw) in *. set (a' := to_Q pp / to_Q pw) in *.
  apply Qabs_Qle_condition in Ea'.
  destruct (div_Q a GRAINS_PER_KG 27 13 Na NK ltac:(rewrite P27; lra)
              ltac:(rewrite P13, EK; discriminate) ltac:(lia)) as [Nb Eb].
  assert (Kb : 5 * pow2 (fexp prec emax (27 - 13)) <= 1 # 100000000000)
    by (vm_compute; discriminate).
  pose proof (Qle_trans _ _ _ Eb Kb) as Eb'. clear Eb Kb.
  assert (EAK : to_Q a / to_Q GRAINS_PER_KG
                == to_Q a * (549755813888 # 8484028752403313)).
  { rewrite EK. reflexivity. }
  rewrite EAK in Eb'. clear EAK.
  assert (EaK : a' / (154323584 # 10000) == a' * (10000 # 154323584)) by reflexivity.
  set (b := div a GRAINS_PER_KG) in *. set (b' := a' / (154323584 # 10000)) in *.
  apply Qabs_Qle_condition in Eb'.
  assert (Eb2 : Qabs (to_Q b - b') <= 2 # 100000000000).
  { apply Qabs_Qle_condition. split; lra. }
  assert (Bb : 0 <= b' <= 6480) by (split; lra).
  destruct (mul_Q b pc 13 10 Nb Npc ltac:(rewrite P13; lra) ltac:(rewrite P10; lra)
              ltac:(lia)) as [Nc Ec].
  assert (Kc : 4 * pow2 (fexp prec emax (13 + 10)) <= 4 # 1000000000)
    by (vm_compute; discriminate).
  pose proof (Qle_trans _ _ _ Ec Kc) as Ec'. clear Ec Kc.
  pose proof (Qmul_err (to_Q b) b' (to_Q pc) _ 1000 Eb2 (conj Zpc Bpc)) as Ec2.
  destruct (Qmul_bound b' (to_Q pc) 6480 1000 Bb (conj Zpc Bpc)) as [Zc Bc].
  set (cc := mul b pc) in *. set (c' := b' * to_Q pc) in *.
  apply Qabs_Qle_condition in Ec', Ec2.
  (* the primer and the bullet *)
  destruct (div_Q rp rc 17 0 Nrp Nrc ltac:(rewrite P17; lra) ltac:(rewrite P0; lra)
              ltac:(lia)) as [Nr Er].
  assert (Kr : 5 * pow2 (fexp prec emax (17 - 0)) <= 8 # 100000000000)
    by (vm_compute; discriminate).
  pose proof (Qle_trans _ _ _ Er Kr) as Er'. clear Er.
  destruct (Qdiv_bound (to_Q rp) (to_Q rc) 100000 1 (conj Zrp Brp)
              ltac:(reflexivity) Brc) as [Zr Br].
  assert (Ei : / 1 == 1) by reflexivity. rewrite Ei in Br.
  set (r := div rp rc) in *. set (r' := to_Q rp / to_Q rc) in *.
  apply Qabs_Qle_condition in Er'.
  destruct (div_Q bp bc 17 0 Nbp Nbc ltac:(rewrite P17; lra) ltac:(rewrite P0; lra)
              ltac:(lia)) as [Nu Eu].
  pose proof (Qle_trans _ _ _ Eu Kr) as Eu'. clear Eu.
  destruct (Qdiv_bound (to_Q bp) (to_Q bc) 100000 1 (conj Zbp Bbp)
              ltac:(reflexivity) Bbc) as [Zu Bu].
  rewrite Ei in Bu.
  set (u := div bp bc) in *. set (u' := to_Q bp / to_Q bc) in *.
  apply Qabs_Qle_condition in Eu'.
  (* the brass: price by count, by life *)
  destruct (div_Q sp sc 17 0 Nsp Nsc ltac:(rewrite P17; lra) ltac:(rewrite P0; lra)
              ltac:(lia)) as [Ns1 Es1].
  pose proof (Qle_trans _ _ _ Es1 Kr) as Es1'. clear Es1.
  destruct (Qdiv_bound (to_Q sp) (to_Q sc) 100000 1 (conj Zsp Bsp)
              ltac:(reflexivity) Bsc) as [Zs1 Bs1].
  rewrite Ei in Bs1.
  set (s1 := div sp sc) in *. set (s1' := to_Q sp / to_Q sc) in *.
  pose proof (Qdiv_err (to_Q s1) s1' (to_Q sl) _ 1 Es1' ltac:(reflexivity) Bsl) as Es2.
  rewrite Ei in Es2.
  apply Qabs_Qle_condition in Es1'.
  destruct (div_Q s1 sl 17 0 Ns1 Nsl ltac:(rewrite P17; lra) ltac:(rewrite P0; lra)
              ltac:(lia)) as [Ns Es].
  pose proof (Qle_trans _ _ _ Es Kr) as Es'. clear Es.
  destruct (Qdiv_bound s1' (to_Q sl) 100000 1 (conj Zs1 Bs1)
              ltac:(reflexivity) Bsl) as [Zs Bs].
  rewrite Ei in Bs.
  set (s := div s1 sl) in *. set (s' := s1' / to_Q sl) in *.
  set (s1l := to_Q s1 / to_Q sl) in *.
  apply Qabs_Qle_condition in Es', Es2.
  (* the three sums *)
  assert (Kt : 4 * pow2 (fexp prec emax 23) <= 4 # 1000000000)
    by (vm_compute; discriminate).
  destruct (add_Q cc r 23 Nc Nr ltac:(rewrite P23; lra) ltac:(lia)) as [Nt1 Et1].
  pose proof (Qle_trans _ _ _ Et1 Kt) as Et1'. clear Et1.
  set (t1 := add cc r) in *. apply Qabs_Qle_condition in Et1'.
  destruct (add_Q t1 u 23 Nt1 Nu ltac:(rewrite P23; lra) ltac:(lia)) as [Nt2 Et2].
  pose proof (Qle_trans _ _ _ Et2 Kt) as Et2'. clear Et2.
  set (t2 := add t1 u) in *. apply Qabs_Qle_condition in Et2'.
  destruct (add_Q t2 s 23 Nt2 Ns ltac:(rewrite P23; lra) ltac:(lia)) as [Nt3 Et3].
  pose proof (Qle_trans _ _ _ Et3 Kt) as Et3'. clear Et3.
  set (t3 := add t2 s) in *. apply Qabs_Qle_condition in Et3'.
  split; [exact Nt3|]. split; [lra|].
  apply Qabs_Qle_condition. split; lra.
Qed.

(** X23. The amounts on the result card are the exact costs rounded to
    cents.  For inputs of a plausible size (prices up to 100000, a charge
    up to 1000 grains, at least a gram of powder, at least one piece of
    each component, at least one use of the brass), the total shown is a
    decimal with two fraction digits within 0.0050001 of the cost that the
    formulas give in exact arithmetic, and the price per hundred one within
    0.00502 of a hundred times that cost: the binary64 operations add less
    than a millionth of a cent to the rounding of the display. *)
Theorem shown_costs_accurate (w : State) :
  plausible (costs w) ->
  exists n k : Z,
    (0 <= n)%Z /\ (0 <= k)%Z
    /\ shownTotal w = fixed_digits n 2
    /\ Qabs (inject_Z n * (1 # 100) - exactTotal (costs w)) <= 50001 # 10000000
    /\ shownPer100 w = fixed_digits k 2
    /\ Qabs (inject_Z k * (1 # 100) - 100 * exactTotal (costs w)) <= 502 # 100000.
Proof.
  intros Hc. destruct (total_accurate (costs w) Hc) as (Nt & Bt & Et).
  unfold shownTotal, shownPer100.
  assert (Ep : per100 (calculatedCosts (costs w))
               = mul (total (calculatedCosts (costs w))) hundred) by reflexivity.
  rewrite Ep. clear Ep.
  set (t := total (calculatedCosts (costs w))) in *.
  set (x := exactTotal (costs w)) in *.
  pose proof (nonneg_finite_to_Q t Nt) as Zt.
  assert (E21 : inject_Z (10 ^ 21) == 1000000000000000000000) by reflexivity.
  assert (Ep2 : pow10 (- Z.of_nat 2) == 1 # 100) by reflexivity.
  destruct (toFixed_nonneg t 1 Nt ltac:(rewrite E21; lra)) as (n & Hn & Tn & Bn).
  rewrite Ep2 in Bn.
  assert (Nh : nonneg_finite hundred) by (right; unfold hundred; eauto).
  assert (Eh : to_Q hundred == 100) by (vm_compute; reflexivity).
  assert (P23 : pow2 23 == 8388608) by reflexivity.
  assert (P7 : pow2 7 == 128) by reflexivity.
  destruct (mul_Q t hundred 23 7 Nt Nh ltac:(rewrite P23; lra) ltac:(rewrite P7, Eh; reflexivity)
              ltac:(lia)) as [Np Epm].
  assert (Kp : 4 * pow2 (fexp prec emax (23 + 7)) <= 5 # 10000000)
    by (vm_compute; discriminate).
  pose proof (Qle_trans _ _ _ Epm Kp) as Ep'. clear Epm Kp.
  rewrite Eh in Ep'.
  set (p := mul t hundred) in *.
  apply Qabs_Qle_condition in Ep', Et, Bn.
  destruct (toFixed_nonneg p 1 Np ltac:(rewrite E21; lra)) as (k & Hk & Tk & Bk).
  rewrite Ep2 in Bk. apply Qabs_Qle_condition in Bk.
  exists n, k. split; [exact Hn|]. split; [exact Hk|].
  split; [exact Tn|]. split; [apply Qabs_Qle_condition; split; lra|].
  split; [exact Tk|]. apply Qabs_Qle_condition; split; lra.
Qed.

Lemma shown_costs_accurate_witness :
  exists n k : Z,
    (0 <= n)%Z /\ (0 <= k)%Z
    /\ shownTotal (initial ∅) = fixed_digits n 2
    /\ Qabs (inject_Z n * (1 # 100) - exactTotal (costs (initial ∅))) <= 50001 # 10000000
    /\ shownPer100 (initial ∅) = fixed_digits k 2
    /\ Qabs (inject_Z k * (1 # 100) - 100 * exactTotal (costs (initial ∅))) <= 502 # 100000.
Proof.
  apply (shown_costs_accurate (initial ∅)).
  repeat split; try (right; eexists _, _; reflexivity); vm_compute; discriminate.
Defined.

End CostAccuracy.
